(** * dockerfile_parse/parser.py: the Dockerfile structurer and editor

    A shallow embedding of [DockerfileParser] (src/dockerfile_parse/parser.py)
    and the properties of it that the specification states.

    Modelling conventions.
    - Text is [string] over [ascii].  Character classes are those of
      Python 3 on code points below 128; a code point of 128 or more is
      taken to be neither white space nor a word character and is left
      alone by [upper].
    - The two regular expressions are lists of atoms run by a
      backtracking matcher, greedy as [re] is; their closed forms are
      proved from it.
    - Line numbers are [nat]; the source's [lineno] starts at -1 and is
      incremented before use, so the first line has number 0.
    - The class reaches the file through the [lines] property.  The
      file is its text, or absent: reading an absent file raises
      [IOError]; writing always succeeds and is recorded in a log.
      The text is read as it stands: text mode also ends a line at a
      carriage return and hands it over as a newline, so [readlines]
      is what the code reads on a text that holds no carriage return,
      and the statements that read a file back after a write assume
      that it holds none.  The
      optional cache of the content ([cache_content], off by default)
      is a wrapper around the file and is not modelled: every read goes
      to the file.
    - A dict is an association list in insertion order.
    - [shlex.split], [shlex.quote] and the string methods belong to
      Python; their definitions follow the library. *)

From Stdlib Require Import String Ascii List Arith Bool Lia.
Import ListNotations.
Open Scope list_scope.
Open Scope string_scope.

(* ================================================================== *)
(** ** Python's string primitives *)

Module PyStr.

Definition NL : ascii := "010"%char.
Definition BACKSLASH : ascii := "092"%char.
Definition DQUOTE : ascii := "034"%char.
Definition SQUOTE : ascii := "039"%char.
Definition EQUALS : ascii := "061"%char.

(** One-character strings, to write lines down. *)
Definition nl : string := String NL EmptyString.
Definition bs : string := String BACKSLASH EmptyString.
Definition dq : string := String DQUOTE EmptyString.
Definition sq : string := String SQUOTE EmptyString.

(** [str.isspace] and the regex class [\s] below 128:
    tab, newline, vertical tab, form feed, carriage return,
    the separators 28..31 and the space. *)
Definition is_space (c : ascii) : bool :=
  let n := nat_of_ascii c in
  (((9 <=? n) && (n <=? 13)) || ((28 <=? n) && (n <=? 32)))%nat.

(** The regex class [\w] below 128: letters, digits and underscore. *)
Definition is_word (c : ascii) : bool :=
  let n := nat_of_ascii c in
  (((48 <=? n) && (n <=? 57)) || ((65 <=? n) && (n <=? 90))
   || (n =? 95) || ((97 <=? n) && (n <=? 122)))%nat.

(** The regex atom [.]: any character but a newline. *)
Definition is_dot (c : ascii) : bool := negb (Ascii.eqb c NL).

Definition upper_char (c : ascii) : ascii :=
  let n := nat_of_ascii c in
  if ((97 <=? n) && (n <=? 122))%nat then ascii_of_nat (n - 32) else c.

Fixpoint upper (s : string) : string :=
  match s with
  | EmptyString => EmptyString
  | String c s' => String (upper_char c) (upper s')
  end.

(** Truth value of a string: non-empty. *)
Definition truthy (s : string) : bool :=
  match s with EmptyString => false | _ => true end.

Fixpoint str_all (f : ascii -> bool) (s : string) : bool :=
  match s with
  | EmptyString => true
  | String c s' => f c && str_all f s'
  end.

(** [c in s] for a character [c]. *)
Fixpoint contains (c : ascii) (s : string) : bool :=
  match s with
  | EmptyString => false
  | String d s' => Ascii.eqb c d || contains c s'
  end.

(** The longest prefix whose characters satisfy [f], and the rest. *)
Fixpoint span (f : ascii -> bool) (s : string) : string * string :=
  match s with
  | EmptyString => (EmptyString, EmptyString)
  | String c s' =>
      if f c then let (a, b) := span f s' in (String c a, b)
      else (EmptyString, s)
  end.

(** [s.lstrip()] *)
Fixpoint lstrip (s : string) : string :=
  match s with
  | EmptyString => EmptyString
  | String c s' => if is_space c then lstrip s' else s
  end.

(** [s.rstrip()] *)
Fixpoint rstrip (s : string) : string :=
  match s with
  | EmptyString => EmptyString
  | String c s' =>
      match rstrip s' with
      | EmptyString => if is_space c then EmptyString else String c EmptyString
      | r => String c r
      end
  end.

(** [s.endswith(c)] for a character [c]. *)
Fixpoint endswith (c : ascii) (s : string) : bool :=
  match s with
  | EmptyString => false
  | String d EmptyString => Ascii.eqb d c
  | String _ s' => endswith c s'
  end.

(** [s[:-1]] *)
Fixpoint drop_last (s : string) : string :=
  match s with
  | EmptyString => EmptyString
  | String _ EmptyString => EmptyString
  | String c s' => String c (drop_last s')
  end.

(** [s.replace(c, '')] for a character [c]. *)
Fixpoint remove_char (c : ascii) (s : string) : string :=
  match s with
  | EmptyString => EmptyString
  | String d s' =>
      if Ascii.eqb d c then remove_char c s' else String d (remove_char c s')
  end.

(** [s.split(None, 1)]: leading white space is skipped; the first word
    runs to the next white space; what follows the white space after
    it, if anything, is the second element, kept as it is. *)
Definition split_ws1 (s : string) : list string :=
  match lstrip s with
  | EmptyString => []
  | s1 =>
      let (w, r) := span (fun c => negb (is_space c)) s1 in
      match lstrip r with
      | EmptyString => [w]
      | r' => [w; r']
      end
  end.

(** [s.split(c, 1)] for a character [c]: cut at the first [c]. *)
Fixpoint split_char1 (c : ascii) (s : string) : list string :=
  match s with
  | EmptyString => [EmptyString]
  | String d s' =>
      if Ascii.eqb d c then [EmptyString; s']
      else match split_char1 c s' with
           | a :: r => String d a :: r
           | [] => [String d EmptyString]
           end
  end.

(** [sep.join(l)] *)
Fixpoint join (sep : string) (l : list string) : string :=
  match l with
  | [] => EmptyString
  | [a] => a
  | a :: r => a ++ sep ++ join sep r
  end.

(** [''.join(l)] *)
Definition concat_lines (l : list string) : string := String.concat EmptyString l.

(** [f.readlines()] on a text that holds no carriage return: the text
    cut after every newline.  (Text mode ends a line at a carriage
    return as well; such text is outside the model.) *)
Fixpoint readlines_aux (cur : string) (s : string) : list string :=
  match s with
  | EmptyString =>
      match cur with EmptyString => [] | _ => [cur] end
  | String c s' =>
      if Ascii.eqb c NL then (cur ++ String c EmptyString) :: readlines_aux EmptyString s'
      else readlines_aux (cur ++ String c EmptyString) s'
  end.

Definition readlines (s : string) : list string := readlines_aux EmptyString s.

(** [list(s)]: the characters of [s], each a string. *)
Fixpoint chars (s : string) : list string :=
  match s with
  | EmptyString => []
  | String c s' => String c EmptyString :: chars s'
  end.

(** [del l[a:b]] for indices [0 <= a], [0 <= b]. *)
Definition del_slice {A} (a b : nat) (l : list A) : list A :=
  if (b <=? a)%nat then l else (firstn a l ++ skipn b l)%list.

(** [l.insert(i, x)] for [0 <= i]; past the end it appends. *)
Definition insert {A} (i : nat) (x : A) (l : list A) : list A :=
  (firstn i l ++ x :: skipn i l)%list.

End PyStr.

Import PyStr.

(* ================================================================== *)
(** ** The structurer: [DockerfileParser.structure] *)

Record Instruction := mkInstruction {
  instruction : string;   (* always upper-case *)
  startline : nat;        (* 0-based *)
  endline : nat;          (* 0-based *)
  content : string;
  value : string
}.

(** The nested helper [_rstrip_backslash]. *)
Definition _rstrip_backslash (l : string) : string :=
  let l := rstrip l in
  if endswith BACKSLASH l then drop_last l else l.

(** The two patterns, run by a backtracking matcher as [re] runs them. *)
Module Re.

(** What the two patterns are made of: a greedy repetition of a
    character class, [cls*] when [least] is 0 and [cls+] when it is 1,
    possibly a group; a literal character; and the anchor [$]. *)
Inductive atom : Type :=
| Rep (cls : ascii -> bool) (least : nat) (grouped : bool)
| Lit (c : ascii)
| Dollar.

(** Stopping a repetition after [taken]: allowed once [least]
    characters are taken, and then the rest of the pattern decides. *)
Definition stop (least : nat) (k : string -> string -> option (list string))
    (taken s : string) : option (list string) :=
  if (least <=? String.length taken)%nat then k taken s else None.

(** A greedy repetition: take one more character when the class allows
    it, and come back to stop here if the rest cannot match then. *)
Fixpoint rep (cls : ascii -> bool) (least : nat)
    (k : string -> string -> option (list string)) (taken s : string)
  : option (list string) :=
  match s with
  | EmptyString => stop least k taken s
  | String c s' =>
      if cls c then
        match rep cls least k (taken ++ String c EmptyString) s' with
        | Some g => Some g
        | None => stop least k taken s
        end
      else stop least k taken s
  end.

(** [$]: at the end of the string, or before a newline that ends it. *)
Definition at_end (s : string) : bool :=
  match s with
  | EmptyString => true
  | String c EmptyString => Ascii.eqb c NL
  | _ => false
  end.

(** What a repetition hands over to the rest of the pattern. *)
Definition after_rep (grouped : bool) (rest_of_pattern : string -> option (list string))
    (taken s : string) : option (list string) :=
  match rest_of_pattern s with
  | Some g => Some (if grouped then taken :: g else g)
  | None => None
  end.

(** [pattern.match(s)]: the groups of the first match found from the
    start of [s], or [None]. *)
Fixpoint run (p : list atom) (s : string) {struct p} : option (list string) :=
  match p with
  | [] => Some []
  | Dollar :: p' => if at_end s then run p' s else None
  | Lit c :: p' =>
      match s with
      | String d s' => if Ascii.eqb d c then run p' s' else None
      | EmptyString => None
      end
  | Rep cls least grouped :: p' =>
      rep cls least (after_rep grouped (run p')) EmptyString s
  end.

End Re.

(** [insnre], the pattern  ^ \s* (\w+) \s+ ( .* ) $  (written here with
    blanks between its atoms). *)
Definition insnre : list Re.atom :=
  [Re.Rep is_space 0 false; Re.Rep is_word 1 true; Re.Rep is_space 1 false;
   Re.Rep is_dot 0 true; Re.Dollar].

(** [contre], the pattern  ^ .* \\ \s* $  (a literal backslash between
    [.*] and [\s*]). *)
Definition contre : list Re.atom :=
  [Re.Rep is_dot 0 false; Re.Lit BACKSLASH; Re.Rep is_space 0 false; Re.Dollar].

(** [insnre.match(line)]: [m.groups()], or [None]. *)
Definition insnre_match (line : string) : option (list string) := Re.run insnre line.

(** [contre.match(line)], as the truth value that the loop uses. *)
Definition contre_match (line : string) : bool :=
  match Re.run contre line with Some _ => true | None => false end.

(** The loop state of [structure]. *)
Record scan_state := mkScan {
  instructions : list Instruction;
  in_continuation : bool;
  current_instruction : option Instruction
}.

Definition scan_init : scan_state :=
  {| instructions := []; in_continuation := false; current_instruction := None |}.

(** The [if not in_continuation] branch after a match. *)
Definition open_instruction (lineno : nat) (line kw rest : string) : Instruction :=
  {| instruction := upper kw;
     startline := lineno;
     endline := lineno;
     content := line;
     value := _rstrip_backslash rest |}.

(** The [else] branch: the line continues [ci]. *)
Definition continue_instruction (lineno : nat) (line : string) (ci : Instruction)
  : Instruction :=
  {| instruction := instruction ci;
     startline := startline ci;
     endline := lineno;
     content := content ci ++ line;
     value := if truthy (value ci)
              then value ci ++ _rstrip_backslash line
              else _rstrip_backslash (lstrip line) |}.

(** The end of the loop body: [in_continuation = contre.match(line)],
    and the instruction is appended when the line does not continue. *)
Definition close_line (line : string) (st : scan_state) (ci : Instruction)
  : scan_state :=
  let cont := contre_match line in
  {| instructions := if cont then instructions st else (instructions st ++ [ci])%list;
     in_continuation := cont;
     current_instruction := Some ci |}.

(** One iteration of [for line in self.lines].  A line that does not
    match [insnre] outside a continuation is skipped by [continue] and
    leaves the state as it is.  The state [in_continuation] with no
    current instruction does not arise (lemma [scan_current]); the
    model leaves the state alone there. *)
Definition scan_line (lineno : nat) (line : string) (st : scan_state) : scan_state :=
  if in_continuation st then
    match current_instruction st with
    | Some ci => close_line line st (continue_instruction lineno line ci)
    | None => st
    end
  else
    match insnre_match line with
    | None => st
    | Some groups =>
        close_line line st
          (open_instruction lineno line
             (nth 0 groups EmptyString) (nth 1 groups EmptyString))
    end.

Fixpoint scan (lineno : nat) (lines : list string) (st : scan_state) : scan_state :=
  match lines with
  | [] => st
  | line :: rest => scan (S lineno) rest (scan_line lineno line st)
  end.

(** [structure] as a function of the lines read. *)
Definition structure_of (lines : list string) : list Instruction :=
  instructions (scan 0 lines scan_init).


(* ================================================================== *)
(** ** Exceptions and results *)

Inductive exn : Set :=
  IOError | ValueError | TypeError | KeyError | IndexError | AssertionError.

Inductive result (A : Type) : Type :=
| Ok (a : A)
| Raise (e : exn).

Arguments Ok {A} a.
Arguments Raise {A} e.

Definition rbind {A B} (r : result A) (f : A -> result B) : result B :=
  match r with
  | Ok a => f a
  | Raise e => Raise e
  end.

Notation "x <- r ;; k" := (rbind r (fun x => k))
  (at level 61, r at next level, right associativity).

(* ================================================================== *)
(** ** Python's [shlex] module, as the parser uses it

    [shlex.split(s)] is [list(lex)] for a lexer in POSIX mode with
    [whitespace_split = True] and no comment characters, and [quote] is
    [shlex.quote] ([pipes.quote] on Python 2).  They belong to Python's
    standard library; the definitions follow [shlex.py]. *)

Module Shlex.

(** [self.state]: [' '], ['a'], a quote character or the escape
    character.  [escapedstate] takes its values in the same type. *)
Inductive lex_state : Set :=
| InSpace
| InWord
| InQuote (q : ascii)
| InEscape (e : ascii).

(** [self.whitespace = ' \t\r\n'] *)
Definition is_whitespace (c : ascii) : bool :=
  let n := nat_of_ascii c in
  ((n =? 32) || (n =? 9) || (n =? 13) || (n =? 10))%nat.

(** [self.quotes] *)
Definition is_quote (c : ascii) : bool :=
  Ascii.eqb c SQUOTE || Ascii.eqb c DQUOTE.

(** [self.escape] *)
Definition is_escape (c : ascii) : bool := Ascii.eqb c BACKSLASH.

(** [self.escapedquotes] *)
Definition is_escapedquote (c : ascii) : bool := Ascii.eqb c DQUOTE.

(** The end of [read_token]: a token that is empty and was not quoted
    is [None], which ends the iteration; it only arises at the end of
    the input. *)
Definition emit (token : string) (quoted : bool) (rest : result (list string))
  : result (list string) :=
  if truthy token || quoted then (l <- rest ;; Ok (token :: l)) else rest.

Definition append_char (token : string) (c : ascii) : string :=
  token ++ String c EmptyString.

(** [read_token], called until the input is exhausted: [st] is
    [self.state], [esc] is [escapedstate], [token] is [self.token] and
    [quoted] the flag of the token being read. *)
Fixpoint lex (st esc : lex_state) (token : string) (quoted : bool) (s : string)
  : result (list string) :=
  match s with
  | EmptyString =>
      match st with
      | InSpace | InWord => emit token quoted (Ok [])
      | InQuote _ => Raise ValueError      (* No closing quotation *)
      | InEscape _ => Raise ValueError     (* No escaped character *)
      end
  | String c s' =>
      match st with
      | InSpace =>
          if is_whitespace c then
            if truthy token || quoted
            then emit token quoted (lex InSpace esc EmptyString false s')
            else lex InSpace esc token quoted s'
          else if is_escape c then lex (InEscape c) InWord token quoted s'
          else if is_quote c then lex (InQuote c) esc token quoted s'
          else lex InWord esc (String c EmptyString) quoted s'
      | InQuote q =>
          if Ascii.eqb c q then lex InWord esc token true s'
          else if is_escape c && is_escapedquote q
          then lex (InEscape c) (InQuote q) token true s'
          else lex (InQuote q) esc (append_char token c) true s'
      | InEscape e =>
          let token :=
            match esc with
            | InQuote q =>
                if negb (Ascii.eqb c e) && negb (Ascii.eqb c q)
                then append_char token e else token
            | _ => token
            end in
          lex esc esc (append_char token c) quoted s'
      | InWord =>
          if is_whitespace c then
            if truthy token || quoted
            then emit token quoted (lex InSpace esc EmptyString false s')
            else lex InSpace esc token quoted s'
          else if is_quote c then lex (InQuote c) esc token quoted s'
          else if is_escape c then lex (InEscape c) InWord token quoted s'
          else lex InWord esc (append_char token c) quoted s'
      end
  end.

(** [shlex.split(s)] *)
Definition split (s : string) : result (list string) :=
  lex InSpace InSpace EmptyString false s.

(** The characters [quote] leaves alone: ASCII word characters and
    [@%+=:,./-]. *)
Definition is_safe (c : ascii) : bool :=
  is_word c || contains c "@%+=:,./-".

(** Every single quote becomes the five characters: single quote,
    double quote, single quote, double quote, single quote. *)
Fixpoint escape_squotes (s : string) : string :=
  match s with
  | EmptyString => EmptyString
  | String c s' =>
      if Ascii.eqb c SQUOTE
      then sq ++ dq ++ sq ++ dq ++ sq ++ escape_squotes s'
      else String c (escape_squotes s')
  end.

(** [shlex.quote(s)] *)
Definition quote (s : string) : string :=
  if negb (truthy s) then sq ++ sq
  else if str_all is_safe s then s
  else sq ++ escape_squotes s ++ sq.

End Shlex.

(* ================================================================== *)
(** ** The parser object and its line source and sink *)

(** [dockerfile] is the text of the file at [dockerfile_path], if the
    file exists; [written] records, in order, the line lists handed to
    the [lines] setter. *)
Record DockerfileParser := mkParser {
  dockerfile : option string;
  written : list (list string)
}.

(** The [lines] property. *)
Definition lines (self : DockerfileParser) : result (list string) :=
  match dockerfile self with
  | Some text => Ok (readlines text)
  | None => Raise IOError
  end.

(** The [lines] setter: [dockerfile.writelines(lines)]. *)
Definition set_lines (ls : list string) (self : DockerfileParser) : DockerfileParser :=
  {| dockerfile := Some (concat_lines ls);
     written := (written self ++ [ls])%list |}.

(** The [structure] property. *)
Definition structure (self : DockerfileParser) : result (list Instruction) :=
  ls <- lines self ;; Ok (structure_of ls).

(** The [baseimage] property: the value of the first FROM. *)
Fixpoint first_value (name : string) (insns : list Instruction) : option string :=
  match insns with
  | [] => None
  | insndesc :: rest =>
      if instruction insndesc =? name then Some (value insndesc)
      else first_value name rest
  end.

Definition baseimage (self : DockerfileParser) : result (option string) :=
  insns <- structure self ;; Ok (first_value "FROM" insns).

(** The [cmd] property: the value of the last CMD. *)
Definition last_value (name : string) (insns : list Instruction) : option string :=
  fold_left (fun v insndesc =>
               if instruction insndesc =? name then Some (value insndesc) else v)
            insns None.

Definition cmd (self : DockerfileParser) : result (option string) :=
  insns <- structure self ;; Ok (last_value "CMD" insns).

(* ================================================================== *)
(** ** Labels: the [labels] property *)

(** A dict of labels, in insertion order. *)
Definition dict := list (string * string).

Fixpoint dict_get (k : string) (d : dict) : option string :=
  match d with
  | [] => None
  | (k', v) :: r => if k' =? k then Some v else dict_get k r
  end.

(** [d[k] = v]: an existing key keeps its place. *)
Fixpoint dict_set (k v : string) (d : dict) : dict :=
  match d with
  | [] => [(k, v)]
  | (k', v') :: r => if k' =? k then (k, v) :: r else (k', v') :: dict_set k v r
  end.

(** [k in d] *)
Definition dict_mem (k : string) (d : dict) : bool :=
  match dict_get k d with Some _ => true | None => false end.

(** [_shlex_split]; both of its branches compute [shlex.split]. *)
Definition _shlex_split (s : string) : result (list string) := Shlex.split s.

(** The value with its single quotes removed, then its double quotes
    (two calls of [replace]). *)
Definition remove_quotes (v : string) : string :=
  remove_char DQUOTE (remove_char SQUOTE v).

(** [labels[key_val[0]] = key_val[1]] when [len(key_val) > 1], and the
    empty string for the value otherwise. *)
Definition set_key_val (key_val : list string) (labels : dict) : result dict :=
  match key_val with
  | [] => Raise IndexError
  | [k] => Ok (dict_set k EmptyString labels)
  | k :: v :: _ => Ok (dict_set k v labels)
  end.

(** [for token in shlex_splits] of the getter. *)
Fixpoint labels_tokens (tokens : list string) (labels : dict) : result dict :=
  match tokens with
  | [] => Ok labels
  | token :: rest =>
      labels' <- set_key_val (split_char1 EQUALS token) labels ;;
      labels_tokens rest labels'
  end.

(** The body of [for insndesc in self.structure] of the getter. *)
Definition labels_insn (insndesc : Instruction) (labels : dict) : result dict :=
  if instruction insndesc =? "LABEL" then
    shlex_splits <- _shlex_split (value insndesc) ;;
    match shlex_splits with
    | [] => Raise IndexError                       (* shlex_splits[0] *)
    | first :: _ =>
        if negb (contains EQUALS first)
        then set_key_val (split_ws1 (remove_quotes (value insndesc))) labels
        else labels_tokens shlex_splits labels
    end
  else Ok labels.

Fixpoint labels_loop (insns : list Instruction) (labels : dict) : result dict :=
  match insns with
  | [] => Ok labels
  | insndesc :: rest =>
      labels' <- labels_insn insndesc labels ;;
      labels_loop rest labels'
  end.

Definition labels (self : DockerfileParser) : result dict :=
  insns <- structure self ;; labels_loop insns [].

(* ================================================================== *)
(** ** The editor: methods that rewrite the file *)

(** A method that may write: it returns or raises, and leaves the
    parser (the file and the log of writes) in a new state. *)
Definition M (A : Type) : Type := DockerfileParser -> result A * DockerfileParser.

Definition ret {A} (a : A) : M A := fun self => (Ok a, self).

Definition raise {A} (e : exn) : M A := fun self => (Raise e, self).

Definition bind {A B} (m : M A) (f : A -> M B) : M B :=
  fun self =>
    match m self with
    | (Ok a, self') => f a self'
    | (Raise e, self') => (Raise e, self')
    end.

(** Reading a property. *)
Definition read {A} (getter : DockerfileParser -> result A) : M A :=
  fun self => (getter self, self).

(** A computation that does not touch the parser. *)
Definition lift {A} (r : result A) : M A := fun self => (r, self).

(** [self.lines = ls] *)
Definition write (ls : list string) : M unit :=
  fun self => (Ok tt, set_lines ls self).

Notation "x <-- m ;;; k" := (bind m (fun x => k))
  (at level 61, m at next level, right associativity).
Notation "m ;;; k" := (bind m (fun _ => k))
  (at level 61, right associativity).

Fixpoint for_each {A} (f : A -> M unit) (l : list A) : M unit :=
  match l with
  | [] => ret tt
  | a :: r => f a ;;; for_each f r
  end.

(** [del lines[startline:endline + 1]] then
    [lines.insert(startline, new_line)]. *)
Definition splice (start stop : nat) (new_line : string) (ls : list string)
  : list string :=
  insert start new_line (del_slice start (S stop) ls).

(** *** [_modify_instruction_label] *)

(** The variables [content], [startline] and [endline], assigned
    together: [None] before the first assignment. *)
Definition selection : Type := option (string * nat * nat).

(** [l.index(x)] *)
Fixpoint index (x : string) (l : list string) : option nat :=
  match l with
  | [] => None
  | y :: r => if y =? x then Some 0 else option_map S (index x r)
  end.

(** [l[n] = x] for an index within the list. *)
Fixpoint list_set (n : nat) (x : string) (l : list string) : list string :=
  match l, n with
  | [], _ => []
  | _ :: r, 0 => x :: r
  | y :: r, S n' => y :: list_set n' x r
  end.

(** The branch [LABEL name value] for one candidate.  The boolean says
    whether the loop over the candidates is left by [break]. *)
Definition select_legacy (label_key label_value : string) (candidate : Instruction)
    (sel : selection) : result (bool * selection) :=
  match split_ws1 (remove_quotes (value candidate)) with
  | [] => Raise IndexError                            (* words[0] *)
  | w0 :: rest =>
      if w0 =? label_key then
        match rest with
        | [] => Raise IndexError                      (* words[1] = label_value *)
        | _ :: rest' =>
            let words := w0 :: label_value :: rest' in
            Ok (true, Some (join " " ("LABEL" :: words) ++ nl,
                            startline candidate, endline candidate))
        end
      else Ok (false, sel)
  end.

(** The branch [LABEL "name"="value"] for one candidate: the loop
    [for token in splits].  Its [break] leaves this loop only. *)
Fixpoint select_tokens (label_key label_value : string) (candidate : Instruction)
    (splits tokens : list string) (sel : selection) : result selection :=
  match tokens with
  | [] => Ok sel
  | token :: rest =>
      match split_char1 EQUALS token with
      | [] => Raise IndexError                        (* words[0] *)
      | w0 :: wrest =>
          if w0 =? label_key then
            match wrest with
            | [] => Raise IndexError                  (* words[1] = label_value *)
            | _ :: wrest' =>
                let words := w0 :: label_value :: wrest' in
                match index token splits with
                | None => Raise ValueError
                | Some n =>
                    let splits' := list_set n (join "=" (map Shlex.quote words)) splits in
                    Ok (Some (join " " ("LABEL" :: splits') ++ nl,
                              startline candidate, endline candidate))
                end
            end
          else select_tokens label_key label_value candidate splits rest sel
      end
  end.

(** The loop over the LABEL instructions. *)
Fixpoint select_label (label_key label_value : string) (candidates : list Instruction)
    (sel : selection) : result selection :=
  match candidates with
  | [] => Ok sel
  | candidate :: rest =>
      splits <- _shlex_split (value candidate) ;;
      match splits with
      | [] => Raise IndexError                        (* splits[0] *)
      | first :: _ =>
          if negb (contains EQUALS first) then
            r <- select_legacy label_key label_value candidate sel ;;
            (if fst r then Ok (snd r)
             else select_label label_key label_value rest (snd r))
          else
            sel' <- select_tokens label_key label_value candidate splits splits sel ;;
            select_label label_key label_value rest sel'
      end
  end.

Definition is_label (insn : Instruction) : bool := instruction insn =? "LABEL".

(** [assert content and startline and endline] *)
Definition selection_holds (sel : selection) : bool :=
  match sel with
  | Some (content, startline, endline) =>
      truthy content && negb (startline =? 0)%nat && negb (endline =? 0)%nat
  | None => false
  end.

Definition _modify_instruction_label (label_key label_value : string) : M unit :=
  lbls <-- read labels ;;;
  if negb (dict_mem label_key lbls) then raise KeyError
  else
    insns <-- read structure ;;;
    sel <-- lift (select_label label_key label_value (filter is_label insns) None) ;;;
    match sel with
    | Some (content, startline, endline) =>
        if selection_holds sel then
          ls <-- read lines ;;;
          write (splice startline endline content ls)
        else raise AssertionError
    | None => raise AssertionError
    end.

(** *** [_modify_instruction] *)

(** [filter and v != filter]: the instruction is passed over. *)
Definition passed_over (filter : option string) (v : string) : bool :=
  match filter with
  | Some f => truthy f && negb (v =? f)
  | None => false
  end.

(** The loop [for insn in self.structure]: the list is the one
    computed when the loop is entered. *)
Fixpoint modify_loop (name new_value : string) (old_value : option string)
    (insns : list Instruction) : M unit :=
  match insns with
  | [] => ret tt
  | insn :: rest =>
      if instruction insn =? name then
        if passed_over old_value (value insn)
        then modify_loop name new_value old_value rest
        else
          let new_line := name ++ " " ++ new_value ++ nl in
          ls <-- read lines ;;;
          write (splice (startline insn) (endline insn) new_line ls) ;;;
          modify_loop name new_value old_value rest
      else modify_loop name new_value old_value rest
  end.

Definition _modify_instruction (name new_value : string) (old_value : option string)
  : M unit :=
  if name =? "LABEL" then raise ValueError
  else
    insns <-- read structure ;;;
    modify_loop name new_value old_value insns.

(** The setters of [baseimage] and [cmd]. *)
Definition set_baseimage (v : string) : M unit := _modify_instruction "FROM" v None.
Definition set_cmd (v : string) : M unit := _modify_instruction "CMD" v None.

(** *** [_delete_instructions] *)

(** The loop [for insn in reversed(self.structure)] on the local list
    [lines] and the flag [deleted]. *)
Fixpoint delete_loop (name : string) (filter : option string)
    (insns : list Instruction) (acc : list string * bool) : list string * bool :=
  match insns with
  | [] => acc
  | insn :: rest =>
      if instruction insn =? name then
        if passed_over filter (value insn)
        then delete_loop name filter rest acc
        else delete_loop name filter rest
               (del_slice (startline insn) (S (endline insn)) (fst acc), true)
      else delete_loop name filter rest acc
  end.

Definition _delete_instructions (name : string) (filter : option string) : M unit :=
  ls <-- read lines ;;;
  insns <-- read structure ;;;
  let (ls', deleted) := delete_loop name filter (rev insns) (ls, false) in
  if deleted then write ls' else ret tt.

(** *** [_add_instruction] *)

(** The [value] argument: the pair [(key, value)] that the [labels]
    setter passes, or text. *)
Inductive add_value : Type :=
| Pair (k v : string)
| Text (s : string).

Definition hex_digit (n : nat) : ascii :=
  if (n <? 10)%nat then ascii_of_nat (48 + n) else ascii_of_nat (87 + n).

(** [repr(s)] of a string, on code points below 128. *)
Definition repr_char (q c : ascii) : string :=
  let n := nat_of_ascii c in
  if Ascii.eqb c q || Ascii.eqb c BACKSLASH then String BACKSLASH (String c EmptyString)
  else if (n =? 9)%nat then bs ++ "t"
  else if (n =? 10)%nat then bs ++ "n"
  else if (n =? 13)%nat then bs ++ "r"
  else if (n <? 32)%nat || (n =? 127)%nat
       then bs ++ "x" ++ String (hex_digit (n / 16)) (String (hex_digit (n mod 16)) EmptyString)
  else String c EmptyString.

Fixpoint repr_body (q : ascii) (s : string) : string :=
  match s with
  | EmptyString => EmptyString
  | String c s' => repr_char q c ++ repr_body q s'
  end.

Definition repr (s : string) : string :=
  let q := if contains SQUOTE s && negb (contains DQUOTE s) then DQUOTE else SQUOTE in
  String q (repr_body q s) ++ String q EmptyString.

(** [str(value)] as [format] inserts it. *)
Definition str_of (v : add_value) : string :=
  match v with
  | Pair k v => "(" ++ repr k ++ ", " ++ repr v ++ ")"
  | Text s => s
  end.

(** [value[0]] and [value[1]] when [len(value) == 2]. *)
Definition two_items (v : add_value) : option (string * string) :=
  match v with
  | Pair k v => Some (k, v)
  | Text (String a (String b EmptyString)) =>
      Some (String a EmptyString, String b EmptyString)
  | Text _ => None
  end.

Definition new_line_of (name : string) (v : add_value) : string :=
  match (if name =? "LABEL" then two_items v else None) with
  | Some (a, b) => name ++ " " ++ dq ++ a ++ dq ++ "=" ++ dq ++ b ++ dq ++ nl
  | None => name ++ " " ++ str_of v ++ nl
  end.

(** [lines += new_line] extends the list by the characters of the
    line, one element each. *)
Definition _add_instruction (name : string) (v : add_value) : M unit :=
  let new_line := new_line_of name v in
  if truthy new_line then
    ls <-- read lines ;;;
    write (ls ++ chars new_line)%list
  else ret tt.

(** *** The [labels] setter and [change_labels] *)

(** The argument of the two methods: a dict, or something else. *)
Inductive pyobj : Type :=
| PyNone
| PyStr (s : string)
| PyList (l : list (string * string))
| PyDict (items : dict).

(** [isinstance(labels, dict)] *)
Definition is_dict (o : pyobj) : bool :=
  match o with PyDict _ => true | _ => false end.

Definition set_labels (labels : pyobj) : M unit :=
  match labels with
  | PyDict items =>
      _delete_instructions "LABEL" None ;;;
      for_each (fun kv => _add_instruction "LABEL" (Pair (fst kv) (snd kv))) items
  | _ => raise TypeError
  end.

Definition change_labels (labels : pyobj) : M unit :=
  match labels with
  | PyDict items =>
      for_each (fun kv => _modify_instruction_label (fst kv) (snd kv)) items
  | _ => raise TypeError
  end.

(** The parser on a file with the given text, nothing written yet. *)
Definition parser_of (text : string) : DockerfileParser :=
  {| dockerfile := Some text; written := [] |}.

(* ================================================================== *)
(** ** The specification's wording, as definitions to compare with *)

Module Spec.

(** The test that the loops of [_modify_instruction] and
    [_delete_instructions] make on an instruction (lemma
    [matches_passed_over]): the name, and the value when the filter is
    a non-empty string.  The methods test the filter by its truth
    value, so the empty string as a filter is no filter. *)
Definition matches (name : string) (filter : option string) (insn : Instruction)
  : bool :=
  (instruction insn =? name)
  && match filter with
     | Some f => if truthy f then value insn =? f else true
     | None => true
     end.

(** "Matching the given name (and, when a value filter is given, whose
    value equals it)", as it is written: a filter that is given is
    compared with the value, the empty string as any other. *)
Definition matches_given (name : string) (filter : option string) (insn : Instruction)
  : bool :=
  (instruction insn =? name)
  && match filter with
     | Some f => value insn =? f
     | None => true
     end.

(** Line [i] lies in the span of one of the instructions. *)
Definition covered (insns : list Instruction) (i : nat) : bool :=
  existsb (fun insn => (startline insn <=? i)%nat && (i <=? endline insn)%nat) insns.

(** The lines, numbered from [i], that [dropped] does not take. *)
Fixpoint keep_lines (dropped : nat -> bool) (i : nat) (ls : list string)
  : list string :=
  match ls with
  | [] => []
  | l :: r =>
      if dropped i then keep_lines dropped (S i) r
      else l :: keep_lines dropped (S i) r
  end.

(** "Remove the line span of every matching instruction". *)
Definition without_spans (insns : list Instruction) (ls : list string) : list string :=
  keep_lines (covered insns) 0 ls.

(** The legacy form: "quote characters are stripped from the whole
    value text first, then the remainder is split once on the first run
    of whitespace into (key, rest-of-value); value defaults to empty
    string if no remainder".  White space that the removed quotes leave
    in front is skipped first, as [split] does; there is no pair when
    no key is left. *)
Definition legacy_pair (v : string) : option (string * string) :=
  match lstrip (remove_quotes v) with
  | EmptyString => None
  | t => let (k, r) := span (fun c => negb (is_space c)) t in Some (k, lstrip r)
  end.

(** The key=value form: "each shell-token is split once on the first
    [=]; value defaults to empty string". *)
Definition token_pair (token : string) : string * string :=
  let (k, r) := span (fun c => negb (Ascii.eqb c EQUALS)) token in
  (k, match r with EmptyString => EmptyString | String _ v => v end).

(** The pairs of one LABEL instruction, the syntax "detected" by whether
    "the first shell-token contains" an equals sign. *)
Definition label_pairs (insn : Instruction) : result (list (string * string)) :=
  tokens <- Shlex.split (value insn) ;;
  match tokens with
  | [] => Raise IndexError
  | first :: _ =>
      if contains EQUALS first then Ok (map token_pair tokens)
      else match legacy_pair (value insn) with
           | Some kv => Ok [kv]
           | None => Raise IndexError
           end
  end.

(** The pairs of all LABEL instructions, in file order. *)
Fixpoint all_label_pairs (insns : list Instruction) : result (list (string * string)) :=
  match insns with
  | [] => Ok []
  | insn :: rest =>
      if is_label insn then
        ps <- label_pairs insn ;;
        qs <- all_label_pairs rest ;;
        Ok (ps ++ qs)%list
      else all_label_pairs rest
  end.

(** "Later label instructions overwrite earlier keys": the value of the
    last pair with key [k]. *)
Fixpoint last_binding (k : string) (pairs : list (string * string)) : option string :=
  match pairs with
  | [] => None
  | (k', v) :: r =>
      match last_binding k r with
      | Some v' => Some v'
      | None => if k' =? k then Some v else None
      end
  end.

(** The mapping that the pairs build when they are set one after the
    other, as "later entries overwriting earlier ones" describes. *)
Definition set_all (pairs : list (string * string)) (d : dict) : dict :=
  fold_left (fun d kv => dict_set (fst kv) (snd kv) d) pairs d.

(** "The first LABEL instruction containing the key". *)
Definition defines_key (key : string) (insn : Instruction) : bool :=
  is_label insn
  && match label_pairs insn with
     | Ok ps => existsb (fun kv => fst kv =? key) ps
     | Raise _ => false
     end.

Definition first_label_with (key : string) (insns : list Instruction)
  : option Instruction :=
  find (defines_key key) insns.

End Spec.

(* ================================================================== *)
(** ** Sample files *)

(** A RUN instruction continued on an indented second line. *)
Definition two_line_run : list string := ["RUN a " ++ bs ++ nl; "    b" ++ nl].

(** A file with two CMD instructions, the first of them on two lines. *)
Definition two_cmds : list string :=
  ["CMD a " ++ bs ++ nl; " b" ++ nl; "RUN x" ++ nl; "CMD c" ++ nl].

(** A file in which two LABEL instructions define the key [a], in the
    key=value syntax and in the legacy syntax. *)
Definition two_labels_kv : list string :=
  ["FROM x" ++ nl; "LABEL a=1" ++ nl; "LABEL a=2" ++ nl].

Definition two_labels_legacy : list string :=
  ["FROM x" ++ nl; "LABEL a 1" ++ nl; "LABEL a 2" ++ nl].

(** A file that starts with a LABEL instruction defining [a], which a
    later LABEL instruction defines again. *)
Definition label_on_top_twice : list string :=
  ["LABEL a=1" ++ nl; "LABEL a=2" ++ nl].

(** A file that starts with its only LABEL instruction. *)
Definition label_on_top : list string :=
  ["LABEL a=1" ++ nl; "FROM x" ++ nl].

(** [label_on_top_twice] in the legacy syntax. *)
Definition label_on_top_twice_legacy : list string :=
  ["LABEL a 1" ++ nl; "LABEL a 2" ++ nl].

(** A file whose CMD instruction has a value that is not empty. *)
Definition from_and_cmd : list string :=
  ["FROM x" ++ nl; "CMD a" ++ nl].


(* ================================================================== *)
(** ** The two patterns in closed form *)

(** What [insnre] amounts to: the classes of white space and of word
    characters are disjoint, so each run is the longest one, and [$]
    holds after the longest [.*] or not at all. *)
Definition insnre_direct (line : string) : option (list string) :=
  let (kw, s2) := span is_word (lstrip line) in
  if truthy kw then
    let (ws, s3) := span is_space s2 in
    if truthy ws then
      let (rest, tail) := span is_dot s3 in
      if Re.at_end tail then Some [kw; rest] else None
    else None
  else None.

(** What [contre] amounts to: some backslash, with no newline before
    it, is followed by white space only up to the end of the line. *)
Fixpoint contre_direct (line : string) : bool :=
  match line with
  | EmptyString => false
  | String c s' =>
      (Ascii.eqb c BACKSLASH && str_all is_space s')
      || (is_dot c && contre_direct s')
  end.

(* ================================================================== *)
(** ** Invariants of the scan *)

(** The instructions follow one another: each span is non-empty, starts
    at [lo] or later and ends before the next one starts. *)
Fixpoint ordered (lo : nat) (insns : list Instruction) : Prop :=
  match insns with
  | [] => True
  | i :: r => lo <= startline i /\ startline i <= endline i /\ ordered (S (endline i)) r
  end.

(** Ordered from [lo] on, and every span ends before line [hi]. *)
Definition ordered_in (lo hi : nat) (insns : list Instruction) : Prop :=
  ordered lo insns /\ Forall (fun i => endline i < hi) insns.

(** The state of the scan before line [n] is read: in a continuation
    the current instruction ends on line [n - 1] and comes after all
    the instructions appended so far. *)
Definition scan_inv (n : nat) (st : scan_state) : Prop :=
  if in_continuation st then
    exists ci, current_instruction st = Some ci
               /\ startline ci <= endline ci /\ S (endline ci) = n
               /\ ordered_in 0 (startline ci) (instructions st)
  else ordered_in 0 n (instructions st).

(** Line [j] lies in the span from [s] to [e]. *)
Definition in_span (s e j : nat) : bool := ((s <=? j) && (j <=? e))%nat.

(* ================================================================== *)
(** ** Further definitions: renumbering, lines of a file, the content *)

(** The instruction with its line numbers moved down the file by [n]
    lines. *)
Definition shift (n : nat) (i : Instruction) : Instruction :=
  {| instruction := instruction i;
     startline := n + startline i;
     endline := n + endline i;
     content := content i;
     value := value i |}.

(** What an instruction says, apart from where it stands. *)
Definition fields (i : Instruction) : string * string * string :=
  (instruction i, value i, content i).

(** The lines [s] to [e] of [ls], both included. *)
Definition span_lines (s e : nat) (ls : list string) : list string :=
  firstn (S e - s) (skipn s ls).

(** A line that ends in its only newline. *)
Definition full_line (l : string) : Prop :=
  exists b, l = b ++ nl /\ contains NL b = false.

(** A last line without a newline. *)
Definition partial_line (l : string) : Prop :=
  l <> EmptyString /\ contains NL l = false.

(** The lines of a text: all full, but for the last one, which may lack
    its newline. *)
Fixpoint text_lines (ls : list string) : Prop :=
  match ls with
  | [] => True
  | [l] => full_line l \/ partial_line l
  | l :: r => full_line l /\ text_lines r
  end.

(** The [content] property (its getter), on a text that holds no
    carriage return. *)
Definition content_of (self : DockerfileParser) : result string :=
  match dockerfile self with
  | Some text => Ok text
  | None => Raise IOError
  end.

(** A state of the scan between two instructions, as far as the rest of
    the scan can tell: the instructions appended and no continuation. *)
Definition closed_with (insns : list Instruction) (st : scan_state) : Prop :=
  instructions st = insns /\ in_continuation st = false.

(** [st1] is what [st0] becomes when the scan starts [n] lines down the
    file, after the instructions [base]. *)
Definition follows (n : nat) (base : list Instruction) (st1 st0 : scan_state) : Prop :=
  instructions st1 = (base ++ map (shift n) (instructions st0))%list
  /\ in_continuation st1 = in_continuation st0
  /\ (in_continuation st0 = true ->
      exists ci, current_instruction st0 = Some ci
                 /\ current_instruction st1 = Some (shift n ci)).

(** Every instruction of [insns] is cut out of [ls] by the scan: the
    scan of the lines before it ends between two instructions, with the
    instructions before it, and so does the scan of the lines up to its
    last one, with the instruction added. *)
Definition cuts (ls : list string) (insns : list Instruction) : Prop :=
  forall A x B,
    insns = (A ++ x :: B)%list ->
    closed_with A (scan 0 (firstn (startline x) ls) scan_init)
    /\ closed_with (A ++ [x]) (scan 0 (firstn (S (endline x)) ls) scan_init).

(** A value that a line carries as it is: no newline, no white space
    at either end, no backslash at the end. *)
Definition clean_value (v : string) : Prop :=
  contains NL v = false /\ lstrip v = v /\ rstrip v = v
  /\ endswith BACKSLASH v = false.

(** No instruction of the list has the name. *)
Definition none_named (name : string) (insns : list Instruction) : Prop :=
  Forall (fun i => (instruction i =? name) = false) insns.

(** Text that stands between double quotes as it is: no double quote,
    no backslash, no newline. *)
Definition plain (s : string) : Prop :=
  contains DQUOTE s = false /\ contains BACKSLASH s = false /\ contains NL s = false.

(** A key of that kind that does not hold an equals sign either. *)
Definition plain_key (k : string) : Prop :=
  plain k /\ contains EQUALS k = false.

(** The value of the instruction that [_add_instruction] writes for a
    label: the key and the value, each between double quotes, with an
    equals sign between them. *)
Definition label_text (k v : string) : string :=
  dq ++ k ++ dq ++ "=" ++ dq ++ v ++ dq.

(** A file to which a line can be appended as an instruction of its
    own: it exists, its last line (if any) ends in a newline, and its
    scan does not end in a continuation. *)
Definition appendable (self : DockerfileParser) : Prop :=
  exists text,
    dockerfile self = Some text
    /\ Forall full_line (readlines text)
    /\ in_continuation (scan 0 (readlines text) scan_init) = false.

(** A line whose newlines, if any, stand in the white space at its
    end. *)
Definition line_ok (l : string) : Prop := contains NL (rstrip l) = false.

(** What the scan keeps true of a value: no white space at its start,
    and no newline when the lines read so far are as above. *)
Definition value_ok (ls : list string) (i : Instruction) : Prop :=
  lstrip (value i) = value i
  /\ (Forall line_ok ls -> contains NL (value i) = false).

(** The carriage return.  Reading in text mode ends a line at a
    carriage return, alone or before a newline, and hands it over as a
    newline; [readlines] and [content_of] are what the code reads on
    text that holds none. *)
Definition CR : ascii := "013"%char.

Definition no_cr (s : string) : Prop := contains CR s = false.

(** Text of code points below 128, on which the character classes and
    [upper] are those of Python 3. *)
Definition ascii_only (s : string) : Prop :=
  str_all (fun c => (nat_of_ascii c <? 128)%nat) s = true.

(** Text on which the model reads what the code reads: code points
    below 128 and no carriage return. *)
Definition ascii_text (s : string) : Prop := ascii_only s /\ no_cr s.

(** The strings of a value given to [_add_instruction] are such text. *)
Definition ascii_value (v : add_value) : Prop :=
  match v with
  | Pair k w => ascii_text k /\ ascii_text w
  | Text s => ascii_text s
  end.
(* ================================================================== *)
(** ** Unit checks of the embedding *)

(** The example of the docstring of [structure]; the second value keeps
    the indentation of the continuation line. *)
Example structure_docstring :
  structure_of ["From fedora" ++ nl;
                "CMD yum -y update && " ++ bs ++ nl;
                "    yum clean all" ++ nl]
  = [ {| instruction := "FROM"; startline := 0; endline := 0;
         content := "From fedora" ++ nl; value := "fedora" |};
      {| instruction := "CMD"; startline := 1; endline := 2;
         content := "CMD yum -y update && " ++ bs ++ nl ++ "    yum clean all" ++ nl;
         value := "yum -y update &&     yum clean all" |} ].
Proof. vm_compute. reflexivity. Qed.

Example structure_skips_comments :
  structure_of ["# comment" ++ nl; nl; " # run x " ++ bs ++ nl; "USER me" ++ nl]
  = [ {| instruction := "USER"; startline := 3; endline := 3;
         content := "USER me" ++ nl; value := "me" |} ].
Proof. vm_compute. reflexivity. Qed.

Example structure_value_on_next_line :
  map value (structure_of [" From  " ++ bs ++ nl; "   base" ++ nl]) = ["base"].
Proof. vm_compute. reflexivity. Qed.

Example insnre_groups :
  insnre_match (" label  foo  " ++ bs ++ nl) = Some ["label"; "foo  " ++ bs].
Proof. vm_compute. reflexivity. Qed.

Example insnre_keyword_alone :
  insnre_match ("RUN" ++ nl) = Some ["RUN"; EmptyString].
Proof. vm_compute. reflexivity. Qed.

Example insnre_comment : insnre_match ("# comment " ++ bs ++ nl) = None.
Proof. vm_compute. reflexivity. Qed.

Example contre_blank_after_backslash : contre_match ("RUN a " ++ bs ++ " " ++ nl) = true.
Proof. vm_compute. reflexivity. Qed.

Example contre_no_backslash : contre_match ("RUN a" ++ nl) = false.
Proof. vm_compute. reflexivity. Qed.

Example shlex_split_quotes :
  Shlex.split ("a=1 " ++ dq ++ "b c" ++ dq ++ "=d  e" ++ bs ++ " f 'g h'")
  = Ok ["a=1"; "b c=d"; "e f"; "g h"].
Proof. vm_compute. reflexivity. Qed.

Example shlex_split_unclosed :
  Shlex.split ("a " ++ dq ++ "b") = Raise ValueError.
Proof. vm_compute. reflexivity. Qed.

Example shlex_quote_space : Shlex.quote "b c" = "'b c'".
Proof. vm_compute. reflexivity. Qed.

Example readlines_keeps_ends :
  readlines ("a" ++ nl ++ nl ++ "b") = ["a" ++ nl; nl; "b"].
Proof. vm_compute. reflexivity. Qed.

Example labels_both_syntaxes :
  labels (parser_of ("LABEL a=1 b" ++ nl ++ "LABEL 'x' y  z " ++ nl ++ "LABEL a=3" ++ nl))
  = Ok [("a", "3"); ("b", EmptyString); ("x", "y  z")].
Proof. vm_compute. reflexivity. Qed.

Example set_label_same_line :
  fst (_modify_instruction_label "b" "2 3"
         (parser_of ("FROM x" ++ nl ++ "LABEL a=1 b=2" ++ nl))) = Ok tt
  /\ dockerfile (snd (_modify_instruction_label "b" "2 3"
         (parser_of ("FROM x" ++ nl ++ "LABEL a=1 b=2" ++ nl))))
     = Some ("FROM x" ++ nl ++ "LABEL a=1 b='2 3'" ++ nl).
Proof. vm_compute. split; reflexivity. Qed.

(* ================================================================== *)
(** ** Properties of the structurer on given lines *)

(** The instruction that the structurer builds from the two lines of
    C1, a continued RUN, does not have the value [a b]. *)
Lemma C1_value_is_not_a_b :
  ~ (exists insn, structure_of two_line_run = [insn] /\ value insn = "a b").
Proof.
  intros [insn [Hs Hv]].
  vm_compute in Hs. injection Hs as <-. vm_compute in Hv. discriminate Hv.
Qed.

(** C1: what the code returns on the two lines.  The structurer turns
    them into one RUN instruction on lines 0 to 1 whose value is [a],
    five blanks, [b], where the claim has [a b]: the backslash and the
    line ends are removed and the blank after [a] is kept, but so is
    the indentation of the second line, which is trimmed only when the
    value accumulated so far is empty.  The docstring of [structure]
    gives the value with one blank for a CMD of the same two-line
    shape ([structure_docstring] is what the code returns there). *)
Theorem C1_two_line_continuation :
  structure_of two_line_run
  = [ {| instruction := "RUN"; startline := 0; endline := 1;
         content := "RUN a " ++ bs ++ nl ++ "    b" ++ nl;
         value := "a     b" |} ].
Proof. vm_compute. reflexivity. Qed.

(* ================================================================== *)
(** ** The editor on given files *)

(** C2: [_modify_instruction] takes the line numbers of every match
    from the one structure computed before the first edit.  On
    [two_cmds] the first splice shortens the file by a line, the second
    one then falls past its end: the second CMD keeps its old value and
    a new CMD line is appended, where replacing both instructions
    would give the lines [CMD z], [RUN x], [CMD z]. *)
Theorem C2_stale_line_numbers :
  let r := _modify_instruction "CMD" "z" None (parser_of (concat_lines two_cmds)) in
  fst r = Ok tt
  /\ option_map readlines (dockerfile (snd r))
     = Some ["CMD z" ++ nl; "RUN x" ++ nl; "CMD c" ++ nl; "CMD z" ++ nl]
  /\ option_map readlines (dockerfile (snd r))
     <> Some ["CMD z" ++ nl; "RUN x" ++ nl; "CMD z" ++ nl].
Proof. vm_compute. repeat split; try reflexivity. discriminate. Qed.

(** C4: in the key=value syntax the [break] leaves the loop over the
    tokens only, so the scan goes on and the last LABEL instruction
    with the key is the one rewritten; the first one is left as it
    was.  In the legacy syntax the first one is rewritten. *)
Theorem C4_key_value_rewrites_last :
  let kv := _modify_instruction_label "a" "9" (parser_of (concat_lines two_labels_kv)) in
  let legacy := _modify_instruction_label "a" "9" (parser_of (concat_lines two_labels_legacy)) in
  fst kv = Ok tt
  /\ option_map readlines (dockerfile (snd kv))
     = Some ["FROM x" ++ nl; "LABEL a=1" ++ nl; "LABEL a=9" ++ nl]
  /\ fst legacy = Ok tt
  /\ option_map readlines (dockerfile (snd legacy))
     = Some ["FROM x" ++ nl; "LABEL a 9" ++ nl; "LABEL a 2" ++ nl].
Proof. vm_compute. repeat split; reflexivity. Qed.

(** C10: the line [LABEL ] followed by a newline is an instruction
    with the empty value; its shell split is the empty list, and the
    [labels] getter raises [IndexError] on it. *)
Theorem C10_labels_not_total :
  map (fun i => (instruction i, value i)) (structure_of ["LABEL " ++ nl])
  = [("LABEL", EmptyString)]
  /\ _shlex_split EmptyString = Ok []
  /\ labels (parser_of ("LABEL " ++ nl)) = Raise IndexError.
Proof. vm_compute. repeat split; reflexivity. Qed.

(* ================================================================== *)
(** ** Rejections come before any write *)

(** C6: [_modify_instruction] on the name LABEL raises [ValueError]
    and the [labels] setter on an argument that is not a dict raises
    [TypeError]; in both cases the parser, file and log of writes, is
    left as it was. *)
Theorem C6_invalid_arguments :
  forall (self : DockerfileParser) (new_value : string) (old_value : option string)
         (arg : pyobj),
    is_dict arg = false ->
    _modify_instruction "LABEL" new_value old_value self = (Raise ValueError, self)
    /\ set_labels arg self = (Raise TypeError, self).
Proof.
  intros self new_value old_value arg Harg. split.
  - reflexivity.
  - destruct arg; try reflexivity. discriminate Harg.
Qed.

Lemma C6_invalid_arguments_witness :
  is_dict (PyList [("a", "1")]) = false
  /\ _modify_instruction "LABEL" "x" None (parser_of ("LABEL a=1" ++ nl))
     = (Raise ValueError, parser_of ("LABEL a=1" ++ nl))
  /\ set_labels (PyList [("a", "1")]) (parser_of ("LABEL a=1" ++ nl))
     = (Raise TypeError, parser_of ("LABEL a=1" ++ nl)).
Proof.
  split; [reflexivity|].
  apply (C6_invalid_arguments (parser_of ("LABEL a=1" ++ nl)) "x" None (PyList [("a", "1")])).
  reflexivity.
Defined.

(** C7: when the [labels] getter returns a mapping that lacks the key,
    [_modify_instruction_label] raises [KeyError] and leaves the
    parser, file and log of writes, as it was. *)
Theorem C7_missing_key :
  forall (self : DockerfileParser) (label_key label_value : string) (m : dict),
    labels self = Ok m ->
    dict_mem label_key m = false ->
    _modify_instruction_label label_key label_value self = (Raise KeyError, self).
Proof.
  intros self k v m Hm Hk.
  unfold _modify_instruction_label, bind, read.
  rewrite Hm, Hk. reflexivity.
Qed.

Lemma C7_missing_key_witness :
  labels (parser_of ("FROM x" ++ nl ++ "LABEL a=1" ++ nl)) = Ok [("a", "1")]
  /\ dict_mem "b" [("a", "1")] = false
  /\ _modify_instruction_label "b" "2" (parser_of ("FROM x" ++ nl ++ "LABEL a=1" ++ nl))
     = (Raise KeyError, parser_of ("FROM x" ++ nl ++ "LABEL a=1" ++ nl)).
Proof.
  split; [reflexivity|]. split; [reflexivity|].
  apply (C7_missing_key (parser_of ("FROM x" ++ nl ++ "LABEL a=1" ++ nl)) "b" "2" [("a", "1")]);
    reflexivity.
Defined.

(* ================================================================== *)
(** ** The two patterns: what the backtracking matcher computes *)

Section PatternFacts.

Import Re.

Lemma append_empty_r (s : string) : s ++ EmptyString = s.
Proof. induction s as [|c s IH]; simpl; [|rewrite IH]; reflexivity. Qed.

Lemma append_char_l (t : string) (c : ascii) (a : string) :
  (t ++ String c EmptyString) ++ a = t ++ String c a.
Proof. induction t as [|d t IH]; simpl; [|rewrite IH]; reflexivity. Qed.

Lemma length_append_le (t a : string) :
  String.length t <= String.length (t ++ a).
Proof. induction t as [|d t IH]; simpl; lia. Qed.

Lemma space_not_word (c : ascii) : is_space c = true -> is_word c = false.
Proof.
  destruct c as [[|] [|] [|] [|] [|] [|] [|] [|]]; vm_compute; congruence.
Qed.

Lemma word_not_space (c : ascii) : is_word c = true -> is_space c = false.
Proof.
  intros Hw. destruct (is_space c) eqn:Hs; [|reflexivity].
  rewrite (space_not_word c Hs) in Hw. discriminate Hw.
Qed.

Lemma not_dot_newline (c : ascii) : is_dot c = false -> c = NL.
Proof.
  unfold is_dot. destruct (Ascii.eqb_spec c NL); [auto | discriminate].
Qed.

Lemma span_snd_head (f : ascii -> bool) (s : string) :
  forall a c t, span f s = (a, String c t) -> f c = false.
Proof.
  induction s as [|d s IH]; intros a c t H; simpl in H; [discriminate H|].
  destruct (f d) eqn:Hd.
  - destruct (span f s) as [a' b'] eqn:Hs. injection H as _ Hb. subst b'.
    exact (IH _ _ _ eq_refl).
  - injection H as _ Hc _. subst c. exact Hd.
Qed.

Lemma span_space_lstrip (s : string) : snd (span is_space s) = lstrip s.
Proof.
  induction s as [|c s IH]; [reflexivity|]. simpl.
  destruct (is_space c); [|reflexivity].
  destruct (span is_space s). exact IH.
Qed.

Lemma str_all_span (f : ascii -> bool) (s : string) :
  str_all f s = match snd (span f s) with EmptyString => true | _ => false end.
Proof.
  induction s as [|c s IH]; [reflexivity|]. simpl.
  destruct (f c); [|reflexivity]. simpl.
  destruct (span f s). exact IH.
Qed.

Lemma truthy_length (s : string) : truthy s = (1 <=? String.length s)%nat.
Proof. destruct s; reflexivity. Qed.

(** When the rest of the pattern cannot start with a character of the
    class, the repetition takes the longest run or fails. *)
Lemma rep_longest (cls : ascii -> bool) (least : nat)
    (k : string -> string -> option (list string)) :
  (forall t c r, cls c = true -> k t (String c r) = None) ->
  forall s taken,
    rep cls least k taken s
    = let (a, b) := span cls s in stop least k (taken ++ a) b.
Proof.
  intros H. induction s as [|c s IH]; intros taken.
  - simpl. rewrite append_empty_r. reflexivity.
  - cbn [rep span]. destruct (cls c) eqn:Hc.
    + rewrite IH. destruct (span cls s) as [a b]. rewrite append_char_l.
      destruct (stop least k (taken ++ String c a) b); [reflexivity|].
      unfold stop. destruct (least <=? String.length taken)%nat; [|reflexivity].
      apply H, Hc.
    + rewrite append_empty_r. reflexivity.
Qed.

(** When the rest of the pattern, if it can match from a character of
    the class, can match one character later as well, and does not
    depend on what was taken for failing: the same. *)
Lemma rep_longest_first (cls : ascii -> bool) (least : nat)
    (k : string -> string -> option (list string)) :
  (forall t t' s, k t s <> None -> k t' s <> None) ->
  (forall t c r, cls c = true -> k t (String c r) <> None -> k t r <> None) ->
  forall s taken,
    rep cls least k taken s
    = let (a, b) := span cls s in stop least k (taken ++ a) b.
Proof.
  intros Hi Hm.
  assert (chain : forall s t t', k t s <> None -> k t' (snd (span cls s)) <> None).
  { induction s as [|c s IH]; intros t t' Hk.
    - exact (Hi _ _ _ Hk).
    - simpl. destruct (cls c) eqn:Hc.
      + destruct (span cls s) as [a b] eqn:Hs. simpl.
        apply (IH t t'). apply Hm with c; assumption.
      + exact (Hi _ _ _ Hk). }
  induction s as [|c s IH]; intros taken.
  - simpl. rewrite append_empty_r. reflexivity.
  - cbn [rep span]. destruct (cls c) eqn:Hc.
    + rewrite IH.
      pose proof (chain (String c s) taken) as Hch. simpl in Hch. rewrite Hc in Hch.
      destruct (span cls s) as [a b]. simpl in Hch. rewrite append_char_l.
      destruct (stop least k (taken ++ String c a) b) eqn:E; [reflexivity|].
      unfold stop in *.
      destruct (least <=? String.length taken)%nat eqn:Hl; [|reflexivity].
      replace (least <=? String.length (taken ++ String c a))%nat with true in E.
      * destruct (k taken (String c s)) eqn:Ek; [|reflexivity].
        exfalso. apply (Hch (taken ++ String c a)); [congruence | exact E].
      * symmetry. apply Nat.leb_le. apply Nat.leb_le in Hl.
        pose proof (length_append_le taken (String c a)). lia.
    + rewrite append_empty_r. reflexivity.
Qed.

Lemma after_rep_some (grouped : bool) (f : string -> option (list string)) :
  forall t t' s, after_rep grouped f t s <> None -> after_rep grouped f t' s <> None.
Proof.
  unfold after_rep. intros t t' s. destruct (f s); [discriminate | auto].
Qed.

(** The tail of [insnre]: [( .* ) $]. *)
Lemma run_dot_dollar (s : string) :
  run [Rep is_dot 0 true; Dollar] s
  = let (rest, tail) := span is_dot s in
    if at_end tail then Some [rest] else None.
Proof.
  cbn [run]. rewrite rep_longest.
  - destruct (span is_dot s) as [rest tail]. unfold stop, after_rep. simpl.
    destruct (at_end tail); reflexivity.
  - intros t c r Hc. unfold after_rep. unfold is_dot in Hc.
    replace (at_end (String c r)) with false; [reflexivity|].
    destruct r; simpl; [|reflexivity].
    destruct (Ascii.eqb c NL); [discriminate Hc | reflexivity].
Qed.

(** [\s+ ( .* ) $] *)
Lemma run_space_dot_dollar (s : string) :
  run [Rep is_space 1 false; Rep is_dot 0 true; Dollar] s
  = let (ws, s3) := span is_space s in
    if truthy ws then run [Rep is_dot 0 true; Dollar] s3 else None.
Proof.
  change (run [Rep is_space 1 false; Rep is_dot 0 true; Dollar] s)
    with (rep is_space 1 (after_rep false (run [Rep is_dot 0 true; Dollar]))
            EmptyString s).
  rewrite rep_longest_first.
  - destruct (span is_space s) as [ws s3]. unfold stop. simpl append.
    rewrite <- truthy_length. destruct (truthy ws); [|reflexivity].
    unfold after_rep. destruct (run [Rep is_dot 0 true; Dollar] s3); reflexivity.
  - apply after_rep_some.
  - intros t c r Hc. unfold after_rep. rewrite !run_dot_dollar. cbn [span].
    destruct (is_dot c) eqn:Hd.
    + destruct (span is_dot r) as [a b].
      destruct (at_end b); [intros _; discriminate | auto].
    + apply not_dot_newline in Hd. subst c.
      destruct r; simpl; [discriminate | intros H; exfalso; apply H; reflexivity].
Qed.

(** [(\w+) \s+ ( .* ) $] *)
Lemma run_word_space_dot_dollar (s : string) :
  run [Rep is_word 1 true; Rep is_space 1 false; Rep is_dot 0 true; Dollar] s
  = let (kw, s2) := span is_word s in
    if truthy kw
    then match run [Rep is_space 1 false; Rep is_dot 0 true; Dollar] s2 with
         | Some g => Some (kw :: g)
         | None => None
         end
    else None.
Proof.
  change (run [Rep is_word 1 true; Rep is_space 1 false; Rep is_dot 0 true; Dollar] s)
    with (rep is_word 1
            (after_rep true (run [Rep is_space 1 false; Rep is_dot 0 true; Dollar]))
            EmptyString s).
  rewrite rep_longest.
  - destruct (span is_word s) as [kw s2]. unfold stop. simpl append.
    rewrite <- truthy_length. reflexivity.
  - intros t c r Hc. unfold after_rep. rewrite run_space_dot_dollar. cbn [span].
    rewrite (word_not_space c Hc). reflexivity.
Qed.

(** [insnre.match] in closed form. *)
Lemma insnre_match_direct (line : string) : insnre_match line = insnre_direct line.
Proof.
  unfold insnre_match, insnre_direct, insnre.
  change (run [Rep is_space 0 false; Rep is_word 1 true; Rep is_space 1 false;
               Rep is_dot 0 true; Dollar] line)
    with (rep is_space 0
            (after_rep false
               (run [Rep is_word 1 true; Rep is_space 1 false; Rep is_dot 0 true; Dollar]))
            EmptyString line).
  rewrite rep_longest.
  - rewrite <- span_space_lstrip. destruct (span is_space line) as [ws s1].
    unfold stop, after_rep. cbn [Nat.leb snd]. rewrite run_word_space_dot_dollar.
    destruct (span is_word s1) as [kw s2]. destruct (truthy kw); [|reflexivity].
    rewrite run_space_dot_dollar. destruct (span is_space s2) as [ws2 s3].
    destruct (truthy ws2); [|reflexivity].
    rewrite run_dot_dollar. destruct (span is_dot s3) as [rest tail].
    destruct (at_end tail); reflexivity.
  - intros t c r Hc. unfold after_rep. rewrite run_word_space_dot_dollar. cbn [span].
    rewrite (space_not_word c Hc). reflexivity.
Qed.

(** A match of [insnre] has two groups. *)
Lemma insnre_match_groups (line : string) (groups : list string) :
  insnre_match line = Some groups -> exists kw rest, groups = [kw; rest].
Proof.
  rewrite insnre_match_direct. unfold insnre_direct.
  destruct (span is_word (lstrip line)) as [kw s2]. destruct (truthy kw); [|discriminate].
  destruct (span is_space s2) as [ws s3]. destruct (truthy ws); [|discriminate].
  destruct (span is_dot s3) as [rest tail]. destruct (at_end tail); [|discriminate].
  intros H. injection H as <-. exists kw, rest. reflexivity.
Qed.

(** The tail of [contre]: [\s* $]. *)
Lemma run_space_dollar (s : string) :
  run [Rep is_space 0 false; Dollar] s
  = if str_all is_space s then Some [] else None.
Proof.
  change (run [Rep is_space 0 false; Dollar] s)
    with (rep is_space 0 (after_rep false (run [Dollar])) EmptyString s).
  rewrite rep_longest_first.
  - rewrite str_all_span. destruct (span is_space s) as [ws t] eqn:Hs.
    unfold stop, after_rep. simpl.
    destruct t as [|c t]; [reflexivity|].
    pose proof (span_snd_head _ _ _ _ _ Hs) as Hc.
    destruct t; simpl; [|reflexivity].
    destruct (Ascii.eqb_spec c NL) as [->|]; [discriminate Hc | reflexivity].
  - apply after_rep_some.
  - intros t c r Hc. unfold after_rep. cbn [run].
    destruct r; simpl; [discriminate | intros H; exfalso; apply H; reflexivity].
Qed.

Lemma run_contre (s : string) :
  forall taken,
    rep is_dot 0
      (after_rep false (run [Lit BACKSLASH; Rep is_space 0 false; Dollar])) taken s
    = if contre_direct s then Some [] else None.
Proof.
  induction s as [|c s IH]; intros taken; [reflexivity|].
  cbn [rep contre_direct]. rewrite IH.
  assert (Hstop : stop 0 (after_rep false (run [Lit BACKSLASH; Rep is_space 0 false; Dollar]))
                    taken (String c s)
                  = if Ascii.eqb c BACKSLASH && str_all is_space s then Some [] else None).
  { unfold stop, after_rep. cbn [Nat.leb].
    change (run [Lit BACKSLASH; Rep is_space 0 false; Dollar] (String c s))
      with (if Ascii.eqb c BACKSLASH then run [Rep is_space 0 false; Dollar] s else None).
    destruct (Ascii.eqb c BACKSLASH); [|reflexivity].
    rewrite run_space_dollar. destruct (str_all is_space s); reflexivity. }
  rewrite Hstop.
  destruct (is_dot c) eqn:Hd.
  - destruct (contre_direct s); cbn [andb].
    + rewrite orb_true_r. reflexivity.
    + rewrite orb_false_r. reflexivity.
  - cbn [andb]. rewrite orb_false_r. reflexivity.
Qed.

(** [contre.match] in closed form. *)
Lemma contre_match_direct (line : string) : contre_match line = contre_direct line.
Proof.
  unfold contre_match, contre.
  change (run [Rep is_dot 0 false; Lit BACKSLASH; Rep is_space 0 false; Dollar] line)
    with (rep is_dot 0
            (after_rep false (run [Lit BACKSLASH; Rep is_space 0 false; Dollar]))
            EmptyString line).
  rewrite run_contre. destruct (contre_direct line); reflexivity.
Qed.

End PatternFacts.

(* ================================================================== *)
(** ** The scan: continuation test, invariants, dangling instruction *)

Section StringFacts.

Lemma str_all_space_rstrip (s : string) :
  str_all is_space s = match rstrip s with EmptyString => true | _ => false end.
Proof.
  induction s as [|c s IH]; simpl; [reflexivity|].
  rewrite IH. destruct (rstrip s); simpl.
  - destruct (is_space c); reflexivity.
  - apply andb_false_r.
Qed.

Lemma contre_direct_rstrip (s : string) :
  contre_direct s
  = endswith BACKSLASH (rstrip s) && negb (contains NL (rstrip s)).
Proof.
  induction s as [|c s IH]; [reflexivity|].
  change (contre_direct (String c s))
    with ((Ascii.eqb c BACKSLASH && str_all is_space s)
          || (is_dot c && contre_direct s)).
  change (rstrip (String c s))
    with (match rstrip s with
          | EmptyString => if is_space c then EmptyString else String c EmptyString
          | r => String c r
          end).
  rewrite str_all_space_rstrip, IH.
  destruct (rstrip s) as [|d r].
  - rewrite andb_false_r, orb_false_r, andb_true_r.
    destruct (is_space c) eqn:Hsp; cbn [endswith contains negb andb orb].
    + destruct (Ascii.eqb_spec c BACKSLASH) as [->|Hne];
        [discriminate Hsp | reflexivity].
    + destruct (Ascii.eqb_spec c BACKSLASH) as [->|Hne]; reflexivity.
  - assert (E1 : endswith BACKSLASH (String c (String d r))
                 = endswith BACKSLASH (String d r)) by reflexivity.
    assert (E2 : contains NL (String c (String d r))
                 = Ascii.eqb NL c || contains NL (String d r)) by reflexivity.
    rewrite E1, E2, andb_false_r. unfold is_dot. rewrite (Ascii.eqb_sym c NL).
    generalize (endswith BACKSLASH (String d r)), (contains NL (String d r)).
    intros b1 b2. destruct (Ascii.eqb NL c), b1, b2; reflexivity.
Qed.

(** [contre] matches a line exactly when the line, stripped of its
    trailing white space, ends in a backslash and holds no newline. *)
Lemma contre_match_rstrip (s : string) :
  contre_match s
  = endswith BACKSLASH (rstrip s) && negb (contains NL (rstrip s)).
Proof. rewrite contre_match_direct. apply contre_direct_rstrip. Qed.

(** What [rstrip] removes is white space, and it leaves none at the end. *)
Lemma rstrip_spec (s : string) :
  exists w, s = rstrip s ++ w /\ str_all is_space w = true
            /\ str_all is_space (rstrip s)
               = match rstrip s with EmptyString => true | _ => false end.
Proof.
  induction s as [|c s (w & Hs & Hw & Hr)].
  - exists EmptyString. repeat split.
  - change (rstrip (String c s))
      with (match rstrip s with
            | EmptyString => if is_space c then EmptyString else String c EmptyString
            | r => String c r
            end).
    destruct (rstrip s) as [|d r] eqn:E.
    + destruct (is_space c) eqn:Hc.
      * exists (String c w). simpl in Hs. subst s. simpl. rewrite Hc, Hw. auto.
      * exists w. simpl in Hs. subst s. simpl. rewrite Hc. auto.
    + exists w. rewrite Hs at 1. split; [reflexivity|]. split; [exact Hw|].
      change (str_all is_space (String c (String d r)))
        with (is_space c && str_all is_space (String d r)).
      rewrite Hr. apply andb_false_r.
Qed.

Lemma concat_readlines_aux (s : string) :
  forall cur, concat_lines (readlines_aux cur s) = cur ++ s.
Proof.
  induction s as [|c s IH]; intros cur.
  - destruct cur; simpl; [reflexivity|]. rewrite append_empty_r. reflexivity.
  - cbn [readlines_aux]. destruct (Ascii.eqb c NL).
    + unfold concat_lines in *.
      specialize (IH EmptyString). cbn [append] in IH.
      destruct (readlines_aux EmptyString s) as [|l r] eqn:E.
      * cbn [String.concat] in *. subst s. reflexivity.
      * change (String.concat EmptyString ((cur ++ String c EmptyString) :: l :: r))
          with ((cur ++ String c EmptyString) ++ String.concat EmptyString (l :: r)).
        rewrite IH. apply append_char_l.
    + rewrite IH. apply append_char_l.
Qed.

(** Read after write: the lines of a file are its text, cut. *)
Lemma concat_readlines (s : string) : concat_lines (readlines s) = s.
Proof. apply concat_readlines_aux. Qed.

End StringFacts.

Section ScanFacts.

Lemma scan_app (a b : list string) :
  forall n st, scan n (a ++ b) st = scan (n + length a) b (scan n a st).
Proof.
  induction a as [|l a IH]; intros n st; simpl.
  - rewrite Nat.add_0_r. reflexivity.
  - rewrite IH. f_equal. lia.
Qed.

Lemma ordered_weaken (insns : list Instruction) :
  forall lo lo', lo' <= lo -> ordered lo insns -> ordered lo' insns.
Proof.
  destruct insns as [|i r]; simpl; intros lo lo' Hle H; [exact I|].
  destruct H as (H1 & H2 & H3). repeat split; try assumption. lia.
Qed.

Lemma ordered_in_weaken (insns : list Instruction) (lo hi hi' : nat) :
  hi <= hi' -> ordered_in lo hi insns -> ordered_in lo hi' insns.
Proof.
  intros Hle [Ho Hb]. split; [exact Ho|].
  eapply Forall_impl; [|exact Hb]. simpl. intros i Hi. lia.
Qed.

(** Appending an instruction that starts where the others have ended. *)
Lemma ordered_in_snoc (insns : list Instruction) (ci : Instruction) (hi : nat) :
  forall lo,
    ordered_in lo (startline ci) insns ->
    lo <= startline ci -> startline ci <= endline ci -> endline ci < hi ->
    ordered_in lo hi (insns ++ [ci]).
Proof.
  induction insns as [|i r IH]; intros lo [Ho Hb] Hlo Hse Hhi.
  - split; simpl; auto.
  - simpl in Ho. destruct Ho as (H1 & H2 & H3).
    inversion Hb as [|? ? Hi Hr]; subst.
    destruct (IH (S (endline i))) as [Ho' Hb']; try assumption; try lia.
    + split; assumption.
    + split; simpl.
      * repeat split; assumption.
      * constructor; [lia | assumption].
Qed.

Lemma ordered_snoc_inv (insns : list Instruction) (x : Instruction) :
  forall lo,
    ordered lo (insns ++ [x]) ->
    ordered_in lo (startline x) insns /\ lo <= startline x /\ startline x <= endline x.
Proof.
  induction insns as [|i r IH]; intros lo H; simpl in H.
  - destruct H as (H1 & H2 & _).
    split; [split; [exact I | constructor] | split; assumption].
  - destruct H as (H1 & H2 & H3).
    destruct (IH _ H3) as ([Ho Hb] & Hlo & Hse).
    split; [split | split; [lia | assumption]].
    + simpl. repeat split; assumption.
    + constructor; [lia | assumption].
Qed.

Lemma scan_inv_init : scan_inv 0 scan_init.
Proof. split; simpl; auto. Qed.

Lemma close_line_inv (n : nat) (line : string) (st : scan_state) (ci : Instruction) :
  ordered_in 0 (startline ci) (instructions st) ->
  startline ci <= endline ci -> endline ci = n ->
  scan_inv (S n) (close_line line st ci).
Proof.
  intros Ho Hse He. unfold scan_inv, close_line. simpl.
  destruct (contre_match line).
  - exists ci. repeat split; try assumption; try lia; apply Ho.
  - apply ordered_in_snoc; try assumption; lia.
Qed.

Lemma scan_line_inv (n : nat) (line : string) (st : scan_state) :
  scan_inv n st -> scan_inv (S n) (scan_line n line st).
Proof.
  unfold scan_inv at 1, scan_line. intros H.
  destruct (in_continuation st) eqn:Hc.
  - destruct H as (ci & -> & Hse & Hn & Ho).
    apply close_line_inv; simpl; auto. lia.
  - destruct (insnre_match line) as [groups|].
    + apply close_line_inv; simpl; auto.
    + unfold scan_inv. rewrite Hc. eapply ordered_in_weaken; [|exact H]. lia.
Qed.

Lemma scan_inv_scan (ls : list string) :
  forall n st, scan_inv n st -> scan_inv (n + length ls) (scan n ls st).
Proof.
  induction ls as [|l ls IH]; intros n st H; simpl.
  - rewrite Nat.add_0_r. exact H.
  - replace (n + S (length ls)) with (S n + length ls) by lia.
    apply IH, scan_line_inv, H.
Qed.

(** In a continuation there is a current instruction: the case that
    [scan_line] leaves alone does not arise. *)
Lemma scan_current (ls : list string) :
  in_continuation (scan 0 ls scan_init) = true ->
  exists ci, current_instruction (scan 0 ls scan_init) = Some ci.
Proof.
  intros Hc. pose proof (scan_inv_scan ls 0 scan_init scan_inv_init) as H.
  unfold scan_inv in H. rewrite Hc in H.
  destruct H as (ci & Hci & _). exists ci. exact Hci.
Qed.

(** The instructions of a state that satisfies the invariant end
    before line [n], in order. *)
Lemma scan_inv_ordered (n : nat) (st : scan_state) :
  scan_inv n st -> ordered_in 0 n (instructions st).
Proof.
  unfold scan_inv. destruct (in_continuation st); [|auto].
  intros (ci & _ & Hse & Hn & Ho).
  eapply ordered_in_weaken; [|exact Ho]. lia.
Qed.

Lemma structure_of_ordered (ls : list string) :
  ordered_in 0 (length ls) (structure_of ls).
Proof.
  apply scan_inv_ordered.
  apply (scan_inv_scan ls 0 scan_init scan_inv_init).
Qed.

(** A line that continues appends nothing. *)
Lemma scan_line_continues (n : nat) (line : string) (st : scan_state) :
  contre_match line = true ->
  instructions (scan_line n line st) = instructions st.
Proof.
  intros Hc. unfold scan_line, close_line.
  destruct (in_continuation st).
  - destruct (current_instruction st); simpl; [rewrite Hc|]; reflexivity.
  - destruct (insnre_match line) as [groups|]; simpl; [rewrite Hc|]; reflexivity.
Qed.

(** A continuation line is appended to a non-empty value as it is but
    for its end: its indentation stays. *)
Lemma continuation_appended_verbatim (l1 l2 kw rest : string) :
  insnre_match l1 = Some [kw; rest] ->
  contre_match l1 = true ->
  contre_match l2 = false ->
  truthy (_rstrip_backslash rest) = true ->
  map value (structure_of [l1; l2])
  = [_rstrip_backslash rest ++ _rstrip_backslash l2].
Proof.
  intros Hm Hc1 Hc2 Hv.
  unfold structure_of. cbn [scan].
  unfold scan_line at 2. cbn [in_continuation scan_init]. rewrite Hm.
  unfold scan_line, close_line. rewrite Hc1. cbn [in_continuation current_instruction].
  rewrite Hc2. cbn [instructions scan_init app map nth].
  unfold continue_instruction, open_instruction. cbn [value].
  rewrite Hv. reflexivity.
Qed.

(** With nothing accumulated yet, the continuation line is stripped on
    the left. *)
Lemma continuation_after_empty_value (l1 l2 kw rest : string) :
  insnre_match l1 = Some [kw; rest] ->
  contre_match l1 = true ->
  contre_match l2 = false ->
  truthy (_rstrip_backslash rest) = false ->
  map value (structure_of [l1; l2]) = [_rstrip_backslash (lstrip l2)].
Proof.
  intros Hm Hc1 Hc2 Hv.
  unfold structure_of. cbn [scan].
  unfold scan_line at 2. cbn [in_continuation scan_init]. rewrite Hm.
  unfold scan_line, close_line. rewrite Hc1. cbn [in_continuation current_instruction].
  rewrite Hc2. cbn [instructions scan_init app map nth].
  unfold continue_instruction, open_instruction. cbn [value].
  rewrite Hv. reflexivity.
Qed.

End ScanFacts.

(** C3: when the last line, stripped of trailing white space, ends in a
    backslash (and, being a physical line, holds no newline before
    that), the structurer returns what it returns without that line,
    so nothing is appended for it; no instruction of the result reaches
    the last line; and if the scan ends in a continuation, the
    instruction it was accumulating ends on the last line and is not in
    the result.  No error is involved: [structure_of] is a total
    function. *)
Theorem C3_dangling_instruction_dropped :
  forall (init : list string) (last : string),
    endswith BACKSLASH (rstrip last) = true ->
    contains NL (rstrip last) = false ->
    let st := scan 0 (init ++ [last]) scan_init in
    structure_of (init ++ [last]) = structure_of init
    /\ Forall (fun i => endline i < length init) (structure_of (init ++ [last]))
    /\ (in_continuation st = true ->
        exists ci, current_instruction st = Some ci
                   /\ endline ci = length init
                   /\ ~ In ci (structure_of (init ++ [last]))).
Proof.
  intros init last Hbs Hnl st.
  assert (Hc : contre_match last = true).
  { rewrite contre_match_rstrip, Hbs, Hnl. reflexivity. }
  assert (Heq : structure_of (init ++ [last]) = structure_of init).
  { unfold structure_of. rewrite scan_app. simpl.
    apply scan_line_continues, Hc. }
  split; [exact Heq|]. split.
  - rewrite Heq. apply (structure_of_ordered init).
  - intros Hst.
    pose proof (scan_inv_scan (init ++ [last]) 0 scan_init scan_inv_init) as H.
    fold st in H. unfold scan_inv in H. rewrite Hst in H.
    destruct H as (ci & Hci & Hse & Hn & Ho & Hb).
    exists ci. rewrite length_app in Hn. simpl in Hn.
    repeat split; [exact Hci | lia |].
    intros Hin. unfold structure_of in Hin. fold st in Hin.
    rewrite Forall_forall in Hb. specialize (Hb ci Hin). lia.
Qed.

Lemma C3_dangling_instruction_dropped_witness :
  endswith BACKSLASH (rstrip ("RUN a " ++ bs ++ nl)) = true
  /\ contains NL (rstrip ("RUN a " ++ bs ++ nl)) = false
  /\ structure_of (["FROM x" ++ nl] ++ ["RUN a " ++ bs ++ nl])
     = structure_of ["FROM x" ++ nl].
Proof.
  split; [reflexivity|]. split; [reflexivity|].
  apply (C3_dangling_instruction_dropped ["FROM x" ++ nl] ("RUN a " ++ bs ++ nl));
    reflexivity.
Defined.

(* ================================================================== *)
(** ** Deleting instructions *)

Section DeleteFacts.

Import Spec.

Lemma keep_lines_ext (c c' : nat -> bool) (ls : list string) :
  forall i, (forall j, i <= j -> c j = c' j) ->
            keep_lines c i ls = keep_lines c' i ls.
Proof.
  induction ls as [|l r IH]; intros i H; simpl; [reflexivity|].
  rewrite <- (H i) by lia. rewrite (IH (S i)); [reflexivity|].
  intros j Hj. apply H. lia.
Qed.

Lemma keep_lines_none (c : nat -> bool) (ls : list string) :
  forall i, (forall j, i <= j -> c j = false) -> keep_lines c i ls = ls.
Proof.
  induction ls as [|l r IH]; intros i H; simpl; [reflexivity|].
  rewrite (H i) by lia. f_equal. apply IH. intros j Hj. apply H. lia.
Qed.

(** From line [s] on, where [c] takes nothing, the span [s..e] alone is
    dropped. *)
Lemma keep_lines_after (c : nat -> bool) (s e : nat) (ls : list string) :
  forall i, s <= i -> (forall j, s <= j -> c j = false) ->
            keep_lines (fun j => c j || in_span s e j) i ls = skipn (S e - i) ls.
Proof.
  induction ls as [|l r IH]; intros i Hi Hc.
  - rewrite skipn_nil. reflexivity.
  - simpl keep_lines. rewrite (Hc i Hi). unfold in_span at 1.
    replace (s <=? i)%nat with true by (symmetry; apply Nat.leb_le; exact Hi).
    simpl orb. simpl andb.
    destruct (Nat.leb_spec i e) as [Hle|Hgt].
    + rewrite (IH (S i)) by (auto; lia).
      replace (S e - i) with (S (S e - S i)) by lia. reflexivity.
    + rewrite (IH (S i)) by (auto; lia).
      replace (S e - i) with 0 by lia. replace (S e - S i) with 0 by lia.
      reflexivity.
Qed.

(** Dropping the span [s..e] from the numbered lines is deleting the
    slice first, when [c] takes nothing from line [s] on. *)
Lemma keep_lines_del (c : nat -> bool) (s e : nat) (ls : list string) :
  forall i, i <= s -> s <= e -> (forall j, s <= j -> c j = false) ->
            keep_lines (fun j => c j || in_span s e j) i ls
            = keep_lines c i (firstn (s - i) ls ++ skipn (S e - i) ls)%list.
Proof.
  induction ls as [|l r IH]; intros i Hi Hse Hc.
  - rewrite firstn_nil, skipn_nil. reflexivity.
  - destruct (Nat.eq_dec i s) as [->|Hne].
    + rewrite Nat.sub_diag. cbn [firstn app].
      rewrite keep_lines_after by auto.
      symmetry. apply keep_lines_none. exact Hc.
    + replace (s - i) with (S (s - S i)) by lia.
      replace (S e - i) with (S (S e - S i)) by lia.
      cbn [firstn skipn app keep_lines].
      unfold in_span at 1.
      replace (s <=? i)%nat with false by (symmetry; apply Nat.leb_gt; lia).
      cbn [andb]. rewrite orb_false_r.
      rewrite (IH (S i)) by (auto; lia).
      reflexivity.
Qed.

Lemma covered_snoc (insns : list Instruction) (x : Instruction) (j : nat) :
  covered (insns ++ [x]) j = covered insns j || in_span (startline x) (endline x) j.
Proof.
  unfold covered. rewrite existsb_app. simpl. rewrite orb_false_r. reflexivity.
Qed.

Lemma covered_below (insns : list Instruction) (s : nat) :
  Forall (fun i => endline i < s) insns ->
  forall j, s <= j -> covered insns j = false.
Proof.
  intros H j Hj. unfold covered.
  induction H as [|i r Hi Hr IH]; simpl; [reflexivity|].
  rewrite IH, orb_false_r.
  replace (j <=? endline i)%nat with false by (symmetry; apply Nat.leb_gt; lia).
  apply andb_false_r.
Qed.

Lemma Forall_filter {A} (P : A -> Prop) (f : A -> bool) (l : list A) :
  Forall P l -> Forall P (List.filter f l).
Proof.
  intros H. induction H as [|a r Ha Hr IH]; simpl; [constructor|].
  destruct (f a); [constructor|]; assumption.
Qed.

Lemma existsb_filter {A} (f : A -> bool) (l : list A) :
  existsb f l = match List.filter f l with [] => false | _ => true end.
Proof.
  induction l as [|a r IH]; simpl; [reflexivity|].
  destruct (f a); simpl; [reflexivity | exact IH].
Qed.

(** The test of the loops, in the words of the specification. *)
Lemma matches_passed_over (name : string) (only : option string) (insn : Instruction) :
  matches name only insn
  = (instruction insn =? name) && negb (passed_over only (value insn)).
Proof.
  unfold matches, passed_over. f_equal.
  destruct only as [f|]; [|reflexivity].
  destruct (truthy f); simpl; [rewrite negb_involutive|]; reflexivity.
Qed.

(** The loop over the reversed structure, on ordered instructions that
    lie within the lines: it leaves the lines without the spans of the
    matching instructions, and raises the flag when there is one. *)
Lemma delete_loop_spec (name : string) (only : option string) (insns : list Instruction) :
  forall (ls : list string) (d : bool) (lo : nat),
    ordered lo insns ->
    Forall (fun i => endline i < length ls) insns ->
    delete_loop name only (rev insns) (ls, d)
    = (without_spans (List.filter (matches name only) insns) ls,
       d || existsb (matches name only) insns).
Proof.
  induction insns as [|x l IH] using rev_ind; intros ls d lo Ho Hb.
  - simpl. unfold without_spans. rewrite keep_lines_none by reflexivity.
    rewrite orb_false_r. reflexivity.
  - rewrite rev_unit, filter_app, existsb_app. cbn [delete_loop List.filter existsb].
    destruct (ordered_snoc_inv _ _ _ Ho) as ([Hol Hbl] & Hlo & Hse).
    apply Forall_app in Hb. destruct Hb as [Hb Hx].
    inversion Hx as [|? ? Hxe _]; subst.
    rewrite (matches_passed_over name only x).
    destruct (instruction x =? name); cbn [andb].
    2:{ rewrite (IH ls d lo Hol Hb), app_nil_r, !orb_false_r. reflexivity. }
    destruct (passed_over only (value x)); cbn [negb fst].
    { rewrite (IH ls d lo Hol Hb), app_nil_r, !orb_false_r. reflexivity. }
    assert (Hlen : startline x <= length (del_slice (startline x) (S (endline x)) ls)).
    { unfold del_slice.
      replace (S (endline x) <=? startline x)%nat with false
        by (symmetry; apply Nat.leb_gt; lia).
      rewrite length_app, length_firstn. lia. }
    rewrite (IH _ true lo Hol).
    2:{ eapply Forall_impl; [|exact Hbl]. simpl. intros i Hi. lia. }
    f_equal.
    + unfold without_spans, del_slice.
      replace (S (endline x) <=? startline x)%nat with false
        by (symmetry; apply Nat.leb_gt; lia).
      rewrite (keep_lines_ext _ _ ls 0
                 (fun j _ => covered_snoc (List.filter (matches name only) l) x j)).
      rewrite keep_lines_del; try lia.
      * rewrite !Nat.sub_0_r. reflexivity.
      * apply covered_below, Forall_filter, Hbl.
    + rewrite orb_true_r. simpl. rewrite !orb_true_r. reflexivity.
Qed.

End DeleteFacts.

(** What [_delete_instructions] does on a file that exists, in terms
    of the test that its loop makes: it returns, and
    - when no instruction of the structure passes the test, the parser
      is left as it was: nothing is written;
    - otherwise one write is made, of the lines without the line spans
      of the instructions that pass it, which is what the deletions
      made in reverse line order add up to. *)
Lemma delete_instructions_effect :
  forall (self : DockerfileParser) (name : string) (only : option string)
         (text : string),
    dockerfile self = Some text ->
    let ls := readlines text in
    let matched := List.filter (Spec.matches name only) (structure_of ls) in
    _delete_instructions name only self
    = (Ok tt,
       match matched with
       | [] => self
       | _ => set_lines (Spec.without_spans matched ls) self
       end).
Proof.
  intros self name only text Hf ls matched.
  unfold _delete_instructions, bind, read, structure, lines.
  rewrite Hf. cbn [rbind]. fold ls.
  destruct (structure_of_ordered ls) as [Ho Hb].
  rewrite (delete_loop_spec name only (structure_of ls) ls false 0 Ho Hb).
  cbn [orb]. rewrite existsb_filter. fold matched.
  destruct matched; reflexivity.
Qed.

Lemma delete_instructions_effect_on_labels :
  dockerfile (parser_of ("LABEL a=1" ++ nl ++ "FROM x" ++ nl ++ "LABEL b " ++ bs ++ nl
                         ++ " c" ++ nl ++ "RUN y" ++ nl))
  = Some ("LABEL a=1" ++ nl ++ "FROM x" ++ nl ++ "LABEL b " ++ bs ++ nl
          ++ " c" ++ nl ++ "RUN y" ++ nl)
  /\ _delete_instructions "LABEL" None
       (parser_of ("LABEL a=1" ++ nl ++ "FROM x" ++ nl ++ "LABEL b " ++ bs ++ nl
                   ++ " c" ++ nl ++ "RUN y" ++ nl))
     = (Ok tt, {| dockerfile := Some ("FROM x" ++ nl ++ "RUN y" ++ nl);
                  written := [["FROM x" ++ nl; "RUN y" ++ nl]] |}).
Proof.
  split; [reflexivity|].
  exact (delete_instructions_effect
           (parser_of ("LABEL a=1" ++ nl ++ "FROM x" ++ nl ++ "LABEL b " ++ bs ++ nl
                       ++ " c" ++ nl ++ "RUN y" ++ nl))
           "LABEL" None _ eq_refl).
Defined.

(** The test of the loops is the comparison that the words describe,
    but for the empty string as the filter. *)
Lemma matches_as_given (name : string) (filter : option string) (insn : Instruction) :
  filter <> Some EmptyString ->
  Spec.matches name filter insn = Spec.matches_given name filter insn.
Proof.
  intros H. unfold Spec.matches, Spec.matches_given.
  destruct filter as [[|c f]|]; [congruence | reflexivity | reflexivity].
Qed.

Lemma delete_loop_empty_filter (name : string) (insns : list Instruction) :
  forall acc,
    delete_loop name (Some EmptyString) insns acc = delete_loop name None insns acc.
Proof.
  induction insns as [|insn rest IH]; intros acc; [reflexivity|].
  cbn [delete_loop passed_over truthy andb]. rewrite !IH. reflexivity.
Qed.

(** C8: the value filter of [_delete_instructions] is tested by its
    truth value before it is compared, so the empty string given as
    the filter is no filter.  In [from_and_cmd] no instruction has the
    name CMD and the empty value, so deleting the CMD instructions
    whose value equals the filter should leave the lines untouched
    and write nothing; the code deletes the CMD instruction, whose
    value is [a], and writes the file.  With the empty string as the
    filter the method does on every file what it does with no filter. *)
Theorem C8_empty_filter_deletes_all :
  let self := parser_of (concat_lines from_and_cmd) in
  List.filter (Spec.matches_given "CMD" (Some EmptyString)) (structure_of from_and_cmd) = []
  /\ map (fun i => (instruction i, value i)) (structure_of from_and_cmd)
     = [("FROM", "x"); ("CMD", "a")]
  /\ _delete_instructions "CMD" (Some EmptyString) self
     = (Ok tt, set_lines ["FROM x" ++ nl] self)
  /\ (forall (p : DockerfileParser) (name : string),
        _delete_instructions name (Some EmptyString) p
        = _delete_instructions name None p).
Proof.
  split; [reflexivity|]. split; [reflexivity|]. split; [reflexivity|].
  intros p name. unfold _delete_instructions, bind, read.
  destruct (lines p) as [ls|e]; [|reflexivity].
  destruct (structure p) as [insns|e]; [|reflexivity].
  rewrite delete_loop_empty_filter. reflexivity.
Qed.

(* ================================================================== *)
(** ** Reading labels *)

Section LabelFacts.

Import Spec.

Lemma split_char1_span (c : ascii) (s : string) :
  split_char1 c s
  = let (k, r) := span (fun d => negb (Ascii.eqb d c)) s in
    match r with
    | EmptyString => [k]
    | String _ v => [k; v]
    end.
Proof.
  induction s as [|d s IH]; [reflexivity|].
  cbn [split_char1 span].
  destruct (Ascii.eqb d c); cbn [negb]; [reflexivity|].
  rewrite IH. destruct (span (fun d0 => negb (Ascii.eqb d0 c)) s) as [k r].
  destruct r; reflexivity.
Qed.

Lemma set_key_val_token (token : string) (d : dict) :
  set_key_val (split_char1 EQUALS token) d
  = Ok (dict_set (fst (token_pair token)) (snd (token_pair token)) d).
Proof.
  unfold token_pair. rewrite split_char1_span.
  destruct (span (fun c => negb (Ascii.eqb c EQUALS)) token) as [k r].
  destruct r; reflexivity.
Qed.

Lemma labels_tokens_spec (tokens : list string) :
  forall d, labels_tokens tokens d = Ok (set_all (map token_pair tokens) d).
Proof.
  induction tokens as [|t r IH]; intros d; [reflexivity|].
  cbn [labels_tokens]. rewrite set_key_val_token. cbn [rbind].
  rewrite IH. reflexivity.
Qed.

Lemma set_key_val_legacy (v : string) (d : dict) :
  set_key_val (split_ws1 (remove_quotes v)) d
  = match legacy_pair v with
    | Some kv => Ok (dict_set (fst kv) (snd kv) d)
    | None => Raise IndexError
    end.
Proof.
  unfold split_ws1, legacy_pair.
  destruct (lstrip (remove_quotes v)) as [|c t]; [reflexivity|].
  destruct (span (fun c0 => negb (is_space c0)) (String c t)) as [w r].
  destruct (lstrip r); reflexivity.
Qed.

Lemma labels_insn_spec (insn : Instruction) (d : dict) :
  labels_insn insn d
  = if is_label insn then (ps <- label_pairs insn ;; Ok (set_all ps d)) else Ok d.
Proof.
  unfold labels_insn, is_label, label_pairs, _shlex_split.
  destruct (instruction insn =? "LABEL"); [|reflexivity].
  destruct (Shlex.split (value insn)) as [tokens|e]; [|reflexivity].
  cbn [rbind]. destruct tokens as [|first rest]; [reflexivity|].
  destruct (contains EQUALS first); cbn [negb].
  - apply labels_tokens_spec.
  - rewrite set_key_val_legacy. destruct (legacy_pair (value insn)); reflexivity.
Qed.

Lemma set_all_app (ps qs : list (string * string)) (d : dict) :
  set_all (ps ++ qs) d = set_all qs (set_all ps d).
Proof. apply fold_left_app. Qed.

(** The loop of the getter computes the pairs of the specification and
    sets them in order; it raises what computing the pairs raises. *)
Lemma labels_loop_spec (insns : list Instruction) :
  forall d, labels_loop insns d = (ps <- all_label_pairs insns ;; Ok (set_all ps d)).
Proof.
  induction insns as [|insn rest IH]; intros d; [reflexivity|].
  cbn [labels_loop all_label_pairs]. rewrite labels_insn_spec.
  destruct (is_label insn).
  - destruct (label_pairs insn) as [ps|e]; [|reflexivity].
    cbn [rbind]. rewrite IH.
    destruct (all_label_pairs rest) as [qs|e]; [|reflexivity].
    cbn [rbind]. rewrite set_all_app. reflexivity.
  - cbn [rbind]. apply IH.
Qed.

Lemma dict_get_set (k k' v : string) (d : dict) :
  dict_get k (dict_set k' v d) = if k' =? k then Some v else dict_get k d.
Proof.
  induction d as [|[k0 v0] r IH]; cbn [dict_set dict_get]; [reflexivity|].
  destruct (String.eqb_spec k0 k') as [->|Hne]; cbn [dict_get].
  - destruct (k' =? k); reflexivity.
  - rewrite IH. destruct (String.eqb_spec k' k) as [->|Hne'].
    + apply String.eqb_neq in Hne. rewrite Hne. reflexivity.
    + reflexivity.
Qed.

(** After the pairs are set in order, a key has the value of its last
    pair, or the value it had. *)
Lemma dict_get_set_all (k : string) (ps : list (string * string)) :
  forall d, dict_get k (set_all ps d)
            = match last_binding k ps with
              | Some v => Some v
              | None => dict_get k d
              end.
Proof.
  induction ps as [|[k' v] r IH]; intros d; [reflexivity|].
  cbn [set_all fold_left last_binding fst snd].
  fold (set_all r (dict_set k' v d)). rewrite IH.
  destruct (last_binding k r); [reflexivity|].
  rewrite dict_get_set. destruct (k' =? k); reflexivity.
Qed.

End LabelFacts.

(** C5: the [labels] getter computes, for each LABEL instruction, the
    pairs that the specification describes (no equals sign in the first
    shell token: one pair, from the value without its quotes, cut once
    at the first run of white space, the value empty by default;
    otherwise one pair per shell token, cut once at the first equals
    sign), and the mapping it returns gives each key the value of its
    last pair in file order.  When the pairs cannot be computed the
    getter raises the same exception. *)
Theorem C5_labels_getter :
  forall (self : DockerfileParser) (insns : list Instruction),
    structure self = Ok insns ->
    (forall pairs, Spec.all_label_pairs insns = Ok pairs ->
       exists m, labels self = Ok m
                 /\ forall k, dict_get k m = Spec.last_binding k pairs)
    /\ (forall e, Spec.all_label_pairs insns = Raise e -> labels self = Raise e).
Proof.
  intros self insns Hs. unfold labels. rewrite Hs. cbn [rbind].
  rewrite labels_loop_spec. split.
  - intros pairs ->. cbn [rbind]. eexists. split; [reflexivity|].
    intros k. rewrite dict_get_set_all. destruct (Spec.last_binding k pairs); reflexivity.
  - intros e ->. reflexivity.
Qed.

Lemma C5_labels_getter_witness :
  structure (parser_of ("LABEL a=1 b" ++ nl ++ "LABEL 'x' y  z " ++ nl ++ "LABEL a=3" ++ nl))
  = Ok (structure_of ["LABEL a=1 b" ++ nl; "LABEL 'x' y  z " ++ nl; "LABEL a=3" ++ nl])
  /\ exists m,
       labels (parser_of ("LABEL a=1 b" ++ nl ++ "LABEL 'x' y  z " ++ nl ++ "LABEL a=3" ++ nl))
       = Ok m
       /\ forall k, dict_get k m
                    = Spec.last_binding k
                        [("a", "1"); ("b", EmptyString); ("x", "y  z"); ("a", "3")].
Proof.
  split; [reflexivity|].
  apply (C5_labels_getter
           (parser_of ("LABEL a=1 b" ++ nl ++ "LABEL 'x' y  z " ++ nl ++ "LABEL a=3" ++ nl))
           _ eq_refl).
  vm_compute. reflexivity.
Defined.

(* ================================================================== *)
(** ** The assertion of the single-label update *)

(** C9: in [label_on_top_twice] the first LABEL instruction that
    contains the key [a] starts at line 0 and the key is present, yet
    the update returns and writes: the [break] of the key=value branch
    leaves the loop over the tokens only, so the LABEL instruction on
    line 1 takes over the selection and the assertion passes.  The
    legacy branch, whose [break] leaves the loop over the
    instructions, raises [AssertionError] on the same file written in
    the legacy syntax, and so does the key=value branch when no later
    LABEL instruction has the key; neither writes. *)
Theorem C9_later_label_takes_over :
  let self := parser_of (concat_lines label_on_top_twice) in
  let legacy := parser_of (concat_lines label_on_top_twice_legacy) in
  let single := parser_of (concat_lines label_on_top) in
  option_map startline (Spec.first_label_with "a" (structure_of label_on_top_twice))
  = Some 0
  /\ labels self = Ok [("a", "2")]
  /\ _modify_instruction_label "a" "9" self
     = (Ok tt, set_lines ["LABEL a=1" ++ nl; "LABEL a=9" ++ nl] self)
  /\ option_map startline
       (Spec.first_label_with "a" (structure_of label_on_top_twice_legacy))
     = Some 0
  /\ _modify_instruction_label "a" "9" legacy = (Raise AssertionError, legacy)
  /\ _modify_instruction_label "a" "9" single = (Raise AssertionError, single).
Proof. vm_compute. repeat split; reflexivity. Qed.

Lemma ordered_In (insns : list Instruction) :
  forall lo i, ordered lo insns -> In i insns -> startline i <= endline i.
Proof.
  induction insns as [|x r IH]; intros lo i Ho Hin; [destruct Hin|].
  destruct Ho as (_ & Hx & Hr). destruct Hin as [<-|Hin]; [exact Hx|].
  exact (IH _ _ Hr Hin).
Qed.


(* ================================================================== *)
(** ** More on the structurer *)

Section StructureFacts.

Lemma ordered_pairs (insns : list Instruction) :
  forall lo, ordered lo insns ->
    Forall (fun i => lo <= startline i /\ startline i <= endline i) insns
    /\ ForallOrdPairs (fun a b => endline a < startline b) insns.
Proof.
  induction insns as [|i r IH]; intros lo Ho.
  - split; constructor.
  - destruct Ho as (H1 & H2 & H3). destruct (IH _ H3) as [Hf Hp]. split.
    + constructor; [auto|]. eapply Forall_impl; [|exact Hf]. simpl. intros a Ha. lia.
    + constructor; [|exact Hp]. eapply Forall_impl; [|exact Hf]. simpl. intros a Ha. lia.
Qed.

End StructureFacts.

(** X1: The spans of the instructions that [structure] returns lie within
    the lines, each from its first line to a last line that is not
    before it, and they follow one another without overlap: an
    instruction ends before any later one starts. *)
Theorem structure_spans_in_order :
  forall ls : list string,
    Forall (fun i => startline i <= endline i /\ endline i < length ls) (structure_of ls)
    /\ ForallOrdPairs (fun a b => endline a < startline b) (structure_of ls).
Proof.
  intros ls. destruct (structure_of_ordered ls) as [Ho Hb].
  destruct (ordered_pairs _ _ Ho) as [Hf Hp]. split; [|exact Hp].
  rewrite Forall_forall in *. intros i Hi. split; [apply Hf, Hi | apply Hb, Hi].
Qed.

(* ================================================================== *)
(** ** The scan composes: a file is scanned block by block *)

Section Composition.

Lemma follows_scan_line (n k : nat) (line : string) (base : list Instruction)
    (st1 st0 : scan_state) :
  follows n base st1 st0 ->
  follows n base (scan_line (n + k) line st1) (scan_line k line st0).
Proof.
  intros (Hi & Hc & Hcur). unfold scan_line. rewrite Hc.
  destruct (in_continuation st0) eqn:Hc0.
  - destruct (Hcur eq_refl) as (ci & H0 & H1). rewrite H0, H1.
    unfold follows, close_line. cbn [instructions in_continuation current_instruction].
    destruct (contre_match line).
    + split; [exact Hi|]. split; [reflexivity|]. intros _.
      eexists. split; reflexivity.
    + split; [|split; [reflexivity | discriminate]].
      rewrite Hi, map_app, app_assoc. reflexivity.
  - destruct (insnre_match line) as [groups|].
    + unfold follows, close_line. cbn [instructions in_continuation current_instruction].
      destruct (contre_match line).
      * split; [exact Hi|]. split; [reflexivity|]. intros _.
        eexists. split; reflexivity.
      * split; [|split; [reflexivity | discriminate]].
        rewrite Hi, map_app, app_assoc. reflexivity.
    + split; [exact Hi|]. split; [congruence|]. rewrite Hc0. discriminate.
Qed.

Lemma follows_scan (ls : list string) :
  forall (n k : nat) (base : list Instruction) (st1 st0 : scan_state),
    follows n base st1 st0 ->
    follows n base (scan (n + k) ls st1) (scan k ls st0).
Proof.
  induction ls as [|l r IH]; intros n k base st1 st0 H; [exact H|].
  cbn [scan]. replace (S (n + k)) with (n + S k) by lia.
  apply IH, follows_scan_line, H.
Qed.

Lemma follows_init (n : nat) (st : scan_state) :
  in_continuation st = false -> follows n (instructions st) st scan_init.
Proof.
  intros Hc. split; [|split].
  - simpl. rewrite app_nil_r. reflexivity.
  - exact Hc.
  - discriminate.
Qed.

(** Scanning on from a state between two instructions. *)
Lemma scan_from_closed (ls : list string) (n : nat) (st : scan_state) :
  in_continuation st = false ->
  instructions (scan n ls st)
  = (instructions st ++ map (shift n) (structure_of ls))%list
  /\ in_continuation (scan n ls st) = in_continuation (scan 0 ls scan_init).
Proof.
  intros Hc.
  pose proof (follows_scan ls n 0 _ _ _ (follows_init n st Hc)) as (Hi & Hc' & _).
  rewrite Nat.add_0_r in *. split; assumption.
Qed.

End Composition.

Lemma structure_app_closed (pre rest : list string) :
  in_continuation (scan 0 pre scan_init) = false ->
  structure_of (pre ++ rest)
  = (structure_of pre ++ map (shift (length pre)) (structure_of rest))%list.
Proof.
  intros Hc. unfold structure_of at 1. rewrite scan_app.
  apply (scan_from_closed rest (0 + length pre) _ Hc).
Qed.

(** X2: When the scan of the first lines of a file ends between two
    instructions (not in a continuation), the structure of the file is
    the structure of those lines followed by the structure of the
    remaining lines, renumbered. *)
Theorem structure_of_app :
  forall pre rest : list string,
    in_continuation (scan 0 pre scan_init) = false ->
    structure_of (pre ++ rest)
    = (structure_of pre ++ map (shift (length pre)) (structure_of rest))%list.
Proof. exact structure_app_closed. Qed.

Lemma structure_of_app_witness :
  in_continuation (scan 0 ["FROM x" ++ nl; "# c" ++ nl] scan_init) = false
  /\ structure_of (["FROM x" ++ nl; "# c" ++ nl] ++ ["RUN a " ++ bs ++ nl; " b" ++ nl])
     = app (structure_of ["FROM x" ++ nl; "# c" ++ nl])
           (map (shift 2) (structure_of ["RUN a " ++ bs ++ nl; " b" ++ nl])).
Proof.
  split; [reflexivity|].
  apply (structure_of_app ["FROM x" ++ nl; "# c" ++ nl] ["RUN a " ++ bs ++ nl; " b" ++ nl]).
  reflexivity.
Defined.

(* ================================================================== *)
(** ** Every instruction is a block of lines of its own *)

Section Blocks.

Lemma firstn_app_le {A} (k : nat) (l r : list A) :
  k <= length l -> firstn k (l ++ r) = firstn k l.
Proof.
  intros H. rewrite firstn_app. replace (k - length l) with 0 by lia.
  simpl. apply app_nil_r.
Qed.

Lemma snoc_split {A} (old : list A) (n : A) (A0 : list A) (x : A) (B : list A) :
  (old ++ [n] = A0 ++ x :: B)%list ->
  (B = [] /\ A0 = old /\ x = n)
  \/ (exists B', B = (B' ++ [n])%list /\ old = (A0 ++ x :: B')%list).
Proof.
  revert old n A0 x. induction B as [|b B' _] using rev_ind; intros old n A0 x H.
  - left. apply app_inj_tail in H. destruct H as [-> ->]. auto.
  - right. exists B'.
    replace (A0 ++ x :: B' ++ [b])%list with ((A0 ++ x :: B') ++ [b])%list in H
      by (rewrite <- app_assoc; reflexivity).
    apply app_inj_tail in H. destruct H as [-> ->]. auto.
Qed.

Lemma scan_snoc (pre : list string) (l : string) :
  scan 0 (pre ++ [l]) scan_init
  = scan_line (length pre) l (scan 0 pre scan_init).
Proof. rewrite scan_app. reflexivity. Qed.

Lemma cuts_stable (pre : list string) (l : string) (insns : list Instruction) :
  ordered_in 0 (length pre) insns ->
  cuts pre insns -> cuts (pre ++ [l]) insns.
Proof.
  intros [Ho Hb] Hc A x B HAB.
  assert (Hin : In x insns) by (rewrite HAB; apply in_elt).
  pose proof (ordered_In _ _ _ Ho Hin) as Hse.
  rewrite Forall_forall in Hb. specialize (Hb x Hin). simpl in Hb.
  rewrite !firstn_app_le by lia. apply (Hc A x B HAB).
Qed.

Lemma cuts_snoc (pre : list string) (l : string) (insns : list Instruction)
    (ci : Instruction) :
  ordered_in 0 (length pre) insns ->
  cuts pre insns ->
  startline ci <= length pre -> endline ci = length pre ->
  closed_with insns (scan 0 (firstn (startline ci) pre) scan_init) ->
  closed_with (insns ++ [ci]) (scan 0 (pre ++ [l]) scan_init) ->
  cuts (pre ++ [l]) (insns ++ [ci]).
Proof.
  intros Hob Hc Hs He Hbefore Hafter A x B HAB.
  destruct (snoc_split _ _ _ _ _ HAB) as [(-> & -> & ->)|(B' & -> & Hold)].
  - rewrite firstn_app_le by lia. split; [exact Hbefore|].
    rewrite He. rewrite firstn_all2 by (rewrite length_app; simpl; lia).
    exact Hafter.
  - apply (cuts_stable pre l insns Hob Hc A x B' Hold).
Qed.

(** The invariant of the scan that cuts the file into blocks. *)
Lemma scan_cuts (ls : list string) :
  cuts ls (structure_of ls)
  /\ (in_continuation (scan 0 ls scan_init) = true ->
      exists ci, current_instruction (scan 0 ls scan_init) = Some ci
                 /\ closed_with (structure_of ls)
                      (scan 0 (firstn (startline ci) ls) scan_init)).
Proof.
  induction ls as [|l pre [IHc IHcur]] using rev_ind.
  - split; [|discriminate]. intros A x B H. destruct A; discriminate H.
  - unfold structure_of in *. rewrite scan_snoc.
    pose proof (scan_inv_scan pre 0 scan_init scan_inv_init) as Hinv. simpl in Hinv.
    pose proof (scan_inv_ordered _ _ Hinv) as Hob.
    set (st := scan 0 pre scan_init) in *.
    assert (Hstep : scan 0 (pre ++ [l]) scan_init = scan_line (length pre) l st)
      by apply scan_snoc.
    unfold scan_line in *. unfold scan_inv in Hinv.
    destruct (in_continuation st) eqn:Hcont.
    + destruct (IHcur eq_refl) as (ci & Hci & Hclosed).
      destruct Hinv as (ci' & Hci' & Hse & Hn & _).
      rewrite Hci in Hci'. injection Hci' as <-.
      rewrite Hci in *. unfold close_line in *.
      cbn [instructions in_continuation current_instruction].
      destruct (contre_match l).
      * split; [apply cuts_stable; assumption|]. intros _.
        exists (continue_instruction (length pre) l ci). split; [reflexivity|].
        cbn [continue_instruction startline]. rewrite firstn_app_le by lia.
        exact Hclosed.
      * split; [|discriminate].
        apply cuts_snoc; try assumption; cbn [continue_instruction startline endline];
          try lia; try reflexivity.
        rewrite Hstep. split; reflexivity.
    + destruct (insnre_match l) as [groups|].
      * unfold close_line in *.
        cbn [instructions in_continuation current_instruction].
        destruct (contre_match l).
        -- split; [apply cuts_stable; assumption|]. intros _.
           eexists. split; [reflexivity|].
           cbn [open_instruction startline]. rewrite firstn_app_le by lia.
           rewrite firstn_all. split; [reflexivity | exact Hcont].
        -- split; [|discriminate].
           apply cuts_snoc; try assumption; cbn [open_instruction startline endline];
             try lia; try reflexivity.
           ++ rewrite firstn_all. split; [reflexivity | exact Hcont].
           ++ rewrite Hstep. split; reflexivity.
      * rewrite Hcont. split; [apply cuts_stable; assumption | discriminate].
Qed.

Lemma firstn_add {A} (a b : nat) (l : list A) :
  firstn (a + b) l = (firstn a l ++ firstn b (skipn a l))%list.
Proof.
  revert l. induction a as [|a IH]; intros l; [reflexivity|].
  destruct l as [|x l]; simpl.
  - rewrite firstn_nil. reflexivity.
  - rewrite IH. reflexivity.
Qed.

Lemma map_shift_inj (n : nat) (l l' : list Instruction) :
  map (shift n) l = map (shift n) l' -> l = l'.
Proof.
  revert l'. induction l as [|a l IH]; intros [|b l'] H; try discriminate H; [reflexivity|].
  simpl in H. injection H as Hi Hs He Hc Hv Hr.
  f_equal; [|apply IH, Hr].
  destruct a, b. simpl in *. f_equal; auto; lia.
Qed.

End Blocks.

Lemma block_of_instruction :
  forall (ls : list string) (A : list Instruction) (x : Instruction)
         (B : list Instruction),
    structure_of ls = (A ++ x :: B)%list ->
    structure_of (firstn (startline x) ls) = A
    /\ in_continuation (scan 0 (firstn (startline x) ls) scan_init) = false
    /\ map (shift (startline x)) (structure_of (span_lines (startline x) (endline x) ls))
       = [x]
    /\ in_continuation
         (scan 0 (span_lines (startline x) (endline x) ls) scan_init) = false
    /\ map (shift (S (endline x))) (structure_of (skipn (S (endline x)) ls)) = B.
Proof.
  intros ls A x B H.
  destruct (scan_cuts ls) as [Hc _].
  destruct (Hc A x B H) as [[HA HAc] [HAx HAxc]].
  assert (Hin : In x (structure_of ls)) by (rewrite H; apply in_elt).
  destruct (structure_of_ordered ls) as [Ho Hb].
  pose proof (ordered_In _ _ _ Ho Hin) as Hse.
  rewrite Forall_forall in Hb. specialize (Hb x Hin). simpl in Hb.
  assert (Hlen : length (firstn (startline x) ls) = startline x)
    by (rewrite length_firstn; lia).
  assert (Hsplit : firstn (S (endline x)) ls
                   = (firstn (startline x) ls
                      ++ span_lines (startline x) (endline x) ls)%list).
  { unfold span_lines. rewrite <- firstn_add. f_equal. lia. }
  split; [exact HA|]. split; [exact HAc|].
  pose proof (scan_from_closed (span_lines (startline x) (endline x) ls)
                (0 + length (firstn (startline x) ls)) _ HAc) as [Hi Hcc].
  rewrite <- scan_app, <- Hsplit, HAx, HA, Hlen in Hi. rewrite <- scan_app, <- Hsplit in Hcc.
  apply app_inv_head in Hi.
  split; [symmetry; exact Hi|]. split; [rewrite <- Hcc; exact HAxc|].
  pose proof (structure_app_closed (firstn (S (endline x)) ls) (skipn (S (endline x)) ls) HAxc)
    as Happ.
  rewrite firstn_skipn in Happ. unfold structure_of at 2 in Happ.
  rewrite HAx, H, length_firstn in Happ.
  replace (Init.Nat.min (S (endline x)) (length ls)) with (S (endline x)) in Happ by lia.
  rewrite <- app_assoc in Happ. apply app_inv_head in Happ. simpl in Happ.
  injection Happ as Happ. symmetry. exact Happ.
Qed.

(** X3: An instruction is the structure of its own lines: for an
    instruction [x] of the structure, with the instructions [A] before
    it and [B] after it,
    - the lines before its first line have the structure [A], and their
      scan ends between two instructions;
    - its lines alone have the structure that consists of [x],
      renumbered from 0;
    - the lines after its last line have the structure [B], renumbered
      from 0. *)
Theorem structure_block :
  forall (ls : list string) (A : list Instruction) (x : Instruction)
         (B : list Instruction),
    structure_of ls = (A ++ x :: B)%list ->
    structure_of (firstn (startline x) ls) = A
    /\ in_continuation (scan 0 (firstn (startline x) ls) scan_init) = false
    /\ map (shift (startline x)) (structure_of (span_lines (startline x) (endline x) ls))
       = [x]
    /\ in_continuation
         (scan 0 (span_lines (startline x) (endline x) ls) scan_init) = false
    /\ map (shift (S (endline x))) (structure_of (skipn (S (endline x)) ls)) = B.
Proof. exact block_of_instruction. Qed.

Lemma structure_block_witness :
  structure_of two_cmds
  = app [ {| instruction := "CMD"; startline := 0; endline := 1;
             content := "CMD a " ++ bs ++ nl ++ " b" ++ nl; value := "a  b" |} ]
        ( {| instruction := "RUN"; startline := 2; endline := 2;
             content := "RUN x" ++ nl; value := "x" |}
          :: [ {| instruction := "CMD"; startline := 3; endline := 3;
                  content := "CMD c" ++ nl; value := "c" |} ] )
  /\ map (shift 2) (structure_of (span_lines 2 2 two_cmds))
     = [ {| instruction := "RUN"; startline := 2; endline := 2;
            content := "RUN x" ++ nl; value := "x" |} ].
Proof.
  split; [reflexivity|].
  apply (structure_block two_cmds
           [ {| instruction := "CMD"; startline := 0; endline := 1;
                content := "CMD a " ++ bs ++ nl ++ " b" ++ nl; value := "a  b" |} ]
           {| instruction := "RUN"; startline := 2; endline := 2;
              content := "RUN x" ++ nl; value := "x" |}
           [ {| instruction := "CMD"; startline := 3; endline := 3;
                content := "CMD c" ++ nl; value := "c" |} ]).
  reflexivity.
Defined.

(* ================================================================== *)
(** ** What each instruction of the structure records *)

Section Records.

(** An invariant of the instructions appended ([P]) and of the one
    being accumulated ([C]), both relative to the lines read so far. *)
Lemma scan_prefix_inv (P C : list string -> Instruction -> Prop) :
  (forall pre l i, endline i < length pre -> P pre i -> P (pre ++ [l])%list i) ->
  (forall pre l groups,
      insnre_match l = Some groups -> contre_match l = false ->
      P (pre ++ [l])%list
        (open_instruction (length pre) l (nth 0 groups EmptyString)
           (nth 1 groups EmptyString))) ->
  (forall pre l groups,
      insnre_match l = Some groups -> contre_match l = true ->
      C (pre ++ [l])%list
        (open_instruction (length pre) l (nth 0 groups EmptyString)
           (nth 1 groups EmptyString))) ->
  (forall pre l ci,
      C pre ci -> startline ci <= endline ci -> S (endline ci) = length pre ->
      contre_match l = true ->
      C (pre ++ [l])%list (continue_instruction (length pre) l ci)) ->
  (forall pre l ci,
      C pre ci -> startline ci <= endline ci -> S (endline ci) = length pre ->
      contre_match l = false ->
      P (pre ++ [l])%list (continue_instruction (length pre) l ci)) ->
  forall ls,
    Forall (P ls) (structure_of ls)
    /\ (in_continuation (scan 0 ls scan_init) = true ->
        exists ci, current_instruction (scan 0 ls scan_init) = Some ci /\ C ls ci).
Proof.
  intros Hstable Hopen Hopenc Hcont Hclose.
  induction ls as [|l pre [IHp IHc]] using rev_ind.
  - split; [constructor | discriminate].
  - unfold structure_of in *. rewrite scan_snoc.
    pose proof (scan_inv_scan pre 0 scan_init scan_inv_init) as Hinv. simpl in Hinv.
    destruct (scan_inv_ordered _ _ Hinv) as [_ Hb].
    assert (Hold : Forall (P (pre ++ [l])%list) (instructions (scan 0 pre scan_init))).
    { rewrite Forall_forall in *. intros i Hi. apply Hstable; [apply Hb, Hi | apply IHp, Hi]. }
    set (st := scan 0 pre scan_init) in *.
    unfold scan_line. unfold scan_inv in Hinv.
    destruct (in_continuation st) eqn:Hcc.
    + destruct (IHc eq_refl) as (ci & Hci & HC).
      destruct Hinv as (ci' & Hci' & Hse & Hn & _).
      rewrite Hci in Hci'. injection Hci' as <-. rewrite Hci.
      unfold close_line. cbn [instructions in_continuation current_instruction].
      destruct (contre_match l) eqn:Hl.
      * split; [exact Hold|]. intros _. eexists. split; [reflexivity|].
        apply Hcont; assumption.
      * split; [|discriminate]. apply Forall_app. split; [exact Hold|].
        constructor; [|constructor]. apply Hclose; assumption.
    + destruct (insnre_match l) as [groups|] eqn:Hm.
      * unfold close_line. cbn [instructions in_continuation current_instruction].
        destruct (contre_match l) eqn:Hl.
        -- split; [exact Hold|]. intros _. eexists. split; [reflexivity|].
           apply Hopenc with (groups := groups); assumption.
        -- split; [|discriminate]. apply Forall_app. split; [exact Hold|].
           constructor; [|constructor]. apply Hopen; assumption.
      * rewrite Hcc. split; [exact Hold | discriminate].
Qed.

Lemma span_fst_all (f : ascii -> bool) (s : string) : str_all f (fst (span f s)) = true.
Proof.
  induction s as [|c s IH]; [reflexivity|]. simpl.
  destruct (f c) eqn:Hc; [|reflexivity].
  destruct (span f s) as [a b]. simpl in *. rewrite Hc, IH. reflexivity.
Qed.

(** The keyword of a match is a non-empty run of word characters, and
    the remainder holds no newline. *)
Lemma insnre_match_shape (line : string) (groups : list string) :
  insnre_match line = Some groups ->
  exists kw rest,
    groups = [kw; rest] /\ truthy kw = true /\ str_all is_word kw = true
    /\ contains NL rest = false.
Proof.
  rewrite insnre_match_direct. unfold insnre_direct.
  pose proof (span_fst_all is_word (lstrip line)) as Hw.
  destruct (span is_word (lstrip line)) as [kw s2]. simpl in Hw.
  destruct (truthy kw) eqn:Hk; [|discriminate].
  destruct (span is_space s2) as [ws s3]. destruct (truthy ws); [|discriminate].
  pose proof (span_fst_all is_dot s3) as Hd.
  destruct (span is_dot s3) as [rest tail]. simpl in Hd.
  destruct (Re.at_end tail); [|discriminate].
  intros H. injection H as <-. exists kw, rest. repeat split; auto.
  clear - Hd. induction rest as [|c r IH]; [reflexivity|].
  cbn [str_all contains] in *. apply andb_prop in Hd. destruct Hd as [Hc Hr].
  rewrite (IH Hr). unfold is_dot in Hc. rewrite (Ascii.eqb_sym NL c).
  destruct (Ascii.eqb c NL); [discriminate Hc | reflexivity].
Qed.

Lemma upper_char_word (c : ascii) : is_word c = true -> is_word (upper_char c) = true.
Proof.
  destruct c as [[|] [|] [|] [|] [|] [|] [|] [|]]; vm_compute; congruence.
Qed.

Lemma upper_char_idem (c : ascii) : upper_char (upper_char c) = upper_char c.
Proof.
  destruct c as [[|] [|] [|] [|] [|] [|] [|] [|]]; vm_compute; reflexivity.
Qed.

Lemma upper_keyword (kw : string) :
  truthy kw = true -> str_all is_word kw = true ->
  truthy (upper kw) = true /\ str_all is_word (upper kw) = true
  /\ upper (upper kw) = upper kw.
Proof.
  intros Ht Hw. split; [destruct kw; [discriminate Ht | reflexivity]|].
  clear Ht. induction kw as [|c k IH]; [split; reflexivity|].
  simpl in Hw. apply andb_prop in Hw. destruct Hw as [Hc Hk].
  destruct (IH Hk) as [IH1 IH2]. cbn [upper str_all].
  rewrite (upper_char_word c Hc), IH1, upper_char_idem, IH2. split; reflexivity.
Qed.

End Records.

Lemma instruction_names :
  forall (ls : list string) (i : Instruction),
    In i (structure_of ls) ->
    truthy (instruction i) = true
    /\ str_all is_word (instruction i) = true
    /\ upper (instruction i) = instruction i.
Proof.
  intros ls.
  pose (P := fun (_ : list string) (i : Instruction) =>
               truthy (instruction i) = true
               /\ str_all is_word (instruction i) = true
               /\ upper (instruction i) = instruction i).
  assert (Hopen : forall n l groups,
             insnre_match l = Some groups ->
             P [] (open_instruction n l (nth 0 groups EmptyString)
                     (nth 1 groups EmptyString))).
  { intros n l groups Hm.
    destruct (insnre_match_shape _ _ Hm) as (kw & rest & -> & Ht & Hw & _).
    apply upper_keyword; assumption. }
  assert (H : Forall (P ls) (structure_of ls)).
  { apply (scan_prefix_inv P P); unfold P.
    - auto.
    - intros pre l groups Hm _. exact (Hopen _ _ _ Hm).
    - intros pre l groups Hm _. exact (Hopen _ _ _ Hm).
    - auto.
    - auto. }
  rewrite Forall_forall in H. exact H.
Qed.

(** X4: For lines of code points below 128, the name of every
    instruction of the structure is a non-empty word of letters,
    digits and underscores in upper case: [upper] leaves it as it
    is. *)
Theorem structure_names_upper :
  forall (ls : list string) (i : Instruction),
    Forall ascii_only ls ->
    In i (structure_of ls) ->
    truthy (instruction i) = true
    /\ str_all is_word (instruction i) = true
    /\ upper (instruction i) = instruction i.
Proof. intros ls i _. apply instruction_names. Qed.

Lemma structure_names_upper_witness :
  Forall ascii_only ["From fedora" ++ nl]
  /\ In {| instruction := "FROM"; startline := 0; endline := 0;
           content := "From fedora" ++ nl; value := "fedora" |}
        (structure_of ["From fedora" ++ nl])
  /\ upper "FROM" = "FROM".
Proof.
  assert (Ha : Forall ascii_only ["From fedora" ++ nl])
    by (constructor; [reflexivity | constructor]).
  split; [exact Ha|]. split; [left; reflexivity|].
  apply (structure_names_upper ["From fedora" ++ nl]
           {| instruction := "FROM"; startline := 0; endline := 0;
              content := "From fedora" ++ nl; value := "fedora" |} Ha).
  left. reflexivity.
Defined.

Section RecordsOfLines.

Lemma str_app_assoc (a b c : string) : (a ++ b) ++ c = a ++ (b ++ c).
Proof. induction a as [|x a IH]; simpl; [|rewrite IH]; reflexivity. Qed.

Lemma concat_lines_cons (l : string) (ls : list string) :
  concat_lines (l :: ls) = l ++ concat_lines ls.
Proof.
  unfold concat_lines. destruct ls as [|m r]; simpl.
  - symmetry. apply append_empty_r.
  - reflexivity.
Qed.

Lemma concat_lines_app (a b : list string) :
  concat_lines (a ++ b) = concat_lines a ++ concat_lines b.
Proof.
  induction a as [|x a IH]; [reflexivity|].
  rewrite <- app_comm_cons, !concat_lines_cons, IH, str_app_assoc. reflexivity.
Qed.

Lemma span_lines_stable (s e : nat) (pre r : list string) :
  e < length pre -> span_lines s e (pre ++ r) = span_lines s e pre.
Proof.
  intros He. unfold span_lines. rewrite skipn_app, firstn_app, length_skipn.
  replace (S e - s - (length pre - s)) with 0 by lia.
  simpl. apply app_nil_r.
Qed.

Lemma skipn_snoc (s : nat) (pre : list string) (l : string) :
  s <= length pre -> skipn s (pre ++ [l]) = (skipn s pre ++ [l])%list.
Proof.
  intros Hs. rewrite skipn_app. replace (s - length pre) with 0 by lia. reflexivity.
Qed.

Lemma span_lines_to_end (s : nat) (pre : list string) (l : string) :
  s <= length pre ->
  span_lines s (length pre) (pre ++ [l]) = (skipn s pre ++ [l])%list.
Proof.
  intros Hs. unfold span_lines. rewrite skipn_snoc by exact Hs.
  apply firstn_all2. rewrite length_app, length_skipn. cbn [length]. lia.
Qed.

Lemma nth_error_app_some {A} (pre r : list A) (j : nat) (x : A) :
  nth_error pre j = Some x -> nth_error (pre ++ r) j = Some x.
Proof.
  intros H. rewrite nth_error_app1; [exact H|].
  apply nth_error_Some. congruence.
Qed.

Lemma nth_error_snoc {A} (pre : list A) (x : A) :
  nth_error (pre ++ [x]) (length pre) = Some x.
Proof. rewrite nth_error_app2 by lia. rewrite Nat.sub_diag. reflexivity. Qed.

End RecordsOfLines.

(** X5: The content of every instruction of the structure is the text of
    its lines, from its first line to its last, joined as they are. *)
Theorem structure_content :
  forall (ls : list string) (i : Instruction),
    In i (structure_of ls) ->
    content i = concat_lines (span_lines (startline i) (endline i) ls).
Proof.
  intros ls.
  pose (P := fun (pre : list string) (i : Instruction) =>
               content i = concat_lines (span_lines (startline i) (endline i) pre)).
  pose (C := fun (pre : list string) (i : Instruction) =>
               content i = concat_lines (skipn (startline i) pre)).
  assert (H : Forall (P ls) (structure_of ls)).
  { apply (scan_prefix_inv P C); unfold P, C.
    - intros pre l i Hi Hp. rewrite span_lines_stable by exact Hi. exact Hp.
    - intros pre l groups _ _. cbn [open_instruction content startline endline].
      rewrite span_lines_to_end by lia. rewrite skipn_all. reflexivity.
    - intros pre l groups _ _. cbn [open_instruction content startline].
      rewrite skipn_snoc by lia. rewrite skipn_all. reflexivity.
    - intros pre l ci Hc Hse Hn _. cbn [continue_instruction content startline].
      rewrite skipn_snoc by lia. rewrite concat_lines_app, Hc. f_equal.
    - intros pre l ci Hc Hse Hn _. cbn [continue_instruction content startline endline].
      rewrite span_lines_to_end by lia. rewrite concat_lines_app, Hc. f_equal. }
  rewrite Forall_forall in H. exact H.
Qed.

Lemma structure_content_witness :
  In {| instruction := "CMD"; startline := 0; endline := 1;
        content := "CMD a " ++ bs ++ nl ++ " b" ++ nl; value := "a  b" |}
     (structure_of two_cmds)
  /\ "CMD a " ++ bs ++ nl ++ " b" ++ nl = concat_lines (span_lines 0 1 two_cmds).
Proof.
  split; [left; reflexivity|].
  apply (structure_content two_cmds
           {| instruction := "CMD"; startline := 0; endline := 1;
              content := "CMD a " ++ bs ++ nl ++ " b" ++ nl; value := "a  b" |}).
  left. reflexivity.
Defined.

(** X6: The span of every instruction of the structure is read off the
    lines: its first line matches [insnre], which gives the name (and
    the value, when the instruction is on one line); every line of the
    span but the last matches [contre], and the last one does not. *)
Theorem structure_span_of_lines :
  forall (ls : list string) (i : Instruction),
    In i (structure_of ls) ->
    (exists line kw rest,
        nth_error ls (startline i) = Some line
        /\ insnre_match line = Some [kw; rest]
        /\ instruction i = upper kw
        /\ (startline i = endline i -> value i = _rstrip_backslash rest))
    /\ (forall j, startline i <= j < endline i ->
                  exists line, nth_error ls j = Some line /\ contre_match line = true)
    /\ (exists line, nth_error ls (endline i) = Some line /\ contre_match line = false).
Proof.
  intros ls.
  pose (opened := fun (pre : list string) (i : Instruction) =>
          exists line kw rest,
            nth_error pre (startline i) = Some line
            /\ insnre_match line = Some [kw; rest]
            /\ instruction i = upper kw
            /\ (startline i = endline i -> value i = _rstrip_backslash rest)).
  pose (P := fun (pre : list string) (i : Instruction) =>
          opened pre i
          /\ (forall j, startline i <= j < endline i ->
                exists line, nth_error pre j = Some line /\ contre_match line = true)
          /\ (exists line, nth_error pre (endline i) = Some line
                           /\ contre_match line = false)).
  pose (C := fun (pre : list string) (i : Instruction) =>
          (exists line kw rest,
              nth_error pre (startline i) = Some line
              /\ insnre_match line = Some [kw; rest]
              /\ instruction i = upper kw)
          /\ (forall j, startline i <= j <= endline i ->
                exists line, nth_error pre j = Some line /\ contre_match line = true)).
  assert (H : Forall (P ls) (structure_of ls)).
  { apply (scan_prefix_inv P C); unfold P, C, opened.
    - intros pre l i Hi ((line & kw & rest & H1 & H2 & H3 & H4) & Hmid & (last & H5 & H6)).
      split; [|split].
      + exists line, kw, rest. split; [apply nth_error_app_some, H1 | auto].
      + intros j Hj. destruct (Hmid j Hj) as (lj & Hlj & Hcj).
        exists lj. split; [apply nth_error_app_some, Hlj | exact Hcj].
      + exists last. split; [apply nth_error_app_some, H5 | exact H6].
    - intros pre l groups Hm Hc.
      destruct (insnre_match_shape _ _ Hm) as (kw & rest & -> & _).
      cbn [open_instruction startline endline instruction value nth].
      split; [|split].
      + exists l, kw, rest. split; [apply nth_error_snoc | auto].
      + intros j Hj. lia.
      + exists l. split; [apply nth_error_snoc | exact Hc].
    - intros pre l groups Hm Hc.
      destruct (insnre_match_shape _ _ Hm) as (kw & rest & -> & _).
      cbn [open_instruction startline endline instruction value nth].
      split.
      + exists l, kw, rest. split; [apply nth_error_snoc | auto].
      + intros j Hj. replace j with (length pre) by lia.
        exists l. split; [apply nth_error_snoc | exact Hc].
    - intros pre l ci ((line & kw & rest & H1 & H2 & H3) & Hall) Hse Hn Hc.
      cbn [continue_instruction startline endline instruction].
      split.
      + exists line, kw, rest. split; [apply nth_error_app_some, H1 | auto].
      + intros j Hj. destruct (Nat.eq_dec j (length pre)) as [->|Hne].
        * exists l. split; [apply nth_error_snoc | exact Hc].
        * destruct (Hall j) as (lj & Hlj & Hcj); [lia|].
          exists lj. split; [apply nth_error_app_some, Hlj | exact Hcj].
    - intros pre l ci ((line & kw & rest & H1 & H2 & H3) & Hall) Hse Hn Hc.
      cbn [continue_instruction startline endline instruction].
      split; [|split].
      + exists line, kw, rest. split; [apply nth_error_app_some, H1|].
        split; [exact H2|]. split; [exact H3|]. intros Heq. lia.
      + intros j Hj. destruct (Hall j) as (lj & Hlj & Hcj); [lia|].
        exists lj. split; [apply nth_error_app_some, Hlj | exact Hcj].
      + exists l. split; [apply nth_error_snoc | exact Hc]. }
  rewrite Forall_forall in H. exact H.
Qed.

Lemma structure_span_of_lines_witness :
  In {| instruction := "CMD"; startline := 0; endline := 1;
        content := "CMD a " ++ bs ++ nl ++ " b" ++ nl; value := "a  b" |}
     (structure_of two_cmds)
  /\ exists line, nth_error two_cmds 1 = Some line /\ contre_match line = false.
Proof.
  split; [left; reflexivity|].
  apply (structure_span_of_lines two_cmds
           {| instruction := "CMD"; startline := 0; endline := 1;
              content := "CMD a " ++ bs ++ nl ++ " b" ++ nl; value := "a  b" |}).
  left. reflexivity.
Defined.

(* ================================================================== *)
(** ** The lines of the file: reading and writing *)

Section LinesFacts.

Lemma contains_append (c : ascii) (a b : string) :
  contains c (a ++ b) = contains c a || contains c b.
Proof.
  induction a as [|d a IH]; [reflexivity|].
  cbn [append contains]. rewrite IH. apply orb_assoc.
Qed.

Lemma text_lines_cons (l : string) (r : list string) :
  full_line l -> text_lines r -> text_lines (l :: r).
Proof.
  intros Hl Hr. destruct r as [|m r]; [left; exact Hl | split; assumption].
Qed.

Lemma text_lines_inv (l : string) (r : list string) :
  text_lines (l :: r) -> r <> [] -> full_line l /\ text_lines r.
Proof. destruct r as [|m r]; [intros _ H; congruence | intros H _; exact H]. Qed.

Lemma text_lines_tail (l : string) (r : list string) :
  text_lines (l :: r) -> text_lines r.
Proof. destruct r as [|m r]; [intros _; exact I | intros [_ H]; exact H]. Qed.

Lemma readlines_aux_text_lines (s : string) :
  forall cur, contains NL cur = false -> text_lines (readlines_aux cur s).
Proof.
  induction s as [|c s IH]; intros cur Hcur.
  - destruct cur as [|d cur]; [exact I|]. right. split; [discriminate | exact Hcur].
  - cbn [readlines_aux]. destruct (Ascii.eqb_spec c NL) as [->|Hne].
    + apply text_lines_cons; [|apply IH; reflexivity].
      exists cur. split; [reflexivity | exact Hcur].
    + apply IH. rewrite contains_append, Hcur. cbn [contains orb].
      rewrite orb_false_r. destruct (Ascii.eqb_spec NL c); congruence.
Qed.

(** What [readlines] returns are the lines of a text. *)
Lemma readlines_text_lines (s : string) : text_lines (readlines s).
Proof. apply readlines_aux_text_lines. reflexivity. Qed.

Lemma readlines_aux_plain (b : string) :
  contains NL b = false ->
  forall cur s, readlines_aux cur (b ++ s) = readlines_aux (cur ++ b) s.
Proof.
  induction b as [|c b IH]; intros Hb cur s.
  - rewrite append_empty_r. reflexivity.
  - cbn [contains] in Hb. apply orb_false_elim in Hb. destruct Hb as [Hc Hb].
    cbn [append readlines_aux]. rewrite Ascii.eqb_sym, Hc.
    rewrite (IH Hb). rewrite append_char_l. reflexivity.
Qed.

Lemma readlines_full (l : string) (s : string) :
  full_line l -> readlines (l ++ s) = l :: readlines s.
Proof.
  intros (b & -> & Hb). unfold readlines.
  rewrite str_app_assoc, (readlines_aux_plain b Hb). reflexivity.
Qed.

Lemma readlines_partial (l : string) : partial_line l -> readlines l = [l].
Proof.
  intros [Hne Hb]. unfold readlines.
  rewrite <- (append_empty_r l) at 1. rewrite (readlines_aux_plain l Hb).
  cbn [append readlines_aux]. destruct l; [congruence | reflexivity].
Qed.

(** The lines of a text are read back from their concatenation. *)
Lemma readlines_concat (ls : list string) :
  text_lines ls -> readlines (concat_lines ls) = ls.
Proof.
  induction ls as [|l r IH]; intros H; [reflexivity|].
  rewrite concat_lines_cons. destruct r as [|m r].
  - cbn [concat_lines String.concat]. rewrite append_empty_r.
    destruct H as [H|H].
    + rewrite <- (append_empty_r l) at 1. rewrite (readlines_full l _ H). reflexivity.
    + apply readlines_partial, H.
  - destruct H as [Hl Hr]. rewrite (readlines_full _ _ Hl), (IH Hr). reflexivity.
Qed.

Lemma concat_chars (s : string) : concat_lines (chars s) = s.
Proof.
  induction s as [|c s IH]; [reflexivity|].
  cbn [chars]. rewrite concat_lines_cons, IH. reflexivity.
Qed.

End LinesFacts.

(** X7: On a file whose text holds no carriage return, writing back the
    lines that were read leaves the text of the file as it was, and the
    content is the concatenation of the lines. *)
Theorem lines_read_then_written :
  forall (self : DockerfileParser) (text : string) (ls : list string),
    dockerfile self = Some text ->
    no_cr text ->
    lines self = Ok ls ->
    dockerfile (set_lines ls self) = Some text
    /\ content_of self = Ok (concat_lines ls).
Proof.
  intros self text ls Hf _ H. unfold lines, content_of in *. unfold set_lines. simpl.
  rewrite Hf in *. injection H as <-. rewrite concat_readlines. split; reflexivity.
Qed.

Lemma lines_read_then_written_witness :
  no_cr ("FROM x" ++ nl ++ "RUN y")
  /\ lines (parser_of ("FROM x" ++ nl ++ "RUN y")) = Ok ["FROM x" ++ nl; "RUN y"]
  /\ dockerfile (set_lines ["FROM x" ++ nl; "RUN y"] (parser_of ("FROM x" ++ nl ++ "RUN y")))
     = Some ("FROM x" ++ nl ++ "RUN y").
Proof.
  split; [reflexivity|]. split; [reflexivity|].
  apply (lines_read_then_written (parser_of ("FROM x" ++ nl ++ "RUN y"))
           ("FROM x" ++ nl ++ "RUN y") ["FROM x" ++ nl; "RUN y"] eq_refl eq_refl eq_refl).
Defined.

Lemma written_lines_read :
  forall (self : DockerfileParser) (ls : list string),
    lines (set_lines ls self) = Ok (readlines (concat_lines ls))
    /\ (text_lines ls -> lines (set_lines ls self) = Ok ls).
Proof.
  intros self ls. split; [reflexivity|].
  intros H. unfold lines, set_lines. simpl. rewrite (readlines_concat ls H). reflexivity.
Qed.

(** X8: Reading after writing returns the lines written, when they
    hold no carriage return and are the lines of a text: each one ends
    in its only newline, but for the last one, which may have none. *)
Theorem lines_written_then_read :
  forall (self : DockerfileParser) (ls : list string),
    Forall no_cr ls ->
    text_lines ls ->
    lines (set_lines ls self) = Ok ls.
Proof. intros self ls _ H. exact (proj2 (written_lines_read self ls) H). Qed.

Lemma lines_written_then_read_witness :
  Forall no_cr ["FROM x" ++ nl; "RUN y"]
  /\ text_lines ["FROM x" ++ nl; "RUN y"]
  /\ lines (set_lines ["FROM x" ++ nl; "RUN y"] (parser_of EmptyString))
     = Ok ["FROM x" ++ nl; "RUN y"].
Proof.
  assert (Hc : Forall no_cr ["FROM x" ++ nl; "RUN y"])
    by (constructor; [reflexivity | constructor; [reflexivity | constructor]]).
  assert (H : text_lines ["FROM x" ++ nl; "RUN y"]).
  { split; [exists "FROM x"; split; reflexivity|].
    right. split; [discriminate | reflexivity]. }
  split; [exact Hc|]. split; [exact H|].
  exact (lines_written_then_read (parser_of EmptyString) ["FROM x" ++ nl; "RUN y"] Hc H).
Defined.

(* ================================================================== *)
(** ** Files without instructions, appended instructions *)

Section SkipFacts.

Lemma insnre_no_keyword (l : string) :
  match lstrip l with
  | EmptyString => True
  | String c _ => is_word c = false
  end ->
  insnre_match l = None.
Proof.
  intros H. rewrite insnre_match_direct. unfold insnre_direct.
  destruct (lstrip l) as [|c r]; [reflexivity|].
  cbn [span]. rewrite H. reflexivity.
Qed.

Lemma scan_skips (ls : list string) :
  Forall (fun l => insnre_match l = None) ls ->
  forall n st, in_continuation st = false -> scan n ls st = st.
Proof.
  intros H. induction H as [|l r Hl Hr IH]; intros n st Hc; [reflexivity|].
  cbn [scan]. unfold scan_line. rewrite Hc, Hl. apply IH, Hc.
Qed.

Lemma truthy_app_r (a b : string) : truthy b = true -> truthy (a ++ b) = true.
Proof. destruct a; [auto | reflexivity]. Qed.

Lemma new_line_truthy (name : string) (v : add_value) :
  truthy (new_line_of name v) = true.
Proof.
  unfold new_line_of.
  destruct (if name =? "LABEL" then two_items v else None) as [[a b]|];
    apply truthy_app_r; reflexivity.
Qed.

End SkipFacts.

(** X9: A file in which no line starts, after its leading white space, with
    a word character (blank lines, comment lines) has no instruction:
    [structure] returns the empty list. *)
Theorem structure_of_comments :
  forall ls : list string,
    Forall (fun l => match lstrip l with
                     | EmptyString => True
                     | String c _ => is_word c = false
                     end) ls ->
    structure_of ls = [].
Proof.
  intros ls H. unfold structure_of. rewrite scan_skips; [reflexivity| |reflexivity].
  eapply Forall_impl; [|exact H]. intros l Hl. apply insnre_no_keyword, Hl.
Qed.

Lemma structure_of_comments_witness :
  Forall (fun l => match lstrip l with
                   | EmptyString => True
                   | String c _ => is_word c = false
                   end) ["# FROM x " ++ bs ++ nl; nl; "  # RUN y" ++ nl]
  /\ structure_of ["# FROM x " ++ bs ++ nl; nl; "  # RUN y" ++ nl] = [].
Proof.
  assert (H : Forall (fun l => match lstrip l with
                               | EmptyString => True
                               | String c _ => is_word c = false
                               end) ["# FROM x " ++ bs ++ nl; nl; "  # RUN y" ++ nl]).
  { repeat constructor. }
  split; [exact H|].
  apply (structure_of_comments ["# FROM x " ++ bs ++ nl; nl; "  # RUN y" ++ nl]).
  exact H.
Defined.

(** X10: On a file that exists and whose text holds no carriage return,
    [_add_instruction] writes once and leaves the file with the new
    line added to the end of its text, whatever the text ends with;
    on a file that does not exist it raises [IOError] and writes
    nothing.  The strings of the value are of code points below 128
    without carriage return. *)
Theorem add_instruction_appends :
  forall (self : DockerfileParser) (name : string) (v : add_value),
    ascii_value v ->
    (forall text,
        dockerfile self = Some text ->
        no_cr text ->
        _add_instruction name v self
        = (Ok tt,
           {| dockerfile := Some (text ++ new_line_of name v);
              written := (written self
                          ++ [(readlines text ++ chars (new_line_of name v))%list])%list |}))
    /\ (dockerfile self = None ->
        _add_instruction name v self = (Raise IOError, self)).
Proof.
  intros self name v _. unfold _add_instruction. rewrite new_line_truthy.
  unfold bind, read, lines, write, set_lines. split.
  - intros text -> _. rewrite concat_lines_app, concat_readlines, concat_chars.
    reflexivity.
  - intros ->. reflexivity.
Qed.

Lemma add_instruction_appends_witness :
  ascii_value (Text "y")
  /\ dockerfile (parser_of "FROM x") = Some "FROM x"
  /\ no_cr "FROM x"
  /\ dockerfile (snd (_add_instruction "RUN" (Text "y") (parser_of "FROM x")))
     = Some ("FROM xRUN y" ++ nl).
Proof.
  assert (Hv : ascii_value (Text "y")) by (split; reflexivity).
  split; [exact Hv|]. split; [reflexivity|]. split; [reflexivity|].
  destruct (add_instruction_appends (parser_of "FROM x") "RUN" (Text "y") Hv) as [H _].
  rewrite (H "FROM x" eq_refl eq_refl). reflexivity.
Defined.

(* ================================================================== *)
(** ** Replacing the value of an instruction *)

Section ReplaceFacts.

Lemma matches_shift (name : string) (only : option string) (n : nat) (i : Instruction) :
  Spec.matches name only (shift n i) = Spec.matches name only i.
Proof. reflexivity. Qed.

Lemma modify_loop_none (name nv : string) (ov : option string)
    (insns : list Instruction) (self : DockerfileParser) :
  Forall (fun i => Spec.matches name ov i = false) insns ->
  modify_loop name nv ov insns self = (Ok tt, self).
Proof.
  intros H. induction H as [|i r Hi Hr IH]; [reflexivity|].
  cbn [modify_loop]. rewrite matches_passed_over in Hi.
  destruct (instruction i =? name); [|exact IH].
  cbn [andb] in Hi. apply negb_false_iff in Hi. rewrite Hi. exact IH.
Qed.

Lemma modify_loop_skip (name nv : string) (ov : option string)
    (A rest : list Instruction) (self : DockerfileParser) :
  Forall (fun i => Spec.matches name ov i = false) A ->
  modify_loop name nv ov (A ++ rest) self = modify_loop name nv ov rest self.
Proof.
  intros H. induction H as [|i r Hi Hr IH]; [reflexivity|].
  rewrite <- app_comm_cons. cbn [modify_loop]. rewrite matches_passed_over in Hi.
  destruct (instruction i =? name); [|exact IH].
  cbn [andb] in Hi. apply negb_false_iff in Hi. rewrite Hi. exact IH.
Qed.

Lemma modify_loop_one (name nv : string) (ov : option string)
    (A B : list Instruction) (x : Instruction) (self : DockerfileParser)
    (ls : list string) :
  lines self = Ok ls ->
  Spec.matches name ov x = true ->
  Forall (fun i => Spec.matches name ov i = false) A ->
  Forall (fun i => Spec.matches name ov i = false) B ->
  modify_loop name nv ov (A ++ x :: B) self
  = (Ok tt, set_lines (splice (startline x) (endline x) (name ++ " " ++ nv ++ nl) ls) self).
Proof.
  intros Hl Hx HA HB. rewrite (modify_loop_skip _ _ _ _ _ _ HA).
  cbn [modify_loop]. rewrite matches_passed_over in Hx.
  apply andb_prop in Hx. destruct Hx as [Hn Hp]. rewrite Hn.
  apply negb_true_iff in Hp. rewrite Hp.
  unfold bind at 1. unfold bind at 1. unfold read. rewrite Hl.
  unfold write at 1. apply modify_loop_none, HB.
Qed.

Lemma splice_eq (s e : nat) (l : string) (ls : list string) :
  s <= e -> e < length ls ->
  splice s e l ls = (firstn s ls ++ l :: skipn (S e) ls)%list.
Proof.
  intros Hse He. unfold splice, insert, del_slice.
  replace (S e <=? s)%nat with false by (symmetry; apply Nat.leb_gt; lia).
  assert (Hlen : length (firstn s ls) = s) by (rewrite length_firstn; lia).
  rewrite firstn_app, skipn_app, Hlen, Nat.sub_diag.
  rewrite firstn_firstn, Nat.min_id.
  rewrite (skipn_all2 (firstn s ls)) by lia.
  cbn [firstn skipn app]. rewrite app_nil_r. reflexivity.
Qed.

End ReplaceFacts.



Lemma modify_one_written :
  forall (self : DockerfileParser) (text name nv : string) (ov : option string)
         (A B : list Instruction) (x : Instruction),
    dockerfile self = Some text ->
    structure_of (readlines text) = (A ++ x :: B)%list ->
    name <> "LABEL" ->
    Spec.matches name ov x = true ->
    Forall (fun i => Spec.matches name ov i = false) A ->
    Forall (fun i => Spec.matches name ov i = false) B ->
    _modify_instruction name nv ov self
    = (Ok tt,
       set_lines (app (firstn (startline x) (readlines text))
                      ((name ++ " " ++ nv ++ nl)
                       :: skipn (S (endline x)) (readlines text))) self).
Proof.
  intros self text name nv ov A B x Hf Hs Hn Hx HA HB.
  unfold _modify_instruction. apply String.eqb_neq in Hn. rewrite Hn.
  unfold bind, read, structure, lines. rewrite Hf. cbn [rbind]. rewrite Hs.
  rewrite (modify_loop_one name nv ov A B x self (readlines text)); auto.
  - rewrite splice_eq; [reflexivity| |].
    + destruct (structure_of_ordered (readlines text)) as [Ho _].
      apply (ordered_In _ _ _ Ho). rewrite Hs. apply in_elt.
    + destruct (structure_of_ordered (readlines text)) as [_ Hb].
      rewrite Forall_forall in Hb. apply Hb. rewrite Hs. apply in_elt.
  - unfold lines. rewrite Hf. reflexivity.
Qed.



Section LineOfInstruction.

Lemma span_app_all (f : ascii -> bool) (a b : string) :
  str_all f a = true ->
  span f (a ++ b) = (a ++ fst (span f b), snd (span f b)).
Proof.
  induction a as [|c a IH]; intros H.
  - simpl. destruct (span f b); reflexivity.
  - cbn [str_all] in H. apply andb_prop in H. destruct H as [Hc Ha].
    cbn [append span]. rewrite Hc, (IH Ha). reflexivity.
Qed.

Lemma rstrip_cons (c : ascii) (s : string) :
  rstrip (String c s)
  = match rstrip s with
    | EmptyString => if is_space c then EmptyString else String c EmptyString
    | r => String c r
    end.
Proof. reflexivity. Qed.

Lemma rstrip_app_kept (a b : string) :
  truthy (rstrip b) = true -> rstrip (a ++ b) = a ++ rstrip b.
Proof.
  intros Hb. induction a as [|c a IH]; [reflexivity|].
  cbn [append]. rewrite rstrip_cons, IH.
  pose proof (truthy_app_r a (rstrip b) Hb) as Ht.
  destruct (a ++ rstrip b); [discriminate Ht | reflexivity].
Qed.

Lemma rstrip_app_space (a w : string) :
  str_all is_space w = true -> rstrip (a ++ w) = rstrip a.
Proof.
  intros Hw. induction a as [|c a IH].
  - simpl. rewrite str_all_space_rstrip in Hw.
    destruct (rstrip w); [reflexivity | discriminate Hw].
  - cbn [append]. rewrite !rstrip_cons, IH. reflexivity.
Qed.

Lemma endswith_app (c : ascii) (a b : string) :
  truthy b = true -> endswith c (a ++ b) = endswith c b.
Proof.
  intros Hb. induction a as [|d a IH]; [reflexivity|].
  cbn [append]. pose proof (truthy_app_r a b Hb) as Ht.
  destruct (a ++ b) eqn:E; [discriminate Ht|].
  cbn [endswith]. exact IH.
Qed.

Lemma word_not_backslash (c : ascii) : is_word c = true -> Ascii.eqb c BACKSLASH = false.
Proof.
  destruct c as [[|] [|] [|] [|] [|] [|] [|] [|]]; vm_compute; congruence.
Qed.

Lemma rstrip_word (s : string) : str_all is_word s = true -> rstrip s = s.
Proof.
  induction s as [|c s IH]; intros H; [reflexivity|].
  cbn [str_all] in H. apply andb_prop in H. destruct H as [Hc Hs].
  rewrite rstrip_cons, (IH Hs), (word_not_space c Hc). destruct s; reflexivity.
Qed.

Lemma endswith_word (s : string) :
  str_all is_word s = true -> endswith BACKSLASH s = false.
Proof.
  induction s as [|c s IH]; intros H; [reflexivity|].
  cbn [str_all] in H. apply andb_prop in H. destruct H as [Hc Hs].
  destruct s as [|d s]; [exact (word_not_backslash c Hc)|].
  exact (IH Hs).
Qed.

Lemma lstrip_length (s : string) : String.length (lstrip s) <= String.length s.
Proof.
  induction s as [|c s IH]; [reflexivity|].
  cbn [lstrip]. destruct (is_space c); simpl; lia.
Qed.

Lemma lstrip_fixed_head (c : ascii) (s : string) :
  lstrip (String c s) = String c s -> is_space c = false.
Proof.
  cbn [lstrip]. destruct (is_space c); [|reflexivity].
  intros H. pose proof (lstrip_length s) as Hl. rewrite H in Hl. simpl in Hl. lia.
Qed.

Lemma plain_all_dot (s : string) : contains NL s = false -> str_all is_dot s = true.
Proof.
  induction s as [|c s IH]; intros H; [reflexivity|].
  cbn [contains] in H. apply orb_false_elim in H. destruct H as [Hc Hs].
  cbn [str_all]. rewrite (IH Hs). unfold is_dot. rewrite Ascii.eqb_sym, Hc. reflexivity.
Qed.

(** The line that the editor writes for a name and a clean value is an
    instruction of one line with that name and that value. *)
Lemma instruction_line (name v : string) :
  truthy name = true -> str_all is_word name = true -> clean_value v ->
  insnre_match (name ++ " " ++ v ++ nl) = Some [name; v]
  /\ contre_match (name ++ " " ++ v ++ nl) = false
  /\ _rstrip_backslash v = v.
Proof.
  intros Ht Hw (Hnl & Hl & Hr & Hb). split; [|split].
  - rewrite insnre_match_direct. unfold insnre_direct.
    assert (Hls : lstrip (name ++ " " ++ v ++ nl) = name ++ " " ++ v ++ nl).
    { destruct name as [|c n]; [discriminate Ht|].
      cbn [str_all] in Hw. apply andb_prop in Hw. destruct Hw as [Hc _].
      cbn [append lstrip]. rewrite (word_not_space c Hc). reflexivity. }
    rewrite Hls, (span_app_all is_word name _ Hw).
    change (span is_word (" " ++ v ++ nl)) with (EmptyString, " " ++ v ++ nl).
    cbn [fst snd]. rewrite append_empty_r, Ht.
    change (span is_space (" " ++ v ++ nl))
      with (let (a, b) := span is_space (v ++ nl) in (String " " a, b)).
    destruct v as [|c v'].
    + reflexivity.
    + pose proof (lstrip_fixed_head c v' Hl) as Hc.
      cbn [append span]. rewrite Hc. cbn [truthy].
      change (String c (v' ++ nl)) with (String c v' ++ nl).
      rewrite (span_app_all is_dot (String c v') nl (plain_all_dot _ Hnl)).
      change (span is_dot nl) with (EmptyString, nl). cbn [fst snd].
      rewrite append_empty_r. reflexivity.
  - rewrite contre_match_rstrip.
    replace (endswith BACKSLASH (rstrip (name ++ " " ++ v ++ nl))) with false;
      [reflexivity|].
    symmetry. destruct v as [|c v'].
    + change (name ++ " " ++ EmptyString ++ nl) with (name ++ (" " ++ nl)).
      rewrite rstrip_app_space by reflexivity.
      rewrite (rstrip_word name Hw). apply endswith_word, Hw.
    + replace (name ++ " " ++ String c v' ++ nl)
        with ((name ++ " ") ++ (String c v' ++ nl))
        by (rewrite str_app_assoc; reflexivity).
      assert (Hrv : rstrip (String c v' ++ nl) = String c v').
      { rewrite rstrip_app_space by reflexivity. exact Hr. }
      rewrite rstrip_app_kept by (rewrite Hrv; reflexivity).
      rewrite Hrv, endswith_app by reflexivity. exact Hb.
  - unfold _rstrip_backslash. rewrite Hr, Hb. reflexivity.
Qed.

Lemma scan_closed_line (l kw rest : string) :
  insnre_match l = Some [kw; rest] -> contre_match l = false ->
  structure_of [l] = [open_instruction 0 l kw rest]
  /\ in_continuation (scan 0 [l] scan_init) = false.
Proof.
  intros Hm Hc. unfold structure_of. cbn [scan]. unfold scan_line.
  cbn [in_continuation scan_init]. rewrite Hm. unfold close_line. rewrite Hc.
  split; reflexivity.
Qed.

Lemma map_fields_shift (n : nat) (l : list Instruction) :
  map fields (map (shift n) l) = map fields l.
Proof. rewrite map_map. apply map_ext. reflexivity. Qed.

Lemma text_lines_app_full (a b : list string) :
  Forall full_line a -> text_lines b -> text_lines (a ++ b).
Proof.
  intros Ha Hb. induction Ha as [|l r Hl Hr IH]; [exact Hb|].
  rewrite <- app_comm_cons. apply text_lines_cons; assumption.
Qed.

Lemma text_lines_firstn (ls : list string) :
  text_lines ls -> forall k, k < length ls -> Forall full_line (firstn k ls).
Proof.
  induction ls as [|l r IH]; intros H k Hk; [simpl in Hk; lia|].
  destruct k as [|k]; [constructor|]. cbn [firstn].
  simpl in Hk. destruct r as [|m r]; [simpl in Hk; lia|].
  destruct H as [Hl Hr]. constructor; [exact Hl|].
  apply IH; [exact Hr | simpl in *; lia].
Qed.

Lemma text_lines_skipn (ls : list string) :
  text_lines ls -> forall k, text_lines (skipn k ls).
Proof.
  induction ls as [|l r IH]; intros H k.
  - rewrite skipn_nil. exact I.
  - destruct k as [|k]; [exact H|]. cbn [skipn]. apply IH.
    exact (text_lines_tail _ _ H).
Qed.

Lemma full_line_of (b : string) : contains NL b = false -> full_line (b ++ nl).
Proof. intros H. exists b. split; [reflexivity | exact H]. Qed.

End LineOfInstruction.

Section AfterReplace.

Lemma map_shift_shift (a b : nat) (l : list Instruction) :
  map (shift a) (map (shift b) l) = map (shift (a + b)) l.
Proof.
  rewrite map_map. apply map_ext. intros i. unfold shift. simpl. f_equal; lia.
Qed.

Lemma word_plain (s : string) : str_all is_word s = true -> contains NL s = false.
Proof.
  induction s as [|c s IH]; intros H; [reflexivity|].
  cbn [str_all] in H. apply andb_prop in H. destruct H as [Hc Hs].
  cbn [contains]. rewrite (IH Hs), orb_false_r.
  destruct (Ascii.eqb_spec NL c) as [<-|]; [discriminate Hc | reflexivity].
Qed.

(** The structure of a file in which the lines of one instruction are
    replaced by one closed line. *)
Lemma structure_after_replace (ls : list string) (A B : list Instruction)
    (x : Instruction) (L kw rest : string) :
  structure_of ls = (A ++ x :: B)%list ->
  insnre_match L = Some [kw; rest] -> contre_match L = false ->
  exists B',
    structure_of (firstn (startline x) ls ++ L :: skipn (S (endline x)) ls)
    = (A ++ open_instruction (startline x) L kw rest :: B')%list
    /\ map (shift (endline x - startline x)) B' = B.
Proof.
  intros Hs Hm Hc.
  destruct (block_of_instruction ls A x B Hs) as (HA & HAc & _ & _ & HB).
  assert (Hin : In x (structure_of ls)) by (rewrite Hs; apply in_elt).
  destruct (structure_of_ordered ls) as [Ho Hb].
  pose proof (ordered_In _ _ _ Ho Hin) as Hse.
  rewrite Forall_forall in Hb. specialize (Hb x Hin). simpl in Hb.
  destruct (scan_closed_line L kw rest Hm Hc) as [HL HLc].
  exists (map (shift (S (startline x))) (structure_of (skipn (S (endline x)) ls))).
  split.
  - rewrite (structure_app_closed _ _ HAc), HA, length_firstn.
    replace (Init.Nat.min (startline x) (length ls)) with (startline x) by lia.
    change (L :: skipn (S (endline x)) ls) with ([L] ++ skipn (S (endline x)) ls)%list.
    rewrite (structure_app_closed _ _ HLc), HL. cbn [length app map].
    rewrite map_shift_shift. f_equal. f_equal.
    + unfold shift, open_instruction. simpl. f_equal; lia.
    + f_equal. f_equal. lia.
  - rewrite map_shift_shift, <- HB. f_equal. f_equal. lia.
Qed.

Lemma first_value_app (name : string) (A rest : list Instruction) :
  Forall (fun i => (instruction i =? name) = false) A ->
  first_value name (A ++ rest) = first_value name rest.
Proof.
  intros H. induction H as [|i r Hi Hr IH]; [reflexivity|].
  rewrite <- app_comm_cons. cbn [first_value]. rewrite Hi. exact IH.
Qed.

Lemma last_value_none (name : string) (B : list Instruction) :
  Forall (fun i => (instruction i =? name) = false) B ->
  forall v, fold_left (fun v insndesc =>
                         if instruction insndesc =? name
                         then Some (value insndesc) else v) B v = v.
Proof.
  intros H. induction H as [|i r Hi Hr IH]; intros v; [reflexivity|].
  cbn [fold_left]. rewrite Hi. apply IH.
Qed.

Lemma last_value_found (name : string) (A B : list Instruction) (x : Instruction) :
  (instruction x =? name) = true ->
  Forall (fun i => (instruction i =? name) = false) B ->
  last_value name (A ++ x :: B) = Some (value x).
Proof.
  intros Hx HB. unfold last_value. rewrite fold_left_app. cbn [fold_left].
  rewrite Hx. apply last_value_none, HB.
Qed.

Lemma matches_name (name : string) (i : Instruction) :
  Spec.matches name None i = (instruction i =? name).
Proof. unfold Spec.matches. apply andb_true_r. Qed.

Lemma names_of_shift (name : string) (n : nat) (B' : list Instruction) :
  Forall (fun i => (instruction i =? name) = false) (map (shift n) B') ->
  Forall (fun i => (instruction i =? name) = false) B'.
Proof.
  intros H. rewrite Forall_forall in *. intros i Hi.
  apply (H (shift n i)). apply in_map, Hi.
Qed.

End AfterReplace.

Lemma modify_one_structure :
  forall (self : DockerfileParser) (text name nv : string) (ov : option string)
         (A B : list Instruction) (x : Instruction),
    dockerfile self = Some text ->
    structure_of (readlines text) = (A ++ x :: B)%list ->
    name <> "LABEL" ->
    Spec.matches name ov x = true ->
    Forall (fun i => Spec.matches name ov i = false) A ->
    Forall (fun i => Spec.matches name ov i = false) B ->
    clean_value nv ->
    exists B',
      structure (snd (_modify_instruction name nv ov self))
      = Ok (A ++ {| instruction := name;
                    startline := startline x; endline := startline x;
                    content := name ++ " " ++ nv ++ nl;
                    value := nv |} :: B')%list
      /\ map (shift (endline x - startline x)) B' = B.
Proof.
  intros self text name nv ov A B x Hf Hs Hn Hx HA HB Hclean.
  assert (Hin : In x (structure_of (readlines text))) by (rewrite Hs; apply in_elt).
  destruct (instruction_names _ _ Hin) as (Ht & Hw & Hu).
  assert (Hname : instruction x = name).
  { unfold Spec.matches in Hx. apply andb_prop in Hx. destruct Hx as [Hx _].
    apply String.eqb_eq, Hx. }
  rewrite Hname in Ht, Hw, Hu.
  destruct (instruction_line name nv Ht Hw Hclean) as (Hm & Hc & Hv).
  destruct (structure_after_replace _ _ _ _ _ _ _ Hs Hm Hc) as (B' & HS & HB').
  exists B'. split; [|exact HB'].
  rewrite (modify_one_written self text name nv ov A B x Hf Hs Hn Hx HA HB).
  cbn [snd]. unfold structure.
  destruct (written_lines_read self
              (firstn (startline x) (readlines text)
               ++ (name ++ " " ++ nv ++ nl) :: skipn (S (endline x)) (readlines text)))
    as [_ Hread].
  rewrite Hread.
  - cbn [rbind]. rewrite HS. unfold open_instruction. rewrite Hu, Hv. reflexivity.
  - destruct (structure_of_ordered (readlines text)) as [Ho Hb].
    pose proof (ordered_In _ _ _ Ho Hin) as Hse.
    rewrite Forall_forall in Hb. specialize (Hb x Hin). simpl in Hb.
    apply text_lines_app_full.
    + apply text_lines_firstn; [apply readlines_text_lines | lia].
    + apply text_lines_cons; [|apply text_lines_skipn, readlines_text_lines].
      replace (name ++ " " ++ nv ++ nl) with ((name ++ " " ++ nv) ++ nl)
        by (rewrite !str_app_assoc; reflexivity).
      apply full_line_of. rewrite !contains_append, (word_plain name Hw).
      destruct Hclean as [Hp _]. rewrite Hp. reflexivity.
Qed.



Section SetGet.

Lemma none_named_matches (name : string) (insns : list Instruction) :
  none_named name insns ->
  Forall (fun i => Spec.matches name None i = false) insns.
Proof.
  intros H. eapply Forall_impl; [|exact H]. intros i Hi.
  rewrite matches_name. exact Hi.
Qed.

(** The structure after the one instruction named [name] has been given
    a clean value. *)
Lemma structure_after_set (self : DockerfileParser) (text name v : string)
    (A B : list Instruction) (x : Instruction) :
  dockerfile self = Some text ->
  structure_of (readlines text) = (A ++ x :: B)%list ->
  name <> "LABEL" ->
  instruction x = name ->
  none_named name A -> none_named name B ->
  clean_value v ->
  exists x' B',
    fst (_modify_instruction name v None self) = Ok tt
    /\ structure (snd (_modify_instruction name v None self)) = Ok (A ++ x' :: B')%list
    /\ instruction x' = name /\ value x' = v
    /\ none_named name B'.
Proof.
  intros Hf Hs Hn Hx HA HB Hc.
  assert (Hm : Spec.matches name None x = true)
    by (rewrite matches_name, Hx; apply String.eqb_refl).
  pose proof (none_named_matches _ _ HA) as HA'.
  pose proof (none_named_matches _ _ HB) as HB'.
  destruct (modify_one_structure self text name v None A B x Hf Hs Hn Hm HA' HB' Hc)
    as (B' & HS & HBB).
  eexists. exists B'. split; [|split; [exact HS|]].
  - rewrite (modify_one_written self text name v None A B x Hf Hs Hn Hm HA' HB').
    reflexivity.
  - split; [reflexivity|]. split; [reflexivity|].
    rewrite <- HBB in HB. exact (names_of_shift _ _ _ HB).
Qed.

End SetGet.

(** X14: Setting the base image and reading it back: on a file with exactly
    one FROM instruction, after the [baseimage] setter is given a clean
    value, the [baseimage] getter returns that value.  The text of the
    file and the value are of code points below 128 without carriage
    return. *)
Theorem baseimage_set_then_get :
  forall (self : DockerfileParser) (text v : string)
         (A B : list Instruction) (x : Instruction),
    dockerfile self = Some text ->
    ascii_text text ->
    structure_of (readlines text) = (A ++ x :: B)%list ->
    instruction x = "FROM" ->
    none_named "FROM" A -> none_named "FROM" B ->
    clean_value v ->
    ascii_text v ->
    fst (set_baseimage v self) = Ok tt
    /\ baseimage (snd (set_baseimage v self)) = Ok (Some v).
Proof.
  intros self text v A B x Hf _ Hs Hx HA HB Hc _.
  destruct (structure_after_set self text "FROM" v A B x Hf Hs
              ltac:(discriminate) Hx HA HB Hc)
    as (x' & B' & Hok & HS & Hi & Hv & _).
  unfold set_baseimage, baseimage. split; [exact Hok|].
  rewrite HS. cbn [rbind]. rewrite (first_value_app "FROM" A _ HA).
  cbn [first_value]. rewrite Hi, Hv. reflexivity.
Qed.

Lemma baseimage_set_then_get_witness :
  dockerfile (parser_of (concat_lines ["# base" ++ nl; "FROM fedora " ++ bs ++ nl;
                                       "  :41" ++ nl; "RUN x" ++ nl]))
  = Some (concat_lines ["# base" ++ nl; "FROM fedora " ++ bs ++ nl;
                        "  :41" ++ nl; "RUN x" ++ nl])
  /\ ascii_text (concat_lines ["# base" ++ nl; "FROM fedora " ++ bs ++ nl;
                               "  :41" ++ nl; "RUN x" ++ nl])
  /\ clean_value "busybox" /\ ascii_text "busybox"
  /\ baseimage (snd (set_baseimage "busybox"
                       (parser_of (concat_lines ["# base" ++ nl;
                                                 "FROM fedora " ++ bs ++ nl;
                                                 "  :41" ++ nl; "RUN x" ++ nl]))))
     = Ok (Some "busybox").
Proof.
  assert (Ht : ascii_text (concat_lines ["# base" ++ nl; "FROM fedora " ++ bs ++ nl;
                                         "  :41" ++ nl; "RUN x" ++ nl]))
    by (split; reflexivity).
  assert (Hc : clean_value "busybox") by (repeat split).
  assert (Ha : ascii_text "busybox") by (split; reflexivity).
  split; [reflexivity|]. split; [exact Ht|]. split; [exact Hc|]. split; [exact Ha|].
  apply (baseimage_set_then_get
           (parser_of (concat_lines ["# base" ++ nl; "FROM fedora " ++ bs ++ nl;
                                     "  :41" ++ nl; "RUN x" ++ nl]))
           (concat_lines ["# base" ++ nl; "FROM fedora " ++ bs ++ nl;
                          "  :41" ++ nl; "RUN x" ++ nl])
           "busybox" []
           (skipn 1 (structure_of ["# base" ++ nl; "FROM fedora " ++ bs ++ nl;
                                   "  :41" ++ nl; "RUN x" ++ nl]))
           {| instruction := "FROM"; startline := 1; endline := 2;
              content := "FROM fedora " ++ bs ++ nl ++ "  :41" ++ nl;
              value := "fedora   :41" |}
           eq_refl Ht eq_refl eq_refl ltac:(constructor) ltac:(repeat constructor) Hc Ha).
Defined.

(** X15: Setting the command and reading it back: on a file with exactly
    one CMD instruction, after the [cmd] setter is given a clean value,
    the [cmd] getter returns that value.  The text of the file and the
    value are of code points below 128 without carriage return. *)
Theorem cmd_set_then_get :
  forall (self : DockerfileParser) (text v : string)
         (A B : list Instruction) (x : Instruction),
    dockerfile self = Some text ->
    ascii_text text ->
    structure_of (readlines text) = (A ++ x :: B)%list ->
    instruction x = "CMD" ->
    none_named "CMD" A -> none_named "CMD" B ->
    clean_value v ->
    ascii_text v ->
    fst (set_cmd v self) = Ok tt
    /\ cmd (snd (set_cmd v self)) = Ok (Some v).
Proof.
  intros self text v A B x Hf _ Hs Hx HA HB Hc _.
  destruct (structure_after_set self text "CMD" v A B x Hf Hs
              ltac:(discriminate) Hx HA HB Hc)
    as (x' & B' & Hok & HS & Hi & Hv & HB').
  unfold set_cmd, cmd. split; [exact Hok|].
  rewrite HS. cbn [rbind]. rewrite (last_value_found "CMD" A B' x'); [rewrite Hv; reflexivity| |exact HB'].
  rewrite Hi. reflexivity.
Qed.

Lemma cmd_set_then_get_witness :
  dockerfile (parser_of (concat_lines ["FROM x" ++ nl; "CMD a " ++ bs ++ nl; " b" ++ nl]))
  = Some (concat_lines ["FROM x" ++ nl; "CMD a " ++ bs ++ nl; " b" ++ nl])
  /\ ascii_text (concat_lines ["FROM x" ++ nl; "CMD a " ++ bs ++ nl; " b" ++ nl])
  /\ clean_value "run me" /\ ascii_text "run me"
  /\ cmd (snd (set_cmd "run me"
                 (parser_of (concat_lines ["FROM x" ++ nl; "CMD a " ++ bs ++ nl;
                                           " b" ++ nl]))))
     = Ok (Some "run me").
Proof.
  assert (Ht : ascii_text (concat_lines ["FROM x" ++ nl; "CMD a " ++ bs ++ nl; " b" ++ nl]))
    by (split; reflexivity).
  assert (Hc : clean_value "run me") by (repeat split).
  assert (Ha : ascii_text "run me") by (split; reflexivity).
  split; [reflexivity|]. split; [exact Ht|]. split; [exact Hc|]. split; [exact Ha|].
  apply (cmd_set_then_get
           (parser_of (concat_lines ["FROM x" ++ nl; "CMD a " ++ bs ++ nl; " b" ++ nl]))
           (concat_lines ["FROM x" ++ nl; "CMD a " ++ bs ++ nl; " b" ++ nl])
           "run me"
           (firstn 1 (structure_of ["FROM x" ++ nl; "CMD a " ++ bs ++ nl; " b" ++ nl]))
           []
           {| instruction := "CMD"; startline := 1; endline := 2;
              content := "CMD a " ++ bs ++ nl ++ " b" ++ nl;
              value := "a  b" |}
           eq_refl Ht eq_refl eq_refl ltac:(repeat constructor) ltac:(constructor) Hc Ha).
Defined.

(* ================================================================== *)
(** ** The structure after instructions are deleted *)

Section AfterDelete.

Import Spec.

Lemma keep_lines_app (c : nat -> bool) (a b : list string) :
  forall i, keep_lines c i (a ++ b)
            = (keep_lines c i a ++ keep_lines c (i + length a) b)%list.
Proof.
  induction a as [|l a IH]; intros i.
  - simpl. rewrite Nat.add_0_r. reflexivity.
  - cbn [app keep_lines length]. rewrite IH.
    replace (S i + length a) with (i + S (length a)) by lia.
    destruct (c i); reflexivity.
Qed.

Lemma keep_lines_all (c : nat -> bool) (ls : list string) :
  forall i, (forall j, i <= j < i + length ls -> c j = false) ->
            keep_lines c i ls = ls.
Proof.
  induction ls as [|l r IH]; intros i H; [reflexivity|].
  cbn [keep_lines]. rewrite (H i) by (simpl; lia). f_equal.
  apply IH. intros j Hj. apply H. simpl. lia.
Qed.

Lemma keep_lines_drop (c : nat -> bool) (ls : list string) :
  forall i, (forall j, i <= j < i + length ls -> c j = true) ->
            keep_lines c i ls = [].
Proof.
  induction ls as [|l r IH]; intros i H; [reflexivity|].
  cbn [keep_lines]. rewrite (H i) by (simpl; lia).
  apply IH. intros j Hj. apply H. simpl. lia.
Qed.

Lemma keep_lines_moved (c c' : nat -> bool) (n : nat) (ls : list string) :
  (forall j, c' (n + j) = c j) ->
  forall i, keep_lines c' (n + i) ls = keep_lines c i ls.
Proof.
  intros H. induction ls as [|l r IH]; intros i; [reflexivity|].
  cbn [keep_lines]. rewrite H. replace (S (n + i)) with (n + S i) by lia.
  rewrite IH. reflexivity.
Qed.

Lemma covered_shift (n : nat) (insns : list Instruction) (j : nat) :
  covered (map (shift n) insns) (n + j) = covered insns j.
Proof.
  unfold covered.
  induction insns as [|i r IH]; [reflexivity|].
  cbn [map existsb shift startline endline]. rewrite IH. f_equal.
  destruct (Nat.leb_spec (startline i) j), (Nat.leb_spec (n + startline i) (n + j));
    destruct (Nat.leb_spec j (endline i)), (Nat.leb_spec (n + j) (n + endline i));
    try reflexivity; lia.
Qed.

Lemma covered_after (insns : list Instruction) (s j : nat) :
  Forall (fun i => s <= startline i) insns -> j < s -> covered insns j = false.
Proof.
  intros H Hj. unfold covered. induction H as [|i r Hi Hr IH]; [reflexivity|].
  cbn [existsb]. rewrite IH, orb_false_r.
  replace (startline i <=? j)%nat with false by (symmetry; apply Nat.leb_gt; lia).
  reflexivity.
Qed.

Lemma filter_map_shift (f : Instruction -> bool) (n : nat) (l : list Instruction) :
  (forall k i, f (shift k i) = f i) ->
  List.filter f (map (shift n) l) = map (shift n) (List.filter f l).
Proof.
  intros Hf. induction l as [|i r IH]; [reflexivity|].
  cbn [map List.filter]. rewrite Hf, IH. destruct (f i); reflexivity.
Qed.

Lemma lines_in_three (s e : nat) (ls : list string) :
  s <= e -> e < length ls ->
  ls = (firstn s ls ++ span_lines s e ls ++ skipn (S e) ls)%list.
Proof.
  intros Hse He. rewrite app_assoc. unfold span_lines.
  rewrite <- firstn_add. replace (s + (S e - s)) with (S e) by lia.
  symmetry. apply firstn_skipn.
Qed.

Lemma continuation_after_closed (pre rest : list string) :
  in_continuation (scan 0 pre scan_init) = false ->
  in_continuation (scan 0 (pre ++ rest) scan_init)
  = in_continuation (scan 0 rest scan_init).
Proof.
  intros Hc. rewrite scan_app.
  apply (scan_from_closed rest (0 + length pre) _ Hc).
Qed.

Lemma text_lines_keep (c : nat -> bool) (ls : list string) :
  text_lines ls -> forall i, text_lines (keep_lines c i ls).
Proof.
  induction ls as [|l r IH]; intros H i; [exact I|].
  cbn [keep_lines]. destruct r as [|m r].
  - destruct (c i); [exact I | exact H].
  - destruct H as [Hl Hr]. destruct (c i); [apply IH, Hr|].
    apply text_lines_cons; [exact Hl | apply IH, Hr].
Qed.

Lemma Forall_keep (P : string -> Prop) (c : nat -> bool) (ls : list string) :
  Forall P ls -> forall i, Forall P (keep_lines c i ls).
Proof.
  intros H. induction H as [|l r Hl Hr IH]; intros i; [constructor|].
  cbn [keep_lines]. destruct (c i); [apply IH | constructor; [exact Hl | apply IH]].
Qed.

(** Taking the lines of some instructions out of a file takes these
    instructions out of its structure, and nothing else changes but
    the line numbers. *)
Lemma structure_without (f : Instruction -> bool) :
  (forall k i, f (shift k i) = f i) ->
  forall (k : nat) (ls : list string),
    length (structure_of ls) = k ->
    map fields (structure_of (without_spans (List.filter f (structure_of ls)) ls))
    = map fields (List.filter (fun i => negb (f i)) (structure_of ls))
    /\ in_continuation
         (scan 0 (without_spans (List.filter f (structure_of ls)) ls) scan_init)
       = in_continuation (scan 0 ls scan_init).
Proof.
  intros Hf. induction k as [|k IH]; intros ls Hk.
  - destruct (structure_of ls) eqn:E; [|discriminate Hk].
    unfold without_spans. cbn [List.filter].
    rewrite keep_lines_all by reflexivity. rewrite E. split; reflexivity.
  - destruct (structure_of ls) as [|x B] eqn:E; [discriminate Hk|].
    injection Hk as Hk.
    destruct (block_of_instruction ls [] x B E) as (Hpre & Hprec & Hbody & Hbodyc & Hpost).
    assert (Hin : In x (structure_of ls)) by (rewrite E; left; reflexivity).
    destruct (structure_of_ordered ls) as [Ho Hb].
    pose proof (ordered_In _ _ _ Ho Hin) as Hse.
    rewrite Forall_forall in Hb. specialize (Hb x Hin). simpl in Hb.
    rewrite E in Ho. destruct Ho as (_ & _ & HoB).
    destruct (ordered_pairs _ _ HoB) as [HBstart0 _].
    assert (HBstart : Forall (fun i => S (endline x) <= startline i) B).
    { eapply Forall_impl; [|exact HBstart0]. simpl. intros i Hi. lia. }
    clear HBstart0.
    set (s := startline x) in *. set (e := endline x) in *.
    set (pre := firstn s ls) in *. set (body := span_lines s e ls) in *.
    set (post := skipn (S e) ls) in *. set (P := structure_of post) in *.
    assert (Hls : ls = (pre ++ body ++ post)%list) by (apply lines_in_three; lia).
    assert (Hlpre : length pre = s) by (unfold pre; rewrite length_firstn; lia).
    assert (Hlbody : length body = S e - s).
    { unfold body, span_lines. rewrite length_firstn, length_skipn. lia. }
    assert (HP : length P = k) by (rewrite <- Hpost, length_map in Hk; exact Hk).
    destruct (IH post HP) as [IHf IHc]. fold P in IHf, IHc.
    set (M := List.filter f (x :: B)).
    assert (HMstart : Forall (fun i => s <= startline i) M).
    { apply Forall_filter. constructor; [unfold s; lia|].
      eapply Forall_impl; [|exact HBstart]. simpl. intros i Hi. unfold s, e in *. lia. }
    assert (HW : without_spans M ls
                 = (pre ++ (if f x then [] else body)
                    ++ without_spans (List.filter f P) post)%list).
    { unfold without_spans. rewrite Hls at 1. rewrite !keep_lines_app. f_equal; [|f_equal].
      - apply keep_lines_all. intros j Hj. apply (covered_after M s j HMstart). lia.
      - cbn [Nat.add]. rewrite Hlpre. unfold M. cbn [List.filter].
        destruct (f x) eqn:Hfx.
        + apply keep_lines_drop. intros j Hj. unfold covered. cbn [existsb].
          fold s e. replace (s <=? j)%nat with true by (symmetry; apply Nat.leb_le; lia).
          replace (j <=? e)%nat with true by (symmetry; apply Nat.leb_le; lia).
          reflexivity.
        + apply keep_lines_all. intros j Hj.
          apply (covered_after (List.filter f B) (S e) j); [|lia].
          apply Forall_filter. exact HBstart.
      - cbn [Nat.add]. rewrite Hlpre, Hlbody.
        replace (s + (S e - s)) with (S e + 0) by lia.
        apply keep_lines_moved. intros j. unfold M. cbn [List.filter].
        rewrite <- Hpost, (filter_map_shift f (S e) P Hf).
        destruct (f x).
        * unfold covered at 1. cbn [existsb]. fold s e.
          replace (S e + j <=? e)%nat with false by (symmetry; apply Nat.leb_gt; lia).
          rewrite andb_false_r. cbn [orb]. apply covered_shift.
        * apply covered_shift. }
    fold M. rewrite HW.
    assert (Hfilter : map fields (List.filter (fun i => negb (f i)) B)
                      = map fields (List.filter (fun i => negb (f i)) P)).
    { rewrite <- Hpost, filter_map_shift by (intros; rewrite Hf; reflexivity).
      apply map_fields_shift. }
    assert (Hx0 : exists x0, structure_of body = [x0] /\ x = shift s x0).
    { destruct (structure_of body) as [|x0 [|y r]]; try discriminate Hbody.
      exists x0. injection Hbody as Hbody. auto. }
    destruct Hx0 as (x0 & Hx0 & Hxs).
    rewrite (structure_app_closed _ _ Hprec), Hpre, Hlpre. cbn [app].
    rewrite (continuation_after_closed _ _ Hprec).
    rewrite Hls at 1. rewrite (continuation_after_closed pre _ Hprec).
    rewrite (continuation_after_closed body _ Hbodyc).
    cbn [List.filter]. destruct (f x); cbn [negb app].
    + rewrite map_fields_shift, IHf, Hfilter. split; [reflexivity | exact IHc].
    + rewrite (structure_app_closed _ _ Hbodyc), Hx0. cbn [app map].
      rewrite !map_fields_shift, (continuation_after_closed _ _ Hbodyc).
      split; [|exact IHc].
      rewrite IHf, Hfilter, Hxs. reflexivity.
Qed.

End AfterDelete.

Section DeleteState.

Import Spec.

(** The state that [_delete_instructions] leaves: the lines that are
    read from it are the lines without the matching spans. *)
Lemma delete_lines (self : DockerfileParser) (name : string) (only : option string)
    (text : string) :
  dockerfile self = Some text ->
  exists self',
    _delete_instructions name only self = (Ok tt, self')
    /\ lines self'
       = Ok (without_spans (List.filter (matches name only) (structure_of (readlines text)))
               (readlines text))
    /\ (dockerfile self' = None -> False).
Proof.
  intros Hf. unfold _delete_instructions, bind, read, structure, lines.
  rewrite Hf. cbn [rbind].
  destruct (structure_of_ordered (readlines text)) as [Ho Hb].
  rewrite (delete_loop_spec name only _ (readlines text) false 0 Ho Hb).
  cbn [orb]. rewrite existsb_filter.
  destruct (List.filter (matches name only) (structure_of (readlines text)))
    as [|m ms] eqn:E.
  - exists self. split; [reflexivity|]. rewrite Hf. split; [|discriminate].
    unfold without_spans. rewrite keep_lines_all by reflexivity. reflexivity.
  - eexists. split; [reflexivity|]. unfold write, set_lines. cbn [dockerfile].
    split; [|discriminate].
    rewrite readlines_concat; [reflexivity|].
    apply text_lines_keep, readlines_text_lines.
Qed.

End DeleteState.



(* ================================================================== *)
(** ** Labels that the editor writes are labels that the getter reads *)

Section LabelLines.

Import Shlex.

Lemma lex_dquoted (k : string) :
  contains DQUOTE k = false -> contains BACKSLASH k = false ->
  forall (esc : lex_state) (tok : string) (q : bool) (rest : string),
    lex (InQuote DQUOTE) esc tok q (k ++ String DQUOTE rest)
    = lex InWord esc (tok ++ k) true rest.
Proof.
  induction k as [|c k IH]; intros Hq Hb esc tok q rest.
  - cbn [append lex]. rewrite Ascii.eqb_refl, append_empty_r. reflexivity.
  - cbn [contains] in Hq, Hb.
    apply orb_false_elim in Hq. destruct Hq as [Hcq Hq].
    apply orb_false_elim in Hb. destruct Hb as [Hcb Hb].
    cbn [append lex]. unfold is_escape.
    rewrite (Ascii.eqb_sym c DQUOTE), Hcq, (Ascii.eqb_sym c BACKSLASH), Hcb.
    cbn [andb]. rewrite (IH Hq Hb). unfold append_char.
    rewrite append_char_l. reflexivity.
Qed.

Lemma split_label_text (k v : string) :
  contains DQUOTE k = false -> contains BACKSLASH k = false ->
  contains DQUOTE v = false -> contains BACKSLASH v = false ->
  split (label_text k v) = Ok [k ++ "=" ++ v].
Proof.
  intros Hkq Hkb Hvq Hvb. unfold split, label_text.
  change (dq ++ k ++ dq ++ "=" ++ dq ++ v ++ dq)
    with (String DQUOTE (k ++ String DQUOTE (String "=" (String DQUOTE (v ++ String DQUOTE EmptyString))))).
  cbn [lex]. change (is_whitespace DQUOTE) with false.
  change (is_escape DQUOTE) with false. change (is_quote DQUOTE) with true. cbn iota.
  rewrite (lex_dquoted k Hkq Hkb). cbn [append lex].
  change (is_whitespace "=") with false. change (is_quote "=") with false.
  change (is_escape "=") with false. cbn iota.
  change (is_whitespace DQUOTE) with false. change (is_quote DQUOTE) with true. cbn iota.
  rewrite (lex_dquoted v Hvq Hvb). cbn [lex]. unfold emit, append_char.
  rewrite orb_true_r. cbn [rbind]. rewrite str_app_assoc. reflexivity.
Qed.

Lemma split_char1_at (c : ascii) (k v : string) :
  contains c k = false -> split_char1 c (k ++ String c v) = [k; v].
Proof.
  induction k as [|d k IH]; intros H.
  - cbn [append split_char1]. rewrite Ascii.eqb_refl. reflexivity.
  - cbn [contains] in H. apply orb_false_elim in H. destruct H as [Hd Hk].
    cbn [append split_char1]. rewrite (Ascii.eqb_sym d c), Hd, (IH Hk). reflexivity.
Qed.

Lemma label_text_assoc (k v : string) :
  label_text k v = (dq ++ k ++ dq ++ "=" ++ dq ++ v) ++ dq.
Proof. unfold label_text. rewrite !str_app_assoc. reflexivity. Qed.

Lemma label_text_clean (k v : string) :
  contains NL k = false -> contains NL v = false -> clean_value (label_text k v).
Proof.
  intros Hk Hv. split; [|split; [|split]].
  - unfold label_text. rewrite !contains_append, Hk, Hv. reflexivity.
  - reflexivity.
  - rewrite label_text_assoc. apply rstrip_app_kept. reflexivity.
  - rewrite label_text_assoc. rewrite endswith_app by reflexivity. reflexivity.
Qed.

Lemma new_line_of_label (k v : string) :
  new_line_of "LABEL" (Pair k v) = "LABEL" ++ " " ++ label_text k v ++ nl.
Proof.
  unfold new_line_of, label_text. cbn [String.eqb two_items].
  change ("LABEL" =? "LABEL") with true. cbn iota.
  rewrite !str_app_assoc. reflexivity.
Qed.

(** The getter reads the pair back from the instruction. *)
Lemma labels_insn_pair (i : Instruction) (k v : string) (d : dict) :
  plain_key k -> plain v ->
  instruction i = "LABEL" -> value i = label_text k v ->
  labels_insn i d = Ok (dict_set k v d).
Proof.
  intros [(Hkq & Hkb & _) Hke] (Hvq & Hvb & _) Hi Hv.
  unfold labels_insn, _shlex_split. rewrite Hi, Hv.
  change ("LABEL" =? "LABEL") with true. cbn iota.
  rewrite (split_label_text k v Hkq Hkb Hvq Hvb). cbn [rbind].
  rewrite contains_append. change (contains EQUALS ("=" ++ v)) with true.
  rewrite orb_true_r. cbn [negb labels_tokens].
  change (k ++ "=" ++ v) with (k ++ String EQUALS v).
  rewrite (split_char1_at EQUALS k v Hke). reflexivity.
Qed.

Lemma labels_loop_app (a b : list Instruction) :
  forall d, labels_loop (a ++ b) d = rbind (labels_loop a d) (labels_loop b).
Proof.
  induction a as [|i a IH]; intros d; [reflexivity|].
  rewrite <- app_comm_cons. cbn [labels_loop].
  destruct (labels_insn i d) as [d'|e]; [|reflexivity].
  cbn [rbind]. apply IH.
Qed.

Lemma labels_loop_no_label (insns : list Instruction) :
  Forall (fun i => is_label i = false) insns ->
  forall d, labels_loop insns d = Ok d.
Proof.
  intros H. induction H as [|i r Hi Hr IH]; intros d; [reflexivity|].
  cbn [labels_loop]. unfold labels_insn. unfold is_label in Hi. rewrite Hi.
  cbn [rbind]. apply IH.
Qed.

(** One label appended to an appendable file. *)
Lemma add_label_step (self : DockerfileParser) (k v : string) (d : dict) :
  appendable self -> labels self = Ok d -> plain_key k -> plain v ->
  exists self',
    _add_instruction "LABEL" (Pair k v) self = (Ok tt, self')
    /\ appendable self'
    /\ labels self' = Ok (dict_set k v d).
Proof.
  intros (text & Hf & Hfull & Hclosed) Hd Hk Hv.
  assert (Hkn : contains NL k = false) by (destruct Hk as [(_ & _ & H) _]; exact H).
  assert (Hvn : contains NL v = false) by (destruct Hv as (_ & _ & H); exact H).
  pose proof (label_text_clean k v Hkn Hvn) as Hclean.
  destruct (instruction_line "LABEL" (label_text k v) eq_refl eq_refl Hclean)
    as (Hm & Hc & Hrb).
  rewrite <- new_line_of_label in Hm, Hc.
  set (L := new_line_of "LABEL" (Pair k v)) in *.
  assert (HL : full_line L).
  { unfold L. rewrite new_line_of_label.
    replace ("LABEL" ++ " " ++ label_text k v ++ nl)
      with (("LABEL" ++ " " ++ label_text k v) ++ nl)
      by (rewrite !str_app_assoc; reflexivity).
    apply full_line_of. rewrite !contains_append.
    destruct Hclean as [Hp _]. rewrite Hp. reflexivity. }
  assert (Hread : readlines (text ++ L) = (readlines text ++ [L])%list).
  { rewrite <- (concat_readlines text) at 1.
    replace (concat_lines (readlines text) ++ L)
      with (concat_lines (readlines text ++ [L]))
      by (rewrite concat_lines_app; reflexivity).
    apply readlines_concat. apply text_lines_app_full; [exact Hfull|].
    left. exact HL. }
  destruct (scan_closed_line L _ _ Hm Hc) as [HSL HcL].
  unfold _add_instruction. fold L. unfold L at 1. rewrite new_line_truthy.
  unfold bind, read, lines, write, set_lines. rewrite Hf.
  eexists. split; [reflexivity|]. split.
  - eexists. cbn [dockerfile]. split; [reflexivity|].
    rewrite concat_lines_app, concat_readlines, concat_chars, Hread. split.
    + apply Forall_app. split; [exact Hfull | constructor; [exact HL | constructor]].
    + rewrite (continuation_after_closed _ _ Hclosed). exact HcL.
  - unfold labels, structure, lines in *. cbn [dockerfile].
    rewrite Hf in Hd. cbn [rbind] in Hd.
    rewrite concat_lines_app, concat_readlines, concat_chars, Hread. cbn [rbind].
    rewrite (structure_app_closed _ _ Hclosed), labels_loop_app, Hd. cbn [rbind].
    rewrite HSL. cbn [map labels_loop].
    rewrite (labels_insn_pair _ k v d Hk Hv); [reflexivity|reflexivity|].
    cbn [shift open_instruction value]. exact Hrb.
Qed.

Lemma add_labels_steps (items : dict) :
  Forall (fun kv => plain_key (fst kv) /\ plain (snd kv)) items ->
  forall (self : DockerfileParser) (d : dict),
    appendable self -> labels self = Ok d ->
    exists self',
      for_each (fun kv => _add_instruction "LABEL" (Pair (fst kv) (snd kv))) items self
      = (Ok tt, self')
      /\ appendable self'
      /\ labels self' = Ok (Spec.set_all items d).
Proof.
  intros H. induction H as [|[k v] r [Hk Hv] Hr IH]; intros self d Ha Hd.
  - exists self. split; [reflexivity|]. split; assumption.
  - destruct (add_label_step self k v d Ha Hd Hk Hv) as (self1 & H1 & Ha1 & Hd1).
    destruct (IH self1 _ Ha1 Hd1) as (self2 & H2 & Ha2 & Hd2).
    exists self2. cbn [for_each]. unfold bind. cbn [fst snd]. rewrite H1.
    split; [exact H2|]. split; assumption.
Qed.

Lemma dict_set_fresh (k v : string) (d : dict) :
  dict_get k d = None -> dict_set k v d = (d ++ [(k, v)])%list.
Proof.
  induction d as [|[k' v'] r IH]; intros H; [reflexivity|].
  cbn [dict_get] in H. cbn [dict_set app].
  destruct (k' =? k); [discriminate H|]. rewrite (IH H). reflexivity.
Qed.

Lemma dict_get_snoc (k k' v : string) (d : dict) :
  dict_get k d = None -> k' <> k -> dict_get k (d ++ [(k', v)])%list = None.
Proof.
  intros Hd Hne. induction d as [|[k0 v0] r IH].
  - simpl. apply String.eqb_neq in Hne. rewrite Hne. reflexivity.
  - cbn [dict_get app] in *. destruct (k0 =? k); [discriminate Hd | exact (IH Hd)].
Qed.

Lemma set_all_fresh (items : dict) :
  NoDup (map fst items) ->
  forall d, (forall k, In k (map fst items) -> dict_get k d = None) ->
            Spec.set_all items d = (d ++ items)%list.
Proof.
  intros Hn. induction items as [|[k v] r IH]; intros d Hd.
  - simpl. rewrite app_nil_r. reflexivity.
  - cbn [map fst] in Hn. inversion Hn as [|? ? Hk Hr]; subst.
    change (Spec.set_all ((k, v) :: r) d) with (Spec.set_all r (dict_set k v d)).
    rewrite (dict_set_fresh k v d) by (apply Hd; left; reflexivity).
    rewrite (IH Hr).
    + rewrite <- app_assoc. reflexivity.
    + intros k' Hk'. apply dict_get_snoc.
      * apply Hd. right. exact Hk'.
      * intros ->. apply Hk. exact Hk'.
Qed.

Lemma not_label_of_fields (S' T : list Instruction) :
  map fields S' = map fields T ->
  Forall (fun i => is_label i = false) T ->
  Forall (fun i => is_label i = false) S'.
Proof.
  revert T. induction S' as [|a S' IH]; intros [|b T] H HT; try discriminate H;
    [constructor|].
  cbn [map] in H. inversion H as [[Hname Hvalue Hcontent Hrest]].
  inversion HT as [|? ? Hb HT']; subst.
  constructor; [|exact (IH T Hrest HT')].
  unfold is_label in *. rewrite Hname. exact Hb.
Qed.

End LabelLines.

(** X17: A label appended by [_add_instruction] is read back: on a file
    whose last line ends in a newline and whose scan does not end in a
    continuation, after the pair of a key and a value without double
    quote, backslash and newline (and no equals sign in the key) is
    added as a LABEL instruction, the [labels] getter returns the
    former mapping with the key set to the value.  The text of the
    file, the key and the value are of code points below 128 without
    carriage return. *)
Theorem add_label_then_get :
  forall (self : DockerfileParser) (text k v : string) (d : dict),
    dockerfile self = Some text ->
    ascii_text text ->
    Forall full_line (readlines text) ->
    in_continuation (scan 0 (readlines text) scan_init) = false ->
    labels self = Ok d ->
    plain_key k -> plain v ->
    ascii_text k -> ascii_text v ->
    fst (_add_instruction "LABEL" (Pair k v) self) = Ok tt
    /\ labels (snd (_add_instruction "LABEL" (Pair k v) self)) = Ok (dict_set k v d).
Proof.
  intros self text k v d Hf _ Hfull Hclosed Hd Hk Hv _ _.
  assert (Ha : appendable self) by (exists text; auto).
  destruct (add_label_step self k v d Ha Hd Hk Hv) as (self' & H1 & _ & H2).
  rewrite H1. split; [reflexivity | exact H2].
Qed.

Lemma add_label_then_get_witness :
  dockerfile (parser_of ("FROM x" ++ nl)) = Some ("FROM x" ++ nl)
  /\ ascii_text ("FROM x" ++ nl)
  /\ labels (parser_of ("FROM x" ++ nl)) = Ok []
  /\ plain_key "a b" /\ plain "c d"
  /\ ascii_text "a b" /\ ascii_text "c d"
  /\ labels (snd (_add_instruction "LABEL" (Pair "a b" "c d") (parser_of ("FROM x" ++ nl))))
     = Ok [("a b", "c d")].
Proof.
  assert (Ht : ascii_text ("FROM x" ++ nl)) by (split; reflexivity).
  assert (Hfull : Forall full_line (readlines ("FROM x" ++ nl))).
  { constructor; [|constructor]. exists "FROM x". split; reflexivity. }
  assert (Hk : plain_key "a b") by (repeat split).
  assert (Hv : plain "c d") by (repeat split).
  assert (Hak : ascii_text "a b") by (split; reflexivity).
  assert (Hav : ascii_text "c d") by (split; reflexivity).
  split; [reflexivity|]. split; [exact Ht|]. split; [reflexivity|].
  split; [exact Hk|]. split; [exact Hv|]. split; [exact Hak|]. split; [exact Hav|].
  apply (add_label_then_get (parser_of ("FROM x" ++ nl)) ("FROM x" ++ nl) "a b" "c d" []
           eq_refl Ht Hfull eq_refl eq_refl Hk Hv Hak Hav).
Defined.

Section SetLabels.

Lemma delete_labels_state (self : DockerfileParser) (text : string) :
  dockerfile self = Some text ->
  Forall full_line (readlines text) ->
  in_continuation (scan 0 (readlines text) scan_init) = false ->
  exists self',
    _delete_instructions "LABEL" None self = (Ok tt, self')
    /\ appendable self'
    /\ labels self' = Ok [].
Proof.
  intros Hf Hfull Hclosed.
  destruct (delete_lines self "LABEL" None text Hf) as (self' & Hd & Hl & Hex).
  exists self'. split; [exact Hd|].
  destruct (structure_without (Spec.matches "LABEL" None) (matches_shift "LABEL" None)
              _ (readlines text) eq_refl) as [Hfields Hcont].
  set (W := Spec.without_spans
              (List.filter (Spec.matches "LABEL" None) (structure_of (readlines text)))
              (readlines text)) in *.
  unfold lines in Hl. destruct (dockerfile self') as [t1|] eqn:Ht1; [|discriminate Hl].
  injection Hl as Hl. split.
  - exists t1. split; [exact Ht1|]. rewrite Hl. split.
    + apply Forall_keep, Hfull.
    + rewrite Hcont. exact Hclosed.
  - unfold labels, structure, lines. rewrite Ht1, Hl. cbn [rbind].
    apply labels_loop_no_label.
    apply (not_label_of_fields _ _ Hfields).
    apply Forall_forall. intros i Hi. apply filter_In in Hi. destruct Hi as [_ Hi].
    rewrite matches_name in Hi. unfold is_label.
    destruct (instruction i =? "LABEL"); [discriminate Hi | reflexivity].
Qed.

End SetLabels.

(** X18: Setting the labels and reading them back: on a file whose last line
    ends in a newline and whose scan does not end in a continuation,
    after the [labels] setter is given a dict of keys and values without
    double quote, backslash and newline (and no equals sign in a key),
    the [labels] getter returns the mapping built from the items in
    their order, which is the dict itself when its keys are distinct.
    The text of the file, the keys and the values are of code points
    below 128 without carriage return. *)
Theorem set_labels_then_get :
  forall (self : DockerfileParser) (text : string) (items : dict),
    dockerfile self = Some text ->
    ascii_text text ->
    Forall full_line (readlines text) ->
    in_continuation (scan 0 (readlines text) scan_init) = false ->
    Forall (fun kv => plain_key (fst kv) /\ plain (snd kv)) items ->
    Forall (fun kv => ascii_text (fst kv) /\ ascii_text (snd kv)) items ->
    fst (set_labels (PyDict items) self) = Ok tt
    /\ labels (snd (set_labels (PyDict items) self)) = Ok (Spec.set_all items [])
    /\ (NoDup (map fst items) ->
        labels (snd (set_labels (PyDict items) self)) = Ok items).
Proof.
  intros self text items Hf _ Hfull Hclosed Hitems _.
  destruct (delete_labels_state self text Hf Hfull Hclosed) as (self1 & Hd & Ha & Hl).
  destruct (add_labels_steps items Hitems self1 [] Ha Hl) as (self2 & Hadd & _ & Hl2).
  unfold set_labels, bind. rewrite Hd, Hadd. cbn [fst snd].
  split; [reflexivity|]. split; [exact Hl2|].
  intros Hn. rewrite Hl2. f_equal.
  apply (set_all_fresh items Hn []). reflexivity.
Qed.

Lemma set_labels_then_get_witness :
  dockerfile (parser_of (concat_lines two_labels_kv)) = Some (concat_lines two_labels_kv)
  /\ ascii_text (concat_lines two_labels_kv)
  /\ labels (snd (set_labels (PyDict [("b", "1 2"); ("c", "x=y")])
                    (parser_of (concat_lines two_labels_kv))))
     = Ok [("b", "1 2"); ("c", "x=y")].
Proof.
  assert (Ht : ascii_text (concat_lines two_labels_kv)) by (split; reflexivity).
  split; [reflexivity|]. split; [exact Ht|].
  apply (set_labels_then_get (parser_of (concat_lines two_labels_kv))
           (concat_lines two_labels_kv) [("b", "1 2"); ("c", "x=y")] eq_refl Ht).
  - repeat constructor; eexists; split; reflexivity.
  - reflexivity.
  - repeat constructor.
  - repeat constructor.
  - repeat constructor; simpl; intuition discriminate.
Defined.

(* ================================================================== *)
(** ** A file that does not exist *)

(** X19: On a file that does not exist every getter raises [IOError], and so
    does every editing method that reads the file before it writes:
    [_modify_instruction] for a name other than LABEL,
    [_modify_instruction_label], [_delete_instructions], the [labels]
    setter given a dict and [change_labels] given a dict with an item.
    None of them writes. *)
Theorem missing_file_raises :
  forall (self : DockerfileParser) (name v : string) (ov : option string) (items : dict),
    dockerfile self = None ->
    lines self = Raise IOError
    /\ content_of self = Raise IOError
    /\ structure self = Raise IOError
    /\ baseimage self = Raise IOError
    /\ cmd self = Raise IOError
    /\ labels self = Raise IOError
    /\ (name <> "LABEL" -> _modify_instruction name v ov self = (Raise IOError, self))
    /\ _modify_instruction_label name v self = (Raise IOError, self)
    /\ _delete_instructions name ov self = (Raise IOError, self)
    /\ set_labels (PyDict items) self = (Raise IOError, self)
    /\ (items <> [] -> change_labels (PyDict items) self = (Raise IOError, self)).
Proof.
  intros self name v ov items Hf.
  assert (Hl : lines self = Raise IOError) by (unfold lines; rewrite Hf; reflexivity).
  assert (Hs : structure self = Raise IOError) by (unfold structure; rewrite Hl; reflexivity).
  assert (Hlab : labels self = Raise IOError) by (unfold labels; rewrite Hs; reflexivity).
  assert (Hml : forall k w, _modify_instruction_label k w self = (Raise IOError, self)).
  { intros k w. unfold _modify_instruction_label, bind, read. rewrite Hlab. reflexivity. }
  assert (Hdel : forall n o, _delete_instructions n o self = (Raise IOError, self)).
  { intros n o. unfold _delete_instructions, bind, read. rewrite Hl. reflexivity. }
  repeat split; try assumption.
  - unfold content_of. rewrite Hf. reflexivity.
  - unfold baseimage. rewrite Hs. reflexivity.
  - unfold cmd. rewrite Hs. reflexivity.
  - intros Hn. unfold _modify_instruction. apply String.eqb_neq in Hn. rewrite Hn.
    unfold bind, read. rewrite Hs. reflexivity.
  - apply Hml.
  - apply Hdel.
  - unfold set_labels, bind. rewrite Hdel. reflexivity.
  - intros Hi. destruct items as [|[k w] r]; [congruence|].
    unfold change_labels. cbn [for_each fst snd]. unfold bind. rewrite Hml. reflexivity.
Qed.

Lemma missing_file_raises_witness :
  dockerfile (mkParser None []) = None
  /\ baseimage (mkParser None []) = Raise IOError
  /\ set_cmd "x" (mkParser None []) = (Raise IOError, mkParser None []).
Proof.
  split; [reflexivity|].
  destruct (missing_file_raises (mkParser None []) "CMD" "x" None [] eq_refl)
    as (_ & _ & _ & Hb & _ & _ & Hm & _).
  split; [exact Hb|]. apply Hm. discriminate.
Defined.

(* ================================================================== *)
(** ** Deleting twice *)

Section DeleteTwice.

Lemma delete_instructions_state (self : DockerfileParser) (name : string)
    (only : option string) (text : string) :
  dockerfile self = Some text ->
  List.filter (Spec.matches name only) (structure_of (readlines text)) = [] ->
  _delete_instructions name only self = (Ok tt, self).
Proof.
  intros Hf Hnone. unfold _delete_instructions, bind, read, structure, lines.
  rewrite Hf. cbn [rbind].
  destruct (structure_of_ordered (readlines text)) as [Ho Hb].
  rewrite (delete_loop_spec name only _ (readlines text) false 0 Ho Hb).
  cbn [orb]. rewrite existsb_filter, Hnone. reflexivity.
Qed.

Lemma filter_of_fields (name : string) (only : option string)
    (S' T : list Instruction) :
  map fields S' = map fields T ->
  Forall (fun i => Spec.matches name only i = false) T ->
  List.filter (Spec.matches name only) S' = [].
Proof.
  revert T. induction S' as [|a S' IH]; intros T H HT; [reflexivity|].
  destruct T as [|b T]; [discriminate H|].
  cbn [map] in H. inversion H as [[Hname Hvalue Hcontent Hrest]].
  inversion HT as [|? ? Hb HT']; subst.
  cbn [List.filter].
  replace (Spec.matches name only a) with (Spec.matches name only b)
    by (unfold Spec.matches; rewrite Hname, Hvalue; reflexivity).
  rewrite Hb. exact (IH T Hrest HT').
Qed.

End DeleteTwice.

(** X20: [_delete_instructions] a second time, with the same name and
    filter, finds nothing to delete: it returns and leaves the parser
    as the first call left it, with no further write. *)
Theorem delete_twice :
  forall (self : DockerfileParser) (name : string) (only : option string)
         (text : string),
    dockerfile self = Some text ->
    _delete_instructions name only (snd (_delete_instructions name only self))
    = (Ok tt, snd (_delete_instructions name only self)).
Proof.
  intros self name only text Hf.
  destruct (delete_lines self name only text Hf) as (self' & Hd & Hl & _).
  rewrite Hd. cbn [snd].
  unfold lines in Hl. destruct (dockerfile self') as [t1|] eqn:Ht1; [|discriminate Hl].
  injection Hl as Hl.
  apply (delete_instructions_state self' name only t1 Ht1).
  rewrite Hl.
  destruct (structure_without (Spec.matches name only) (matches_shift name only)
              _ (readlines text) eq_refl) as [Hfields _].
  apply (filter_of_fields name only _ _ Hfields).
  apply Forall_forall. intros i Hi. apply filter_In in Hi. destruct Hi as [_ Hi].
  destruct (Spec.matches name only i); [discriminate Hi | reflexivity].
Qed.

Lemma delete_twice_witness :
  dockerfile (parser_of (concat_lines two_cmds)) = Some (concat_lines two_cmds)
  /\ written (snd (_delete_instructions "CMD" None
                     (snd (_delete_instructions "CMD" None
                             (parser_of (concat_lines two_cmds))))))
     = written (snd (_delete_instructions "CMD" None (parser_of (concat_lines two_cmds)))).
Proof.
  split; [reflexivity|].
  rewrite (delete_twice (parser_of (concat_lines two_cmds)) "CMD" None
             (concat_lines two_cmds) eq_refl).
  reflexivity.
Defined.

(* ================================================================== *)
(** ** What a setter leaves alone *)

Section OtherNames.

Lemma first_value_shift (name : string) (n : nat) (l : list Instruction) :
  first_value name (map (shift n) l) = first_value name l.
Proof.
  induction l as [|a l IH]; [reflexivity|].
  cbn [map first_value shift instruction value]. rewrite IH. reflexivity.
Qed.

Lemma first_value_other (name : string) (A R R' : list Instruction) :
  first_value name R = first_value name R' ->
  first_value name (A ++ R) = first_value name (A ++ R').
Proof.
  intros H. induction A as [|a A IH]; [exact H|].
  cbn [app first_value]. rewrite IH. reflexivity.
Qed.

Lemma last_value_fold_shift (name : string) (n : nat) (l : list Instruction) :
  forall acc,
    fold_left (fun v insndesc =>
                 if instruction insndesc =? name then Some (value insndesc) else v)
              (map (shift n) l) acc
    = fold_left (fun v insndesc =>
                   if instruction insndesc =? name then Some (value insndesc) else v)
                l acc.
Proof.
  induction l as [|a l IH]; intros acc; [reflexivity|].
  cbn [map fold_left shift instruction value]. apply IH.
Qed.

Lemma modify_keeps_others (self : DockerfileParser) (text name v : string)
    (A B : list Instruction) (x : Instruction) :
  dockerfile self = Some text ->
  structure_of (readlines text) = (A ++ x :: B)%list ->
  name <> "LABEL" ->
  instruction x = name ->
  none_named name A -> none_named name B ->
  clean_value v ->
  exists insns,
    structure (snd (_modify_instruction name v None self)) = Ok insns
    /\ forall other,
         other <> name ->
         first_value other insns = first_value other (A ++ x :: B)
         /\ last_value other insns = last_value other (A ++ x :: B).
Proof.
  intros Hf Hs Hn Hx HA HB Hc.
  assert (Hm : Spec.matches name None x = true)
    by (rewrite matches_name, Hx; apply String.eqb_refl).
  destruct (modify_one_structure self text name v None A B x Hf Hs Hn Hm
              (none_named_matches _ _ HA) (none_named_matches _ _ HB) Hc)
    as (B' & HS & HBB).
  eexists. split; [exact HS|].
  intros other Ho.
  assert (Hno : (name =? other) = false) by (apply String.eqb_neq; congruence).
  split.
  - apply first_value_other. cbn [first_value instruction].
    rewrite Hx, Hno, <- HBB. symmetry. apply first_value_shift.
  - unfold last_value. rewrite !fold_left_app. cbn [fold_left instruction].
    rewrite Hx, Hno, <- HBB. symmetry. apply last_value_fold_shift.
Qed.

End OtherNames.

(** X21: The setters leave the other getter alone.  When the file has one
    CMD instruction, after the [cmd] setter is given a clean value the
    [baseimage] getter returns what it returned before; and when the
    file has one FROM instruction, after the [baseimage] setter is
    given a clean value the [cmd] getter returns what it returned
    before.  The text of the file and the value are of code points
    below 128 without carriage return. *)
Theorem setter_keeps_other_getter :
  forall (self : DockerfileParser) (text v : string)
         (A B : list Instruction) (x : Instruction),
    dockerfile self = Some text ->
    ascii_text text ->
    structure_of (readlines text) = (A ++ x :: B)%list ->
    none_named (instruction x) A -> none_named (instruction x) B ->
    clean_value v ->
    ascii_text v ->
    (instruction x = "CMD" -> baseimage (snd (set_cmd v self)) = baseimage self)
    /\ (instruction x = "FROM" -> cmd (snd (set_baseimage v self)) = cmd self).
Proof.
  intros self text v A B x Hf _ Hs HA HB Hc _. split; intros Hx; rewrite Hx in HA, HB.
  - destruct (modify_keeps_others self text "CMD" v A B x Hf Hs
                ltac:(discriminate) Hx HA HB Hc) as (insns & HS & Hk).
    unfold baseimage, set_cmd. rewrite HS. unfold structure, lines. rewrite Hf.
    cbn [rbind]. rewrite Hs.
    destruct (Hk "FROM" ltac:(discriminate)) as [H1 _]. rewrite H1. reflexivity.
  - destruct (modify_keeps_others self text "FROM" v A B x Hf Hs
                ltac:(discriminate) Hx HA HB Hc) as (insns & HS & Hk).
    unfold cmd, set_baseimage. rewrite HS. unfold structure, lines. rewrite Hf.
    cbn [rbind]. rewrite Hs.
    destruct (Hk "CMD" ltac:(discriminate)) as [_ H2]. rewrite H2. reflexivity.
Qed.

Lemma setter_keeps_other_getter_witness :
  dockerfile (parser_of ("FROM x" ++ nl ++ "CMD a" ++ nl)) = Some ("FROM x" ++ nl ++ "CMD a" ++ nl)
  /\ ascii_text ("FROM x" ++ nl ++ "CMD a" ++ nl)
  /\ clean_value "z" /\ ascii_text "z"
  /\ baseimage (snd (set_cmd "z" (parser_of ("FROM x" ++ nl ++ "CMD a" ++ nl))))
     = Ok (Some "x").
Proof.
  assert (Ht : ascii_text ("FROM x" ++ nl ++ "CMD a" ++ nl)) by (split; reflexivity).
  assert (Hc : clean_value "z") by (repeat split).
  assert (Ha : ascii_text "z") by (split; reflexivity).
  split; [reflexivity|]. split; [exact Ht|]. split; [exact Hc|]. split; [exact Ha|].
  destruct (setter_keeps_other_getter (parser_of ("FROM x" ++ nl ++ "CMD a" ++ nl))
              ("FROM x" ++ nl ++ "CMD a" ++ nl) "z"
              [{| instruction := "FROM"; startline := 0; endline := 0;
                  content := "FROM x" ++ nl; value := "x" |}]
              []
              {| instruction := "CMD"; startline := 1; endline := 1;
                 content := "CMD a" ++ nl; value := "a" |}
              eq_refl Ht eq_refl ltac:(repeat constructor) ltac:(constructor) Hc Ha)
    as [H _].
  rewrite (H eq_refl). reflexivity.
Defined.

(* ================================================================== *)
(** ** An instruction added to the end of the file *)

Section AddText.

Lemma new_line_of_text (name v : string) :
  name <> "LABEL" -> new_line_of name (Text v) = name ++ " " ++ v ++ nl.
Proof.
  intros Hn. unfold new_line_of. apply String.eqb_neq in Hn. rewrite Hn. reflexivity.
Qed.

Lemma add_text_step (self : DockerfileParser) (text name v : string) :
  dockerfile self = Some text ->
  Forall full_line (readlines text) ->
  in_continuation (scan 0 (readlines text) scan_init) = false ->
  name <> "LABEL" -> truthy name = true -> str_all is_word name = true ->
  clean_value v ->
  fst (_add_instruction name (Text v) self) = Ok tt
  /\ structure (snd (_add_instruction name (Text v) self))
     = Ok (structure_of (readlines text)
           ++ [{| instruction := upper name;
                  startline := length (readlines text);
                  endline := length (readlines text);
                  content := name ++ " " ++ v ++ nl;
                  value := v |}])%list.
Proof.
  intros Hf Hfull Hclosed Hn Ht Hw Hclean.
  destruct (instruction_line name v Ht Hw Hclean) as (Hm & Hc & Hrb).
  rewrite <- (new_line_of_text name v Hn) in Hm, Hc.
  set (L := new_line_of name (Text v)) in *.
  assert (HL : full_line L).
  { unfold L. rewrite (new_line_of_text name v Hn).
    replace (name ++ " " ++ v ++ nl) with ((name ++ " " ++ v) ++ nl)
      by (rewrite !str_app_assoc; reflexivity).
    apply full_line_of. rewrite !contains_append, (word_plain name Hw).
    destruct Hclean as [Hp _]. rewrite Hp. reflexivity. }
  assert (Hread : readlines (text ++ L) = (readlines text ++ [L])%list).
  { rewrite <- (concat_readlines text) at 1.
    replace (concat_lines (readlines text) ++ L)
      with (concat_lines (readlines text ++ [L]))
      by (rewrite concat_lines_app; reflexivity).
    apply readlines_concat. apply text_lines_app_full; [exact Hfull|].
    left. exact HL. }
  destruct (scan_closed_line L _ _ Hm Hc) as [HSL _].
  unfold _add_instruction. fold L. unfold L at 1 3. rewrite new_line_truthy.
  unfold bind, read, lines, write, set_lines. rewrite Hf. cbn [fst snd].
  split; [reflexivity|].
  unfold structure, lines. cbn [dockerfile].
  rewrite concat_lines_app, concat_readlines, concat_chars, Hread. cbn [rbind].
  rewrite (structure_app_closed _ _ Hclosed), HSL. cbn [map].
  unfold shift, open_instruction. cbn [instruction startline endline content value].
  rewrite Hrb, Nat.add_0_r. unfold L. rewrite (new_line_of_text name v Hn).
  reflexivity.
Qed.

End AddText.

(** X22: On a file whose lines all end in a newline and whose scan does not
    end in a continuation, [_add_instruction] with a name of word
    characters other than LABEL and a clean text value adds one
    instruction to the end of the structure: its name in upper case,
    on the line after the last one, with the given value.  The text of
    the file and the value are of code points below 128 without
    carriage return. *)
Theorem add_instruction_then_structure :
  forall (self : DockerfileParser) (text name v : string),
    dockerfile self = Some text ->
    ascii_text text ->
    Forall full_line (readlines text) ->
    in_continuation (scan 0 (readlines text) scan_init) = false ->
    name <> "LABEL" -> truthy name = true -> str_all is_word name = true ->
    clean_value v ->
    ascii_text v ->
    fst (_add_instruction name (Text v) self) = Ok tt
    /\ structure (snd (_add_instruction name (Text v) self))
       = Ok (structure_of (readlines text)
             ++ [{| instruction := upper name;
                    startline := length (readlines text);
                    endline := length (readlines text);
                    content := name ++ " " ++ v ++ nl;
                    value := v |}])%list.
Proof.
  intros self text name v Hf _ Hfull Hclosed Hn Ht Hw Hc _.
  exact (add_text_step self text name v Hf Hfull Hclosed Hn Ht Hw Hc).
Qed.

Lemma add_instruction_then_structure_witness :
  dockerfile (parser_of ("FROM x" ++ nl)) = Some ("FROM x" ++ nl)
  /\ ascii_text ("FROM x" ++ nl)
  /\ clean_value "a b" /\ ascii_text "a b"
  /\ structure (snd (_add_instruction "run" (Text "a b") (parser_of ("FROM x" ++ nl))))
     = Ok [{| instruction := "FROM"; startline := 0; endline := 0;
              content := "FROM x" ++ nl; value := "x" |};
           {| instruction := "RUN"; startline := 1; endline := 1;
              content := "run a b" ++ nl; value := "a b" |}].
Proof.
  assert (Ht : ascii_text ("FROM x" ++ nl)) by (split; reflexivity).
  assert (Hc : clean_value "a b") by (repeat split).
  assert (Ha : ascii_text "a b") by (split; reflexivity).
  split; [reflexivity|]. split; [exact Ht|]. split; [exact Hc|]. split; [exact Ha|].
  apply (add_instruction_then_structure (parser_of ("FROM x" ++ nl)) ("FROM x" ++ nl)
           "run" "a b" eq_refl Ht).
  - constructor; [|constructor]. exists "FROM x". split; reflexivity.
  - reflexivity.
  - discriminate.
  - reflexivity.
  - reflexivity.
  - exact Hc.
  - exact Ha.
Defined.

(** X23: After a CMD instruction with a clean value is added to a file
    whose lines all end in a newline and whose scan does not end in a
    continuation, the [cmd] getter returns that value, whatever CMD
    instructions the file had.  The text of the file and the value are
    of code points below 128 without carriage return. *)
Theorem add_cmd_then_get :
  forall (self : DockerfileParser) (text v : string),
    dockerfile self = Some text ->
    ascii_text text ->
    Forall full_line (readlines text) ->
    in_continuation (scan 0 (readlines text) scan_init) = false ->
    clean_value v ->
    ascii_text v ->
    cmd (snd (_add_instruction "CMD" (Text v) self)) = Ok (Some v).
Proof.
  intros self text v Hf _ Hfull Hclosed Hc _.
  destruct (add_text_step self text "CMD" v Hf Hfull Hclosed
              ltac:(discriminate) eq_refl eq_refl Hc) as [_ HS].
  unfold cmd. rewrite HS. cbn [rbind]. f_equal.
  exact (last_value_found "CMD" (structure_of (readlines text)) []
           {| instruction := upper "CMD";
              startline := length (readlines text);
              endline := length (readlines text);
              content := "CMD" ++ " " ++ v ++ nl;
              value := v |}
           eq_refl (Forall_nil _)).
Qed.

Lemma add_cmd_then_get_witness :
  dockerfile (parser_of (concat_lines two_cmds)) = Some (concat_lines two_cmds)
  /\ ascii_text (concat_lines two_cmds)
  /\ clean_value "z" /\ ascii_text "z"
  /\ cmd (snd (_add_instruction "CMD" (Text "z") (parser_of (concat_lines two_cmds))))
     = Ok (Some "z").
Proof.
  assert (Ht : ascii_text (concat_lines two_cmds)) by (split; reflexivity).
  assert (Hfull : Forall full_line (readlines (concat_lines two_cmds)))
    by (repeat constructor; eexists; split; reflexivity).
  assert (Hc : clean_value "z") by (repeat split).
  assert (Ha : ascii_text "z") by (split; reflexivity).
  split; [reflexivity|]. split; [exact Ht|]. split; [exact Hc|]. split; [exact Ha|].
  apply (add_cmd_then_get (parser_of (concat_lines two_cmds)) (concat_lines two_cmds) "z"
           eq_refl Ht Hfull eq_refl Hc Ha).
Defined.

(* ================================================================== *)
(** ** The shape of the values *)

Section ValueShape.

Lemma contains_rstrip (c : ascii) (s : string) :
  contains c s = false -> contains c (rstrip s) = false.
Proof.
  intros H. destruct (rstrip_spec s) as (w & Hs & _).
  rewrite Hs, contains_append in H. apply orb_false_elim in H. apply H.
Qed.

Lemma contains_drop_last (c : ascii) (s : string) :
  contains c s = false -> contains c (drop_last s) = false.
Proof.
  induction s as [|d s IH]; intros H; [reflexivity|].
  cbn [contains] in H. apply orb_false_elim in H. destruct H as [Hd Hs].
  destruct s as [|e s]; [reflexivity|].
  change (drop_last (String d (String e s))) with (String d (drop_last (String e s))).
  cbn [contains]. rewrite Hd, (IH Hs). reflexivity.
Qed.

Lemma rstrip_backslash_plain (l : string) :
  contains NL (rstrip l) = false -> contains NL (_rstrip_backslash l) = false.
Proof.
  intros H. unfold _rstrip_backslash.
  destruct (endswith BACKSLASH (rstrip l)); [apply contains_drop_last, H | exact H].
Qed.

Lemma rstrip_lstrip_plain (l : string) :
  contains NL (rstrip l) = false -> contains NL (rstrip (lstrip l)) = false.
Proof.
  induction l as [|c s IH]; intros H; [reflexivity|].
  cbn [lstrip]. destruct (is_space c) eqn:Hc; [|exact H].
  apply IH. rewrite rstrip_cons in H.
  destruct (rstrip s) as [|d r]; [reflexivity|].
  cbn [contains] in H. apply orb_false_elim in H. apply H.
Qed.

Lemma lstrip_head (c : ascii) (s : string) :
  is_space c = false -> lstrip (String c s) = String c s.
Proof. intros H. cbn [lstrip]. rewrite H. reflexivity. Qed.

Lemma lstrip_lstrip (s : string) : lstrip (lstrip s) = lstrip s.
Proof.
  induction s as [|c s IH]; [reflexivity|].
  cbn [lstrip]. destruct (is_space c) eqn:Hc; [exact IH|].
  apply lstrip_head, Hc.
Qed.

Lemma lstrip_app_fixed (a b : string) :
  truthy a = true -> lstrip a = a -> lstrip (a ++ b) = a ++ b.
Proof.
  intros Ht Ha. destruct a as [|c a]; [discriminate Ht|].
  apply lstrip_head, (lstrip_fixed_head c a Ha).
Qed.

Lemma rstrip_backslash_fixed (s : string) :
  lstrip s = s -> lstrip (_rstrip_backslash s) = _rstrip_backslash s.
Proof.
  intros H. destruct s as [|c s]; [reflexivity|].
  pose proof (lstrip_fixed_head c s H) as Hc.
  unfold _rstrip_backslash.
  assert (Hr : rstrip (String c s) = String c (rstrip s)).
  { rewrite rstrip_cons, Hc. destruct (rstrip s); reflexivity. }
  rewrite Hr. destruct (endswith BACKSLASH (String c (rstrip s))).
  - destruct (rstrip s) as [|d r]; [reflexivity|].
    change (drop_last (String c (String d r))) with (String c (drop_last (String d r))).
    apply lstrip_head, Hc.
  - apply lstrip_head, Hc.
Qed.

Lemma span_dot_fixed (s : string) :
  lstrip s = s -> lstrip (fst (span is_dot s)) = fst (span is_dot s).
Proof.
  intros H. destruct s as [|c s]; [reflexivity|].
  pose proof (lstrip_fixed_head c s H) as Hc.
  cbn [span]. destruct (is_dot c); [|reflexivity].
  destruct (span is_dot s) as [a b]. cbn [fst]. apply lstrip_head, Hc.
Qed.

Lemma insnre_match_rest (line kw rest : string) :
  insnre_match line = Some [kw; rest] -> lstrip rest = rest.
Proof.
  rewrite insnre_match_direct. unfold insnre_direct.
  destruct (span is_word (lstrip line)) as [kw' s2]. destruct (truthy kw'); [|discriminate].
  pose proof (span_space_lstrip s2) as Hs3.
  destruct (span is_space s2) as [ws s3]. destruct (truthy ws); [|discriminate].
  cbn [snd] in Hs3.
  pose proof (span_dot_fixed s3) as Hd.
  destruct (span is_dot s3) as [rest' tail]. destruct (Re.at_end tail); [|discriminate].
  intros E. injection E as _ <-. cbn [fst] in Hd. apply Hd.
  rewrite Hs3. apply lstrip_lstrip.
Qed.

Lemma value_ok_open (pre : list string) (l : string) (groups : list string) :
  insnre_match l = Some groups ->
  value_ok (pre ++ [l])
    (open_instruction (length pre) l (nth 0 groups EmptyString)
       (nth 1 groups EmptyString)).
Proof.
  intros Hm. destruct (insnre_match_shape l groups Hm) as (kw & rest & -> & _ & _ & Hn).
  cbn [nth]. unfold value_ok, open_instruction. cbn [value]. split.
  - apply rstrip_backslash_fixed, (insnre_match_rest l kw rest Hm).
  - intros _. apply rstrip_backslash_plain, contains_rstrip, Hn.
Qed.

Lemma value_ok_continue (pre : list string) (l : string) (ci : Instruction) :
  value_ok pre ci ->
  value_ok (pre ++ [l]) (continue_instruction (length pre) l ci).
Proof.
  intros [Hl Hn]. unfold value_ok, continue_instruction. cbn [value].
  destruct (truthy (value ci)) eqn:Ht; split.
  - apply lstrip_app_fixed; assumption.
  - intros H. apply Forall_app in H. destruct H as [Hpre Hlast].
    inversion Hlast as [|? ? Hok _]; subst.
    rewrite contains_append, (Hn Hpre). apply rstrip_backslash_plain, Hok.
  - apply rstrip_backslash_fixed, lstrip_lstrip.
  - intros H. apply Forall_app in H. destruct H as [_ Hlast].
    inversion Hlast as [|? ? Hok _]; subst.
    apply rstrip_backslash_plain, rstrip_lstrip_plain, Hok.
Qed.

Lemma values_ok (ls : list string) : Forall (value_ok ls) (structure_of ls).
Proof.
  apply (scan_prefix_inv value_ok value_ok).
  - intros pre l i _ [Hl Hn]. split; [exact Hl|].
    intros H. apply Forall_app in H. apply Hn, H.
  - intros pre l groups Hm _. apply value_ok_open, Hm.
  - intros pre l groups Hm _. apply value_ok_open, Hm.
  - intros pre l ci H _ _ _. apply value_ok_continue, H.
  - intros pre l ci H _ _ _. apply value_ok_continue, H.
Qed.

Lemma text_line_ok (l : string) : full_line l \/ partial_line l -> line_ok l.
Proof.
  unfold line_ok. intros [(b & -> & Hb) | [_ Hb]].
  - rewrite rstrip_app_space by reflexivity. apply contains_rstrip, Hb.
  - apply contains_rstrip, Hb.
Qed.

Lemma text_lines_ok (ls : list string) : text_lines ls -> Forall line_ok ls.
Proof.
  induction ls as [|l r IH]; intros H; [constructor|].
  destruct r as [|m r].
  - constructor; [apply text_line_ok, H | constructor].
  - destruct H as [Hl Hr]. constructor; [apply text_line_ok; left; exact Hl | apply IH, Hr].
Qed.

End ValueShape.

(** X24: No value of the structure starts with white space, whatever the
    lines; and no value of the structure of a file contains a
    newline. *)
Theorem structure_values_shape :
  (forall ls : list string,
      Forall (fun i => lstrip (value i) = value i) (structure_of ls))
  /\ (forall text : string,
         Forall (fun i => contains NL (value i) = false)
                (structure_of (readlines text))).
Proof.
  split.
  - intros ls. apply (Forall_impl _ (fun i H => proj1 H) (values_ok ls)).
  - intros text.
    apply (Forall_impl _ (fun i H => proj2 H (text_lines_ok _ (readlines_text_lines text)))
             (values_ok (readlines text))).
Qed.

(* ================================================================== *)
(** ** A label changed in place *)

Section QuotedTokens.

Import Shlex.

Lemma safe_char (c : ascii) :
  is_safe c = true ->
  is_whitespace c = false /\ is_quote c = false /\ is_escape c = false
  /\ is_space c = false /\ Ascii.eqb c NL = false.
Proof.
  destruct c as [[|] [|] [|] [|] [|] [|] [|] [|]]; vm_compute; intros H;
    repeat split; congruence.
Qed.

(** Safe characters are read as they are. *)
Lemma lex_safe (s : string) :
  str_all is_safe s = true ->
  forall (esc : lex_state) (tok : string) (q : bool) (rest : string),
    lex InWord esc tok q (s ++ rest) = lex InWord esc (tok ++ s) q rest.
Proof.
  induction s as [|c s IH]; intros Hs esc tok q rest.
  - rewrite append_empty_r. reflexivity.
  - cbn [str_all] in Hs. apply andb_prop in Hs. destruct Hs as [Hc Hs].
    destruct (safe_char c Hc) as (Hw & Hq & He & _).
    cbn [append lex]. rewrite Hw, Hq, He. rewrite (IH Hs). unfold append_char.
    rewrite append_char_l. reflexivity.
Qed.

(** What stands between single quotes is read back, the five
    characters that stand for a single quote as one. *)
Lemma lex_escaped (s : string) :
  forall (esc : lex_state) (tok : string) (q : bool) (rest : string),
    lex (InQuote SQUOTE) esc tok q (escape_squotes s ++ String SQUOTE rest)
    = lex InWord esc (tok ++ s) true rest.
Proof.
  induction s as [|c s IH]; intros esc tok q rest.
  - cbn [escape_squotes append lex]. rewrite Ascii.eqb_refl, append_empty_r. reflexivity.
  - cbn [escape_squotes]. destruct (Ascii.eqb_spec c SQUOTE) as [->|Hc].
    + change ((sq ++ dq ++ sq ++ dq ++ sq ++ escape_squotes s) ++ String SQUOTE rest)
        with (String SQUOTE (String DQUOTE (String SQUOTE (String DQUOTE (String SQUOTE
                (escape_squotes s ++ String SQUOTE rest)))))).
      change (lex (InQuote SQUOTE) esc tok q
                (String SQUOTE (String DQUOTE (String SQUOTE (String DQUOTE (String SQUOTE
                   (escape_squotes s ++ String SQUOTE rest)))))))
        with (lex (InQuote SQUOTE) esc (append_char tok SQUOTE) true
                (escape_squotes s ++ String SQUOTE rest)).
      rewrite IH. unfold append_char. rewrite append_char_l. reflexivity.
    + cbn [append lex]. apply Ascii.eqb_neq in Hc. rewrite Hc.
      replace (is_escapedquote SQUOTE) with false by reflexivity.
      rewrite andb_false_r. rewrite IH. unfold append_char.
      rewrite append_char_l. reflexivity.
Qed.

(** A quoted string is read back as the string, added to the token
    being read. *)
Lemma lex_quote (s : string) :
  forall (esc : lex_state) (tok : string) (q : bool) (rest : string),
    exists q',
      lex InWord esc tok q (quote s ++ rest) = lex InWord esc (tok ++ s) q' rest.
Proof.
  intros esc tok q rest. unfold quote.
  destruct s as [|c s].
  - exists true. cbn [truthy negb]. rewrite append_empty_r. reflexivity.
  - cbn [truthy negb]. destruct (str_all is_safe (String c s)) eqn:Hs.
    + exists q. apply lex_safe, Hs.
    + exists true.
      change ((sq ++ escape_squotes (String c s) ++ sq) ++ rest)
        with (String SQUOTE ((escape_squotes (String c s) ++ sq) ++ rest)).
      replace ((escape_squotes (String c s) ++ sq) ++ rest)
        with (escape_squotes (String c s) ++ String SQUOTE rest)
        by (unfold sq; rewrite append_char_l; reflexivity).
      change (lex InWord esc tok q
                (String SQUOTE (escape_squotes (String c s) ++ String SQUOTE rest)))
        with (lex (InQuote SQUOTE) esc tok q
                (escape_squotes (String c s) ++ String SQUOTE rest)).
      apply lex_escaped.
Qed.

(** A quoted string starts with a single quote or with a safe
    character. *)
Lemma quote_head (s : string) :
  exists c t, quote s = String c t
              /\ (c = SQUOTE \/ is_safe c = true).
Proof.
  unfold quote. destruct s as [|c s].
  - exists SQUOTE, sq. split; [reflexivity | left; reflexivity].
  - cbn [truthy negb]. destruct (str_all is_safe (String c s)) eqn:Hs.
    + exists c, s. split; [reflexivity|]. right.
      cbn [str_all] in Hs. apply andb_prop in Hs. apply Hs.
    + eexists SQUOTE, _. split; [reflexivity | left; reflexivity].
Qed.

Lemma lex_from_space (c : ascii) (t : string) (esc : lex_state) :
  c = SQUOTE \/ is_safe c = true ->
  lex InSpace esc EmptyString false (String c t)
  = lex InWord esc EmptyString false (String c t).
Proof.
  intros [->|Hc]; [reflexivity|].
  destruct (safe_char c Hc) as (Hw & Hq & He & _).
  cbn [lex]. rewrite Hw, Hq, He. reflexivity.
Qed.

(** The token that [_modify_instruction_label] writes for a key and a
    value is read back by [_shlex_split] as one token: the key, an
    equals sign and the value. *)
Lemma split_quoted_pair (k v : string) :
  split (quote k ++ "=" ++ quote v) = Ok [k ++ "=" ++ v].
Proof.
  unfold split. destruct (quote_head k) as (c & t & Hk & Hc).
  rewrite Hk. change (String c t ++ "=" ++ quote v) with (String c (t ++ "=" ++ quote v)).
  rewrite (lex_from_space c _ InSpace Hc).
  change (String c (t ++ "=" ++ quote v)) with (String c t ++ "=" ++ quote v).
  rewrite <- Hk.
  destruct (lex_quote k InSpace EmptyString false ("=" ++ quote v)) as [q1 H1].
  rewrite H1.
  change (EmptyString ++ k) with k.
  change (lex InWord InSpace k q1 ("=" ++ quote v))
    with (lex InWord InSpace (append_char k "=") q1 (quote v)).
  rewrite <- (append_empty_r (quote v)).
  destruct (lex_quote v InSpace (append_char k "=") q1 EmptyString) as [q2 H2].
  rewrite H2. unfold append_char. rewrite append_char_l.
  cbn [lex]. unfold emit.
  rewrite truthy_app_r by reflexivity. reflexivity.
Qed.

End QuotedTokens.

Section ChangedLabel.

Import Shlex.

Lemma contains_escape_squotes (s : string) :
  contains NL s = false -> contains NL (escape_squotes s) = false.
Proof.
  induction s as [|c s IH]; intros H; [reflexivity|].
  cbn [contains] in H. apply orb_false_elim in H. destruct H as [Hc Hs].
  cbn [escape_squotes]. destruct (Ascii.eqb c SQUOTE).
  - change (sq ++ dq ++ sq ++ dq ++ sq ++ escape_squotes s)
      with (String SQUOTE (String DQUOTE (String SQUOTE (String DQUOTE (String SQUOTE
              (escape_squotes s)))))).
    cbn [contains]. rewrite (IH Hs). reflexivity.
  - cbn [contains]. rewrite Hc, (IH Hs). reflexivity.
Qed.

Lemma quote_plain (s : string) :
  contains NL s = false -> contains NL (quote s) = false.
Proof.
  intros H. unfold quote. destruct (negb (truthy s)); [reflexivity|].
  destruct (str_all is_safe s); [exact H|].
  rewrite !contains_append, (contains_escape_squotes s H). reflexivity.
Qed.

Lemma rstrip_safe (s : string) : str_all is_safe s = true -> rstrip s = s.
Proof.
  induction s as [|c s IH]; intros H; [reflexivity|].
  cbn [str_all] in H. apply andb_prop in H. destruct H as [Hc Hs].
  destruct (safe_char c Hc) as (_ & _ & _ & Hsp & _).
  rewrite rstrip_cons, (IH Hs), Hsp. destruct s; reflexivity.
Qed.

Lemma endswith_safe (s : string) :
  str_all is_safe s = true -> endswith BACKSLASH s = false.
Proof.
  induction s as [|c s IH]; intros H; [reflexivity|].
  cbn [str_all] in H. apply andb_prop in H. destruct H as [Hc Hs].
  destruct s as [|d s]; [|exact (IH Hs)].
  destruct (safe_char c Hc) as (_ & _ & He & _). exact He.
Qed.

Lemma quote_tail (s : string) :
  truthy (quote s) = true /\ rstrip (quote s) = quote s
  /\ endswith BACKSLASH (quote s) = false.
Proof.
  unfold quote. destruct s as [|c s]; [repeat split|].
  cbn [truthy negb]. destruct (str_all is_safe (String c s)) eqn:Hs.
  - split; [reflexivity|]. split; [apply rstrip_safe, Hs | apply endswith_safe, Hs].
  - replace (sq ++ escape_squotes (String c s) ++ sq)
      with ((sq ++ escape_squotes (String c s)) ++ sq)
      by (rewrite str_app_assoc; reflexivity).
    split; [apply truthy_app_r; reflexivity|]. split.
    + apply rstrip_app_kept. reflexivity.
    + rewrite endswith_app by reflexivity. reflexivity.
Qed.

Lemma quoted_pair_clean (k v : string) :
  contains NL k = false -> contains NL v = false ->
  clean_value (quote k ++ "=" ++ quote v).
Proof.
  intros Hk Hv. destruct (quote_tail v) as (Ht & Hr & He).
  split; [|split; [|split]].
  - rewrite !contains_append, (quote_plain k Hk), (quote_plain v Hv). reflexivity.
  - destruct (quote_head k) as (c & t & Hq & Hc). rewrite Hq.
    apply lstrip_head. destruct Hc as [->|Hc]; [reflexivity|].
    apply (safe_char c Hc).
  - replace (quote k ++ "=" ++ quote v) with ((quote k ++ "=") ++ quote v)
      by (rewrite str_app_assoc; reflexivity).
    rewrite rstrip_app_kept; rewrite Hr; [reflexivity | exact Ht].
  - replace (quote k ++ "=" ++ quote v) with ((quote k ++ "=") ++ quote v)
      by (rewrite str_app_assoc; reflexivity).
    rewrite endswith_app by exact Ht. exact He.
Qed.

Lemma filter_none {A : Type} (f : A -> bool) (l : list A) :
  Forall (fun i => f i = false) l -> List.filter f l = [].
Proof.
  intros H. induction H as [|a l Ha Hl IH]; [reflexivity|].
  cbn [List.filter]. rewrite Ha. exact IH.
Qed.

(** The labels of a structure with one LABEL instruction that holds
    one token. *)
Lemma labels_of_one_token (A B : list Instruction) (x : Instruction) (k w : string) :
  Forall (fun i => is_label i = false) A ->
  Forall (fun i => is_label i = false) B ->
  is_label x = true ->
  _shlex_split (value x) = Ok [k ++ "=" ++ w] ->
  contains EQUALS k = false ->
  labels_loop (A ++ x :: B) [] = Ok [(k, w)].
Proof.
  intros HA HB Hx Hsp Hk.
  rewrite labels_loop_app, (labels_loop_no_label A HA). cbn [rbind labels_loop].
  unfold labels_insn. unfold is_label in Hx. rewrite Hx, Hsp. cbn [rbind].
  rewrite contains_append. replace (contains EQUALS ("=" ++ w)) with true by reflexivity.
  rewrite orb_true_r. cbn [negb labels_tokens].
  change (k ++ "=" ++ w) with (k ++ String EQUALS w).
  rewrite (split_char1_at EQUALS k w Hk). cbn [set_key_val rbind dict_set].
  apply labels_loop_no_label, HB.
Qed.

(** What the scan of the LABEL instructions selects in such a
    structure. *)
Lemma select_of_one_token (A B : list Instruction) (x : Instruction)
    (k old v : string) :
  Forall (fun i => is_label i = false) A ->
  Forall (fun i => is_label i = false) B ->
  is_label x = true ->
  _shlex_split (value x) = Ok [k ++ "=" ++ old] ->
  contains EQUALS k = false ->
  select_label k v (List.filter is_label (A ++ x :: B)) None
  = Ok (Some (("LABEL" ++ " " ++ quote k ++ "=" ++ quote v) ++ nl,
              startline x, endline x)).
Proof.
  intros HA HB Hx Hsp Hk.
  rewrite filter_app, (filter_none is_label A HA). cbn [app List.filter].
  rewrite Hx, (filter_none is_label B HB).
  cbn [select_label]. rewrite Hsp. cbn [rbind].
  rewrite contains_append. replace (contains EQUALS ("=" ++ old)) with true by reflexivity.
  rewrite orb_true_r. cbn [negb select_tokens].
  change (k ++ "=" ++ old) with (k ++ String EQUALS old).
  rewrite (split_char1_at EQUALS k old Hk).
  rewrite String.eqb_refl. cbn [index]. rewrite String.eqb_refl.
  cbn [list_set map join rbind]. reflexivity.
Qed.

End ChangedLabel.

(** X25: A label changed in place and read back.  On a file whose only
    LABEL instruction starts after the first line and holds one token,
    key=value, [_modify_instruction_label] with that key and a new
    value without newline writes the file once, with the lines of the
    instruction replaced by one line that holds the key and the new
    value as [quote] writes them; the [labels] getter then returns the
    key with the new value, whatever blanks, quotes and backslashes
    the value holds.  The text of the file, the key and the value are
    of code points below 128 without carriage return. *)
Theorem label_changed_then_read :
  forall (self : DockerfileParser) (text k old v : string)
         (A B : list Instruction) (x : Instruction),
    dockerfile self = Some text ->
    ascii_text text ->
    structure_of (readlines text) = (A ++ x :: B)%list ->
    Forall (fun i => is_label i = false) A ->
    Forall (fun i => is_label i = false) B ->
    is_label x = true ->
    0 < startline x ->
    _shlex_split (value x) = Ok [k ++ "=" ++ old] ->
    contains EQUALS k = false ->
    contains NL k = false -> contains NL v = false ->
    ascii_text k -> ascii_text v ->
    labels self = Ok [(k, old)]
    /\ _modify_instruction_label k v self
       = (Ok tt,
          set_lines (app (firstn (startline x) (readlines text))
                         ((("LABEL" ++ " " ++ Shlex.quote k ++ "=" ++ Shlex.quote v) ++ nl)
                          :: skipn (S (endline x)) (readlines text))) self)
    /\ labels (snd (_modify_instruction_label k v self)) = Ok [(k, v)].
Proof.
  intros self text k old v A B x Hf _ Hs HA HB Hx Hpos Hsp Hk Hkn Hvn _ _.
  assert (Hin : In x (structure_of (readlines text))) by (rewrite Hs; apply in_elt).
  destruct (structure_of_ordered (readlines text)) as [Ho Hb].
  pose proof (ordered_In _ _ _ Ho Hin) as Hse.
  rewrite Forall_forall in Hb. specialize (Hb x Hin). cbn beta in Hb.
  assert (Hlab : labels self = Ok [(k, old)]).
  { unfold labels, structure, lines. rewrite Hf. cbn [rbind]. rewrite Hs.
    apply (labels_of_one_token A B x k old HA HB Hx Hsp Hk). }
  set (W := Shlex.quote k ++ "=" ++ Shlex.quote v).
  pose proof (quoted_pair_clean k v Hkn Hvn) as Hclean. fold W in Hclean.
  destruct (instruction_line "LABEL" W eq_refl eq_refl Hclean) as (Hm & Hc & Hrb).
  set (L := ("LABEL" ++ " " ++ W) ++ nl).
  assert (HL : L = "LABEL" ++ " " ++ W ++ nl)
    by (unfold L; rewrite !str_app_assoc; reflexivity).
  rewrite <- HL in Hm, Hc.
  assert (Hmod : _modify_instruction_label k v self
                 = (Ok tt,
                    set_lines (app (firstn (startline x) (readlines text))
                                   (L :: skipn (S (endline x)) (readlines text))) self)).
  { unfold _modify_instruction_label, bind, read. rewrite Hlab.
    unfold dict_mem, dict_get. rewrite String.eqb_refl. cbn [negb].
    unfold structure, lines, lift. rewrite Hf. cbn [rbind]. rewrite Hs.
    rewrite (select_of_one_token A B x k old v HA HB Hx Hsp Hk).
    fold W. fold L. unfold selection_holds.
    replace (truthy L) with true by reflexivity.
    replace (startline x =? 0)%nat with false by (symmetry; apply Nat.eqb_neq; lia).
    replace (endline x =? 0)%nat with false by (symmetry; apply Nat.eqb_neq; lia).
    cbn [negb andb]. unfold write. rewrite Hf.
    rewrite splice_eq by lia. reflexivity. }
  split; [exact Hlab|]. split; [exact Hmod|].
  rewrite Hmod. cbn [snd].
  destruct (structure_after_replace _ _ _ _ _ _ _ Hs Hm Hc) as (B' & HS & HB').
  unfold labels, structure, lines, set_lines. cbn [dockerfile].
  rewrite readlines_concat.
  - cbn [rbind]. rewrite HS.
    apply (labels_of_one_token A B' _ k v HA).
    + rewrite <- HB' in HB. exact (names_of_shift "LABEL" _ _ HB).
    + reflexivity.
    + unfold open_instruction. cbn [value]. rewrite Hrb. apply split_quoted_pair.
    + exact Hk.
  - apply text_lines_app_full.
    + apply text_lines_firstn; [apply readlines_text_lines | lia].
    + apply text_lines_cons; [|apply text_lines_skipn, readlines_text_lines].
      unfold L. apply full_line_of. rewrite !contains_append.
      destruct Hclean as [Hp _]. rewrite Hp. reflexivity.
Qed.

Lemma label_changed_then_read_witness :
  dockerfile (parser_of ("FROM x" ++ nl ++ "LABEL a=1 " ++ bs ++ nl ++ nl ++ "RUN y" ++ nl))
  = Some ("FROM x" ++ nl ++ "LABEL a=1 " ++ bs ++ nl ++ nl ++ "RUN y" ++ nl)
  /\ ascii_text ("FROM x" ++ nl ++ "LABEL a=1 " ++ bs ++ nl ++ nl ++ "RUN y" ++ nl)
  /\ ascii_text "a" /\ ascii_text "it's 2"
  /\ written (snd (_modify_instruction_label "a" "it's 2"
                     (parser_of ("FROM x" ++ nl ++ "LABEL a=1 " ++ bs ++ nl ++ nl
                                 ++ "RUN y" ++ nl))))
     = [["FROM x" ++ nl; "LABEL a='it'" ++ dq ++ "'" ++ dq ++ "'s 2'" ++ nl; "RUN y" ++ nl]]
  /\ labels (snd (_modify_instruction_label "a" "it's 2"
                    (parser_of ("FROM x" ++ nl ++ "LABEL a=1 " ++ bs ++ nl ++ nl
                                ++ "RUN y" ++ nl))))
     = Ok [("a", "it's 2")].
Proof.
  assert (Ht : ascii_text ("FROM x" ++ nl ++ "LABEL a=1 " ++ bs ++ nl ++ nl
                           ++ "RUN y" ++ nl)) by (split; reflexivity).
  assert (Hk : ascii_text "a") by (split; reflexivity).
  assert (Hv : ascii_text "it's 2") by (split; reflexivity).
  split; [reflexivity|]. split; [exact Ht|]. split; [exact Hk|]. split; [exact Hv|].
  destruct (label_changed_then_read
              (parser_of ("FROM x" ++ nl ++ "LABEL a=1 " ++ bs ++ nl ++ nl ++ "RUN y" ++ nl))
              ("FROM x" ++ nl ++ "LABEL a=1 " ++ bs ++ nl ++ nl ++ "RUN y" ++ nl)
              "a" "1" "it's 2"
              [{| instruction := "FROM"; startline := 0; endline := 0;
                  content := "FROM x" ++ nl; value := "x" |}]
              [{| instruction := "RUN"; startline := 3; endline := 3;
                  content := "RUN y" ++ nl; value := "y" |}]
              {| instruction := "LABEL"; startline := 1; endline := 2;
                 content := "LABEL a=1 " ++ bs ++ nl ++ nl; value := "a=1 " |}
              eq_refl Ht eq_refl ltac:(repeat constructor) ltac:(repeat constructor)
              eq_refl ltac:(repeat constructor) eq_refl eq_refl eq_refl eq_refl Hk Hv)
    as (_ & Hw & Hl).
  split; [rewrite Hw; reflexivity | exact Hl].
Defined.

(* ================================================================== *)
(** ** The continuation test and the backslash that is removed *)

(** X26: On a line whose newlines, if any, stand in the white space at its
    end (every line read from a file is one), the loop of [structure]
    goes on to the next line exactly when [_rstrip_backslash] removes
    a backslash: [contre] matches when the line without the white
    space at its end ends in a backslash, which is then the one
    character removed; otherwise only the white space is removed. *)
Theorem continuation_iff_backslash :
  forall l : string,
    line_ok l ->
    contre_match l = endswith BACKSLASH (rstrip l)
    /\ _rstrip_backslash l
       = (if contre_match l then drop_last (rstrip l) else rstrip l).
Proof.
  intros l Hl. unfold line_ok in Hl.
  assert (H : contre_match l = endswith BACKSLASH (rstrip l)).
  { rewrite contre_match_rstrip, Hl. apply andb_true_r. }
  split; [exact H|]. rewrite H. reflexivity.
Qed.

Lemma continuation_iff_backslash_witness :
  line_ok ("RUN a " ++ bs ++ "  " ++ nl)
  /\ contre_match ("RUN a " ++ bs ++ "  " ++ nl) = true
  /\ _rstrip_backslash ("RUN a " ++ bs ++ "  " ++ nl) = "RUN a ".
Proof.
  assert (H : line_ok ("RUN a " ++ bs ++ "  " ++ nl)) by reflexivity.
  split; [exact H|].
  destruct (continuation_iff_backslash ("RUN a " ++ bs ++ "  " ++ nl) H) as [H1 H2].
  split; [rewrite H1; reflexivity | rewrite H2, H1; reflexivity].
Defined.
